(** * Sliding-window segmentation inference: window merging and engine life cycle

    A shallow embedding of [SegmSlidingWinInference] (isaid_eval.py):
    [patch] plans the windows, [forward]/[_forward] run the model window by
    window, [merge] accumulates the per-window predictions into a sum buffer
    and a count buffer and divides one by the other.

    - Tensors carry a shape and an element function over index lists.
    - Buffers are [torch.float32]: elements are IEEE-754 binary32 values,
      taken from the standard library's [SpecFloat] at precision 24 and
      maximal exponent 128 (round to nearest, ties to even, a single NaN).
      Images (after [astype(np.float32)]) and predictions hold binary32
      values as well.
    - Python exceptions are values of [pyerr]; a call returns a [result].
    - The engine object is a record; a method maps the record before the call
      to the record after it, also when it raises.
    - The callables the engine receives or imports (transform, model,
      [th_divisible_pad], [sliding_window]) are parameters, and so is the
      environment's answer to moving a tensor to a device.

    The development also covers the evaluation loop of [run] in the same
    file, as the sequence of events it hands to its collaborators, and the
    network of module/farseg.py ([SceneRelation], [AssymetricDecoder],
    [FarSeg]) at the level of the layers its constructors build and of the
    shapes its [forward] methods produce. *)

From Stdlib Require Import String.
From Stdlib Require Import ZArith List Bool Lia Permutation.
From Stdlib Require Import SpecFloat.
Import ListNotations.
Local Open Scope Z_scope.

(** ** binary32 arithmetic *)

Definition float32 : Type := spec_float.

Module F32.

Definition prec : Z := 24.
Definition emax : Z := 128.

Definition add : float32 -> float32 -> float32 := SFadd prec emax.
Definition div : float32 -> float32 -> float32 := SFdiv prec emax.

Definition zero : float32 := S754_zero false.
Definition one : float32 := S754_finite false 8388608 (-23).
Definition nan : float32 := S754_nan.

(** The integer [n] rounded to binary32. *)
Definition of_Z (n : Z) : float32 := binary_normalize prec emax n 0 false.

(** Left-to-right summation from [+0], the way [+=] accumulates. *)
Definition sum (l : list float32) : float32 := fold_left add l zero.

End F32.

(** ** Exceptions *)

Inductive pyerr : Type :=
| AttributeError
| AssertionError
| ValueError
| IndexError
| TypeError
| RuntimeError
| External (msg : string).

Inductive result (A : Type) : Type :=
| Ok (a : A)
| Raise (e : pyerr).

Arguments Ok {A} a.
Arguments Raise {A} e.

Definition bind {A B : Type} (r : result A) (k : A -> result B) : result B :=
  match r with
  | Ok a => k a
  | Raise e => Raise e
  end.

Notation "x <- r ;; k" := (bind r (fun x => k))
  (at level 61, r at next level, right associativity).

(** ** Tensors *)

Record tensor : Type := mkTensor {
  shape : list Z;
  data : list Z -> float32
}.

Definition zeros (sh : list Z) : tensor := mkTensor sh (fun _ => F32.zero).

(** Python's normalisation of one end of a slice [a:b] on an axis of
    length [n]: a negative index counts from the end, and the result is
    clamped to [0, n]. *)
Definition slice_bound (n i : Z) : Z :=
  if i <? 0 then Z.max (i + n) 0 else Z.min i n.

Definition slice_len (n a b : Z) : Z :=
  Z.max (slice_bound n b - slice_bound n a) 0.

Definition in_slice (n a b i : Z) : bool :=
  (slice_bound n a <=? i) && (i <? slice_bound n b).

(** Broadcasting of [src] into a destination of shape [dst] for an in-place
    operation: shapes are aligned on their last axis, [src] may not have more
    axes than [dst], and every axis of [src] has the destination's length
    or length 1. *)
Fixpoint bcast_ok (rsrc rdst : list Z) : bool :=
  match rsrc, rdst with
  | [], _ => true
  | _ :: _, [] => false
  | p :: rsrc', t :: rdst' => ((p =? t) || (p =? 1)) && bcast_ok rsrc' rdst'
  end.

Definition broadcastable (src dst : list Z) : bool :=
  bcast_ok (rev src) (rev dst).

Fixpoint bcast_idx_rev (rsrc ridx : list Z) : list Z :=
  match rsrc, ridx with
  | p :: rsrc', i :: ridx' => (if p =? 1 then 0 else i) :: bcast_idx_rev rsrc' ridx'
  | _, _ => []
  end.

(** The index of [src] read at the destination index [idx]. *)
Definition bcast_idx (src idx : list Z) : list Z :=
  rev (bcast_idx_rev (rev src) (rev idx)).

(** ** Windows *)

(** [(x1, y1, x2, y2)], as [sliding_window] yields them. *)
Definition window : Type := (Z * Z * Z * Z)%type.

(** Pixel [(y, x)] lies in the slice [win[1]:win[3], win[0]:win[2]] of an
    [h] by [w] buffer. *)
Definition covers (h w : Z) (win : window) (y x : Z) : bool :=
  let '(x1, y1, x2, y2) := win in
  in_slice h y1 y2 y && in_slice w x1 x2 x.

(** ** The two buffers of merge *)

(** [res_count[win[1]:win[3], win[0]:win[2]] += 1] *)
Definition count_iadd (h w : Z) (res_count : tensor) (win : window) : tensor :=
  mkTensor (shape res_count)
    (fun idx =>
       match idx with
       | [y; x] => if covers h w win y x
                   then F32.add (data res_count idx) F32.one
                   else data res_count idx
       | _ => data res_count idx
       end).

(** The element of [pred] added at the pixel [(y, x)] of the buffer. *)
Definition contribution (h w : Z) (pred : tensor) (win : window)
    (b c y x : Z) : float32 :=
  let '(x1, y1, _, _) := win in
  data pred (bcast_idx (shape pred)
               [b; c; y - slice_bound h y1; x - slice_bound w x1]).

(** [res_img[:, :, win[1]:win[3], win[0]:win[2]] += pred.cpu()] on a buffer of
    shape [(B, C, h, w)]. *)
Definition img_iadd (B C h w : Z) (res_img : tensor) (pred : tensor)
    (win : window) : result tensor :=
  let '(x1, y1, x2, y2) := win in
  if broadcastable (shape pred) [B; C; slice_len h y1 y2; slice_len w x1 x2]
  then Ok (mkTensor (shape res_img)
             (fun idx =>
                match idx with
                | [b; c; y; x] =>
                    if covers h w win y x
                    then F32.add (data res_img idx) (contribution h w pred win b c y x)
                    else data res_img idx
                | _ => data res_img idx
                end))
  else Raise RuntimeError.

(** The loop of [merge]; the state is [(res_img, res_count)]. *)
Fixpoint accumulate (B C h w : Z) (out_list : list (tensor * window))
    (st : tensor * tensor) : result (tensor * tensor) :=
  match out_list with
  | [] => Ok st
  | (pred, win) :: rest =>
      let res_count := count_iadd h w (snd st) win in
      res_img <- img_iadd B C h w (fst st) pred win ;;
      accumulate B C h w rest (res_img, res_count)
  end.

(** [res_img / res_count], the count broadcast over the two leading axes. *)
Definition tdiv (res_img res_count : tensor) : tensor :=
  mkTensor (shape res_img)
    (fun idx =>
       match idx with
       | [b; c; y; x] => F32.div (data res_img idx) (data res_count [y; x])
       | _ => F32.nan
       end).

(** ** The engine object *)

(** An attribute of a Python object: never assigned, or holding a value. *)
Inductive attr (A : Type) : Type :=
| Unset
| Assigned (a : A).

Arguments Unset {A}.
Arguments Assigned {A} a.

Inductive torch_device : Type := cuda | cpu.

(** A NumPy array or a torch tensor: [transforms] turns the first into the
    second, and only the second has [.to(device)]. *)
Inductive pyarray : Type :=
| NdArray (t : tensor)
| TorchTensor (t : tensor).

Definition array_of (a : pyarray) : tensor :=
  match a with
  | NdArray t => t
  | TorchTensor t => t
  end.

Definition transform : Type := tensor -> result tensor.
Definition model_fn : Type := tensor -> result tensor.

Record engine : Type := mkEngine {
  _h : option Z;
  _w : option Z;
  device : torch_device;
  wins : attr (option (list window));
  transforms : attr (option transform)
}.

(** [__init__]: [wins] and [transforms] are not assigned. *)
Definition __init__ (cuda_is_available : bool) : engine :=
  mkEngine None None (if cuda_is_available then cuda else cpu) Unset Unset.

Definition set_hw (self : engine) (h w : Z) : engine :=
  mkEngine (Some h) (Some w) (device self) (wins self) (transforms self).

Definition set_device (self : engine) (d : torch_device) : engine :=
  mkEngine (_h self) (_w self) d (wins self) (transforms self).

Definition set_wins (self : engine) (ws : option (list window)) : engine :=
  mkEngine (_h self) (_w self) (device self) (Assigned ws) (transforms self).

Definition set_transforms (self : engine) (tr : option transform) : engine :=
  mkEngine (_h self) (_w self) (device self) (wins self) (Assigned tr).

(** ** merge *)

Definition merge (self : engine) (out_list : list (tensor * window)) : result tensor :=
  match out_list with
  | [] => Raise ValueError
  | (pred0, _) :: _ =>
      match shape pred0 with
      | B :: C :: _ =>
          match _h self, _w self with
          | Some h, Some w =>
              st <- accumulate B C h w out_list (zeros [B; C; h; w], zeros [h; w]) ;;
              Ok (tdiv (fst st) (snd st))
          | _, _ => Raise TypeError
          end
      | _ => Raise IndexError
      end
  end.

(** ** forward *)

(** The keyword arguments [_forward] reads. *)
Record kwargs : Type := mkKwargs {
  kw_device : option torch_device;
  kw_size_divisor : option Z
}.

(** What a call of [forward] leaves behind: the engine after the call, the
    inputs the model was invoked on, in order, and the value returned or the
    exception raised. *)
Record run : Type := mkRun {
  after : engine;
  calls : list tensor;
  returned : result tensor
}.

(** [image_np[y1:y2, x1:x2, :].astype(np.float32)] *)
Definition crop_image (image_np : tensor) (win : window) : result tensor :=
  let '(x1, y1, x2, y2) := win in
  match shape image_np with
  | H :: W :: c :: rest =>
      Ok (mkTensor (slice_len H y1 y2 :: slice_len W x1 x2 :: c :: rest)
            (fun idx =>
               match idx with
               | y :: x :: r =>
                   data image_np (y + slice_bound H y1 :: x + slice_bound W x1 :: r)
               | _ => data image_np idx
               end))
  | _ => Raise IndexError
  end.

(** [h, w = image.shape[2:4]] *)
Definition spatial (sh : list Z) : result (Z * Z) :=
  match firstn 2 (skipn 2 sh) with
  | [h; w] => Ok (h, w)
  | _ => Raise ValueError
  end.

(** [image.to(self.device)]: a NumPy array has no [.to]; a tensor is moved
    to the device, which raises when the environment cannot use that device
    (CUDA on a machine without a usable GPU).  [device_error] gives, for each
    device, the exception [Tensor.to] raises for it in the environment, if
    any. *)
Definition to_device (device_error : torch_device -> option pyerr)
    (dev : torch_device) (a : pyarray) : result tensor :=
  match a with
  | TorchTensor t =>
      match device_error dev with
      | Some err => Raise err
      | None => Ok t
      end
  | NdArray _ => Raise AttributeError
  end.

(** [self.device = kwargs.get('device', self.device)]: the engine as the
    loop of [_forward] sees it. *)
Definition with_device (self : engine) (kw : kwargs) : engine :=
  set_device self match kw_device kw with
                  | Some d => d
                  | None => device self
                  end.

(** [out[:, :, :h, :w]] *)
Definition crop_out (out : tensor) (h w : Z) : result tensor :=
  match shape out with
  | d0 :: d1 :: d2 :: d3 :: rest =>
      Ok (mkTensor (d0 :: d1 :: slice_len d2 0 h :: slice_len d3 0 w :: rest) (data out))
  | _ => Raise IndexError
  end.

Section Engine.

(** [simplecv.data.preprocess.sliding_window],
    [simplecv.preprocess.function.th_divisible_pad], and what [Tensor.to]
    raises in the environment for a device it cannot use. *)
Variable sliding_window : Z * Z -> Z * Z -> Z -> result (list window).
Variable th_divisible_pad : pyarray -> Z -> result pyarray.
Variable device_error : torch_device -> option pyerr.

Definition patch (self : engine) (input_size patch_size : Z * Z) (stride : Z)
    (transforms : option transform) : engine * result unit :=
  match sliding_window input_size patch_size stride with
  | Raise err => (self, Raise err)
  | Ok ws => (set_transforms (set_wins self (Some ws)) transforms, Ok tt)
  end.

(** [image_np[y1:y2, x1:x2, :]] followed by [self.transforms], when there
    is one. *)
Definition apply_transforms (self : engine) (image_np : tensor) (win : window)
    : result pyarray :=
  image <- crop_image image_np win ;;
  tr <- match transforms self with
        | Unset => Raise AttributeError
        | Assigned tr => Ok tr
        end ;;
  match tr with
  | None => Ok (NdArray image)
  | Some f => t <- f image ;; Ok (TorchTensor t)
  end.

(** The body of the loop up to the model call: the tensor handed to the
    model and the recorded [(h, w)]. *)
Definition prepare (self : engine) (image_np : tensor) (size_divisor : option Z)
    (win : window) : result (tensor * (Z * Z)) :=
  image <- apply_transforms self image_np win ;;
  hw <- spatial (shape (array_of image)) ;;
  image <- match size_divisor with
           | None => Ok image
           | Some d => th_divisible_pad image d
           end ;;
  image <- to_device device_error (device self) image ;;
  Ok (image, hw).

(** The body of the loop after the model call. *)
Definition finish (size_divisor : option Z) (hw : Z * Z) (out : tensor)
    : result tensor :=
  match size_divisor with
  | None => Ok out
  | Some _ => crop_out out (fst hw) (snd hw)
  end.

(** One iteration: the model inputs of this iteration and the prediction. *)
Definition process_win (self : engine) (model : model_fn) (image_np : tensor)
    (size_divisor : option Z) (win : window) : list tensor * result tensor :=
  match prepare self image_np size_divisor win with
  | Raise err => ([], Raise err)
  | Ok (image, hw) => ([image], out <- model image ;; finish size_divisor hw out)
  end.

(** [for win in tqdm(self.wins): ... out_list.append((out.cpu(), win))] *)
Fixpoint run_windows (self : engine) (model : model_fn) (image_np : tensor)
    (size_divisor : option Z) (ws : list window)
    (out_list : list (tensor * window))
    : list tensor * result (list (tensor * window)) :=
  match ws with
  | [] => ([], Ok out_list)
  | win :: rest =>
      match process_win self model image_np size_divisor win with
      | (c, Raise err) => (c, Raise err)
      | (c, Ok out) =>
          let '(c', r) := run_windows self model image_np size_divisor rest
                            (out_list ++ [(out, win)]) in
          (c ++ c', r)
      end
  end.

Definition _forward (self : engine) (model : model_fn) (image_np : tensor)
    (kw : kwargs) : run :=
  let self := with_device self kw in
  match wins self with
  | Unset => mkRun self [] (Raise AttributeError)
  | Assigned None => mkRun self [] (Raise AssertionError)
  | Assigned (Some ws) =>
      match run_windows self model image_np (kw_size_divisor kw) ws [] with
      | (c, Raise err) => mkRun self c (Raise err)
      | (c, Ok out_list) =>
          let self := set_wins self None in
          mkRun self c (merge self out_list)
      end
  end.

Definition forward (self : engine) (model : model_fn) (image_np : tensor)
    (kw : kwargs) : run :=
  match wins self with
  | Unset => mkRun self [] (Raise AttributeError)
  | Assigned None => mkRun self [] (Raise AssertionError)
  | Assigned (Some _) =>
      match shape image_np with
      | [h; w; _] => _forward (set_hw self h w) model image_np kw
      | _ => mkRun self [] (Raise ValueError)
      end
  end.

End Engine.

(** ** The imported helpers *)

(** Modelled from the spec: the per-axis step of the WindowPlanner of
    section 4.1, which is not part of the sources.  The windows of one axis
    of length [dim] for patch length [p] and stride [s], as
    [(start, stop)]: starts [0, s, 2s, ...] while [start + p <= dim],
    one more window clamped to end at [dim] when the last one does not, and a
    single window [(0, dim)] when the patch is not shorter than the axis. *)
Definition axis_spans (dim p s : Z) : list (Z * Z) :=
  if dim <=? p then [(0, dim)]
  else
    let n := (dim - p) / s + 1 in
    let starts := map (fun i => Z.of_nat i * s) (seq 0 (Z.to_nat n)) in
    let starts := if (n - 1) * s + p =? dim then starts else starts ++ [dim - p] in
    map (fun st => (st, st + p)) starts.

(** Modelled from the spec: [sliding_window] is imported from simplecv and is
    not part of the sources; this is the WindowPlanner of section 4.1.  Patch
    size and stride are positive; per axis, a stride larger than a patch that
    is shorter than the axis is rejected as a configuration error
    ([ValueError] here); the windows are the product of the two axes' spans in
    row-major order. *)
Definition spec_sliding_window (input_size patch_size : Z * Z) (stride : Z)
    : result (list window) :=
  let '(H, W) := input_size in
  let '(ph, pw) := patch_size in
  if negb ((0 <? ph) && (0 <? pw) && (0 <? stride)) then Raise ValueError
  else if ((ph <? stride) && (ph <? H)) || ((pw <? stride) && (pw <? W))
  then Raise ValueError
  else Ok (flat_map (fun ys =>
                       map (fun xs => (fst xs, fst ys, snd xs, snd ys))
                         (axis_spans W pw stride))
             (axis_spans H ph stride)).

(** The next multiple of [d] from [n] on. *)
Definition round_up (n d : Z) : Z := ((n + d - 1) / d) * d.

(** Modelled from the spec: [th_divisible_pad] is imported from simplecv and is
    not part of the sources; this is the divisibility padding of section 4.2,
    which enlarges the two spatial axes of a [(1, channels, h, w)] tensor to
    the next multiple of the divisor, anchored at the origin, filling with
    zero. *)
Definition spec_divisible_pad (a : pyarray) (d : Z) : result pyarray :=
  match a with
  | NdArray _ => Raise TypeError
  | TorchTensor t =>
      match shape t with
      | [b; c; h; w] =>
          if d <=? 0 then Raise ValueError
          else Ok (TorchTensor
                     (mkTensor [b; c; round_up h d; round_up w d]
                        (fun idx =>
                           match idx with
                           | [_; _; y; x] =>
                               if (y <? h) && (x <? w) then data t idx else F32.zero
                           | _ => F32.zero
                           end)))
      | _ => Raise IndexError
      end
  end.

(** ** Per-pixel view of the accumulation *)

(** The entries of [out_list] whose window covers pixel [(y, x)], in order. *)
Definition covering (h w y x : Z) (out_list : list (tensor * window))
    : list (tensor * window) :=
  filter (fun pw => covers h w (snd pw) y x) out_list.

(** Their values at element [(b, c, y, x)]. *)
Definition contributions (h w b c y x : Z) (out_list : list (tensor * window))
    : list float32 :=
  map (fun pw => contribution h w (fst pw) (snd pw) b c y x)
    (covering h w y x out_list).

(** [k] times [+= 1]. *)
Fixpoint count_up (k : nat) (v : float32) : float32 :=
  match k with
  | O => v
  | S k' => count_up k' (F32.add v F32.one)
  end.

(** A prediction's shape fits the slice of window [win] in a [(B, C, h, w)]
    buffer. *)
Definition fits (B C h w : Z) (pw : tensor * window) : bool :=
  let '(x1, y1, x2, y2) := snd pw in
  broadcastable (shape (fst pw)) [B; C; slice_len h y1 y2; slice_len w x1 x2].

(** ** Mantissa bookkeeping for binary32 integers *)

Definition shl (p : positive) (k : nat) : positive := Nat.iter k xO p.

Definition ndigits (n : positive) : nat := Pos.to_nat (digits2_pos n).

(** The binary32 representation of a positive integer below [2^24]: the
    mantissa is shifted up to 24 digits. *)
Definition canon (n : positive) : float32 :=
  S754_finite false (shl n (24 - ndigits n)) (Z.of_nat (ndigits n) - 24).

(** ** Concrete inputs *)

Definition const_tensor (sh : list Z) (v : float32) : tensor :=
  mkTensor sh (fun _ => v).

(** An engine whose [forward] has recorded height [h] and width [w]. *)
Definition engine_hw (h w : Z) : engine := set_hw (__init__ false) h w.

(** [ToTensor] followed by [unsqueeze(0)]: [(h, w, c)] to [(1, c, h, w)]. *)
Definition to_tensor : transform :=
  fun t =>
    match shape t with
    | [h; w; c] =>
        Ok (mkTensor [1; c; h; w]
              (fun idx =>
                 match idx with
                 | [_; ci; y; x] => data t [y; x; ci]
                 | _ => F32.zero
                 end))
    | _ => Raise ValueError
    end.

(** A three-class model scoring every pixel 1. *)
Definition ones_model : model_fn :=
  fun t =>
    match shape t with
    | [b; _; h; w] => Ok (const_tensor [b; 3; h; w] F32.one)
    | _ => Raise RuntimeError
    end.

Definition failing_model : model_fn :=
  fun _ => Raise (External "CUDA out of memory").

(** A three-class model that pools its input to a single pixel. *)
Definition pixel_model : model_fn :=
  fun t =>
    match shape t with
    | [b; _; _; _] => Ok (const_tensor [b; 3; 1; 1] F32.one)
    | _ => Raise RuntimeError
    end.

Definition image_10x10 : tensor := const_tensor [10; 10; 3] F32.one.

(** A machine without CUDA, the one [__init__ false] is built on: moving a
    tensor to [cuda] raises. *)
Definition no_cuda (dev : torch_device) : option pyerr :=
  match dev with
  | cpu => None
  | cuda => Some RuntimeError
  end.

Definition wins_10x10 : list window :=
  [(0, 0, 6, 6); (4, 0, 10, 6); (0, 4, 6, 10); (4, 4, 10, 10)].

Definition planned_engine : engine :=
  fst (patch spec_sliding_window (__init__ false) (10, 10) (6, 6) 4 (Some to_tensor)).

Definition kw_div4 : kwargs := mkKwargs None (Some 4).

Definition run_10x10 : run :=
  forward spec_divisible_pad no_cuda planned_engine ones_model image_10x10 kw_div4.

Definition get_ok (r : result tensor) : tensor :=
  match r with
  | Ok t => t
  | Raise _ => zeros []
  end.

(** The count the scenario of section 8 expects at pixel [(y, x)]. *)
Definition expected_count (y x : Z) : Z :=
  let band i := (4 <=? i) && (i <? 6) in
  if band y && band x then 4
  else if band y || band x then 2
  else 1.

(** [2^24] and [-2^24] in binary32. *)
Definition f32_2p24 : float32 := S754_finite false 8388608 1.
Definition f32_m2p24 : float32 := S754_finite true 8388608 1.

Definition px (v : float32) : tensor * window :=
  (const_tensor [1; 1; 1; 1] v, (0, 0, 1, 1)).

(** [2^25] in binary32. *)
Definition f32_2p25 : float32 := S754_finite false 8388608 2.

(** One prediction of [2^25] followed by [n] predictions of [+0], all on the
    single pixel of a 1 by 1 extent. *)
Definition pile (n : nat) : list (tensor * window) :=
  px f32_2p25 :: repeat (px F32.zero) n.

(** The predictions the scenario's loop hands to [merge]. *)
Definition outs_10x10 : list (tensor * window) :=
  match snd (run_windows spec_divisible_pad no_cuda planned_engine ones_model image_10x10
               (Some 4) wins_10x10 []) with
  | Ok outs => outs
  | Raise _ => []
  end.

(** ** The evaluation loop of run *)

(** One item of the data loader: [image, mask, filename = blob[0]]. *)
Record blob : Type := mkBlob {
  blob_image : tensor;
  blob_mask : option tensor;
  blob_filename : string
}.

(** The calls [run] makes on its collaborators once the loop has started,
    in order: [miou_op.forward(mask, out)],
    [ppe.submit(viz_op, out.numpy(), filename)], and the summary that follows
    the loop ([ppe.shutdown()], [miou_op.summary()] and the scalars written to
    the [SummaryWriter]).  A call is recorded when it is made, whether or not
    it raises. *)
Inductive event : Type :=
| MiouForward (mask out : tensor)
| VizSubmit (out : tensor) (filename : string)
| Summary.

Section Driver.

(** The imported planner and padding, what [Tensor.to] and [Module.to]
    raise in the environment, the transform pipeline [image_trans],
    [Tensor.argmax(dim=1)], [miou_op.forward], [out.numpy()] followed by
    [ppe.submit], and [args.patch_size]. *)
Variable sliding_window : Z * Z -> Z * Z -> Z -> result (list window).
Variable th_divisible_pad : pyarray -> Z -> result pyarray.
Variable device_error : torch_device -> option pyerr.
Variable image_trans : transform.
Variable argmax_dim1 : tensor -> result tensor.
Variable miou_forward : tensor -> tensor -> result unit.
Variable submit : tensor -> string -> result unit.
Variable patch_size : Z.

(** The body of the loop of [run] for one item: the helper after it, the
    calls it made and whether it raised. *)
Definition eval_image (model : model_fn) (segm_helper : engine) (b : blob)
    : engine * list event * result unit :=
  match firstn 2 (shape (blob_image b)) with
  | [h; w] =>
      match patch sliding_window segm_helper (h, w) (patch_size, patch_size) 512
              (Some image_trans) with
      | (seg_helper, Raise err) => (seg_helper, [], Raise err)
      | (seg_helper, Ok _) =>
          let r := forward th_divisible_pad device_error seg_helper model
                     (blob_image b) (mkKwargs None (Some 32)) in
          match returned r with
          | Raise err => (after r, [], Raise err)
          | Ok out =>
              match argmax_dim1 out with
              | Raise err => (after r, [], Raise err)
              | Ok out =>
                  match blob_mask b with
                  | None =>
                      (after r, [VizSubmit out (blob_filename b)],
                       submit out (blob_filename b))
                  | Some mask =>
                      match miou_forward mask out with
                      | Raise err => (after r, [MiouForward mask out], Raise err)
                      | Ok _ =>
                          (after r,
                           [MiouForward mask out; VizSubmit out (blob_filename b)],
                           submit out (blob_filename b))
                      end
                  end
              end
          end
      end
  | _ => (segm_helper, [], Raise ValueError)
  end.

(** One step of the loop: the data loader yields an item or raises. *)
Definition eval_item (model : model_fn) (segm_helper : engine) (item : result blob)
    : engine * list event * result unit :=
  match item with
  | Raise err => (segm_helper, [], Raise err)
  | Ok b => eval_image model segm_helper b
  end.

(** [for idx, blob in enumerate(DataLoader(...)): ...] *)
Fixpoint eval_images (model : model_fn) (segm_helper : engine)
    (items : list (result blob)) : engine * list event * result unit :=
  match items with
  | [] => (segm_helper, [], Ok tt)
  | item :: rest =>
      match eval_item model segm_helper item with
      | (e, ev, Raise err) => (e, ev, Raise err)
      | (e, ev, Ok _) =>
          let '(e', ev', r) := eval_images model e rest in
          (e', ev ++ ev', r)
      end
  end.

(** [run]: [build_and_load] is what [build_and_load_from_file] returns or
    raises; the model is moved to CUDA; the helper is built; [open_data] is
    what setting up the executor, the data set, the visualiser, the metric,
    the transform pipeline and the loader raises, or else the steps of the
    loader; after the loop comes the summary, which returns or raises
    [summary]. *)
Definition run_eval (cuda_is_available : bool) (build_and_load : result model_fn)
    (open_data : result (list (result blob))) (summary : result unit)
    : list event * result unit :=
  match build_and_load with
  | Raise err => ([], Raise err)
  | Ok model =>
      match device_error cuda with
      | Some err => ([], Raise err)
      | None =>
          let segm_helper := __init__ cuda_is_available in
          match open_data with
          | Raise err => ([], Raise err)
          | Ok items =>
              match eval_images model segm_helper items with
              | (_, ev, Raise err) => (ev, Raise err)
              | (_, ev, Ok _) => (ev ++ [Summary], summary)
              end
          end
      end
  end.

End Driver.

(** A machine with a usable GPU. *)
Definition with_cuda (dev : torch_device) : option pyerr := None.

(** Concrete collaborators for the loop: a stand-in for [argmax(dim=1)]
    on a model that scores every class alike, a metric and a submission that
    accept everything, and a loader yielding the 10 by 10 image once, with a
    mask. *)
Definition class_of_one (out : tensor) : result tensor :=
  match shape out with
  | [b; _; h; w] => Ok (const_tensor [b; h; w] F32.zero)
  | _ => Raise IndexError
  end.

Definition any_miou (mask out : tensor) : result unit := Ok tt.

Definition any_submit (out : tensor) (filename : string) : result unit := Ok tt.

Definition items_10x10 : list (result blob) :=
  [Ok (mkBlob image_10x10 (Some (const_tensor [10; 10] F32.zero)) "P0001.png")].

(** ** The network of module/farseg.py, at the level of tensor shapes

    The weights of the layers are not part of the sources; what [__init__]
    and [forward] of the three classes determine is which layers are built
    and how shapes flow through them.  A layer is the constructor call that
    builds it, and [layer_shape] is the shape rule of that torch module,
    with the exception torch raises on an input it refuses.  [training] is
    the mode of the module ([self.training], which [train()] and [eval()]
    set for a module and all its children). *)

Inductive layer : Type :=
| Conv2d (in_channels out_channels kernel_size stride padding : Z)
| BatchNorm2d (num_features : Z)
| GroupNorm (num_groups num_channels : Z)
| ReLU
| Sigmoid
| UpsamplingBilinear2d (scale_factor : Z)
| Identity.

(** Output length of a convolution along one axis (dilation 1). *)
Definition conv_out (n kernel_size stride padding : Z) : Z :=
  (n + 2 * padding - kernel_size) / stride + 1.

(** Batch normalisation in training mode and group normalisation in either
    mode want more than one value per channel; bilinear upsampling wants a
    map with channels and positive sizes. *)
Definition layer_shape (training : bool) (l : layer) (sh : list Z)
    : result (list Z) :=
  match l with
  | Conv2d cin cout k s p =>
      match sh with
      | [n; c; h; w] =>
          if negb (c =? cin) || (h + 2 * p <? k) || (w + 2 * p <? k)
          then Raise RuntimeError
          else Ok [n; cout; conv_out h k s p; conv_out w k s p]
      | [c; h; w] =>
          if negb (c =? cin) || (h + 2 * p <? k) || (w + 2 * p <? k)
          then Raise RuntimeError
          else Ok [cout; conv_out h k s p; conv_out w k s p]
      | _ => Raise RuntimeError
      end
  | BatchNorm2d f =>
      match sh with
      | [n; c; h; w] =>
          if training && (n * h * w =? 1) then Raise ValueError
          else if c =? f then Ok sh else Raise RuntimeError
      | _ => Raise ValueError
      end
  | GroupNorm g ch =>
      match sh with
      | n :: c :: rest =>
          if (n * c / g) * fold_right Z.mul 1 rest =? 1 then Raise ValueError
          else if c =? ch then Ok sh else Raise RuntimeError
      | _ => Raise RuntimeError
      end
  | ReLU => Ok sh
  | Sigmoid => Ok sh
  | Identity => Ok sh
  | UpsamplingBilinear2d k =>
      match sh with
      | [n; c; h; w] =>
          if (c <=? 0) || (h <=? 0) || (w <=? 0) || (k <=? 0)
          then Raise RuntimeError
          else Ok [n; c; h * k; w * k]
      | _ => Raise (External "NotImplementedError")
      end
  end.

(** An [nn.Sequential] of the layers, applied to an input. *)
Fixpoint apply_layers (training : bool) (ls : list layer) (sh : list Z)
    : result (list Z) :=
  match ls with
  | [] => Ok sh
  | l :: rest => sh' <- layer_shape training l sh ;; apply_layers training rest sh'
  end.

(** A [Sequential] of [Sequential]s. *)
Definition apply_block (training : bool) (b : list (list layer)) (sh : list Z)
    : result (list Z) :=
  apply_layers training (concat b) sh.

(** [range(n)] *)
Definition py_range (n : Z) : list Z := map Z.of_nat (seq 0 (Z.to_nat n)).

(** [int(math.log2(int(x)))] for an integer stride: [math.log2] raises
    [ValueError] on [x <= 0]; for a positive [x] below [2^32] the float
    logarithm truncates to the integer logarithm. *)
Definition int_log2 (x : Z) : result Z :=
  if x <=? 0 then Raise ValueError else Ok (Z.log2 x).

(** The [norm_fn] argument of [AssymetricDecoder]: [nn.BatchNorm2d],
    [nn.GroupNorm], [None], or any other value. *)
Inductive norm_fn_arg : Type :=
| norm_BatchNorm2d
| norm_GroupNorm
| norm_None
| norm_other.

(** [norm_fn_args]: the keyword arguments prepared for the norm layer. *)
Inductive norm_args : Type :=
| bn_args (num_features : Z)
| gn_args (num_groups num_channels : Z).

(** [norm_fn] called with [norm_fn_args], or [nn.Identity()] when [norm_fn]
    is [None]; [nn.GroupNorm] refuses a channel count its groups do not
    divide. *)
Definition make_norm (norm_fn : norm_fn_arg) (args : norm_args) : result layer :=
  match norm_fn with
  | norm_None => Ok Identity
  | _ =>
      match args with
      | bn_args f => Ok (BatchNorm2d f)
      | gn_args g c =>
          if g =? 0 then Raise (External "ZeroDivisionError")
          else if c mod g =? 0 then Ok (GroupNorm g c)
          else Raise ValueError
      end
  end.

(** The inner [nn.Sequential] of one decoder layer. *)
Definition decoder_layer (in_channels out_channels : Z) (norm_fn : norm_fn_arg)
    (args : norm_args) (num_upsample idx : Z) : result (list layer) :=
  norm <- make_norm norm_fn args ;;
  Ok [Conv2d (if idx =? 0 then in_channels else out_channels) out_channels 3 1 1;
      norm;
      ReLU;
      if num_upsample =? 0 then Identity else UpsamplingBilinear2d 2].

Fixpoint collect {A B : Type} (f : A -> result B) (l : list A) : result (list B) :=
  match l with
  | [] => Ok []
  | a :: rest => b <- f a ;; bs <- collect f rest ;; Ok (b :: bs)
  end.

(** The body of the loop over [in_feat_output_strides]: one block. *)
Definition decoder_block (in_channels out_channels : Z) (norm_fn : norm_fn_arg)
    (args : norm_args) (out_feat_output_stride in_feat_os : Z)
    : result (list (list layer)) :=
  a <- int_log2 in_feat_os ;;
  b <- int_log2 out_feat_output_stride ;;
  let num_upsample := a - b in
  let num_layers := if num_upsample =? 0 then 1 else num_upsample in
  collect (decoder_layer in_channels out_channels norm_fn args num_upsample)
    (py_range num_layers).

(** [AssymetricDecoder.__init__]: the blocks it builds, or the exception. *)
Definition AssymetricDecoder_init (in_channels out_channels : Z)
    (in_feat_output_strides : list Z) (out_feat_output_stride : Z)
    (norm_fn : norm_fn_arg) (num_groups_gn : option Z)
    : result (list (list (list layer))) :=
  args <- match norm_fn with
          | norm_BatchNorm2d => Ok (bn_args out_channels)
          | norm_GroupNorm =>
              match num_groups_gn with
              | None => Raise ValueError
              | Some g => Ok (gn_args g out_channels)
              end
          | _ => Raise ValueError
          end ;;
  collect (decoder_block in_channels out_channels norm_fn args out_feat_output_stride)
    in_feat_output_strides.

(** The shape two tensors broadcast to, on reversed shapes. *)
Fixpoint broadcast_rev (ra rb : list Z) : result (list Z) :=
  match ra, rb with
  | [], _ => Ok rb
  | _, [] => Ok ra
  | a :: ra', b :: rb' =>
      rest <- broadcast_rev ra' rb' ;;
      if a =? b then Ok (a :: rest)
      else if a =? 1 then Ok (b :: rest)
      else if b =? 1 then Ok (a :: rest)
      else Raise RuntimeError
  end.

Definition broadcast_shapes (a b : list Z) : result (list Z) :=
  r <- broadcast_rev (rev a) (rev b) ;; Ok (rev r).

(** A Python number or a tensor of some shape. *)
Inductive pyvalue : Type :=
| PyNumber
| TensorOf (sh : list Z).

(** [acc + t] in [sum(inner_feat_list)], which starts from the number 0. *)
Definition add_value (acc : pyvalue) (t : list Z) : result pyvalue :=
  match acc with
  | PyNumber => Ok (TensorOf t)
  | TensorOf sa => s <- broadcast_shapes sa t ;; Ok (TensorOf s)
  end.

Fixpoint py_sum (acc : pyvalue) (ts : list (list Z)) : result pyvalue :=
  match ts with
  | [] => Ok acc
  | t :: rest => acc' <- add_value acc t ;; py_sum acc' rest
  end.

(** The loop of [AssymetricDecoder.forward], from block [idx] on. *)
Fixpoint decoder_inner (training : bool) (blocks : list (list (list layer)))
    (feat_list : list (list Z)) (idx : nat) : result (list (list Z)) :=
  match blocks with
  | [] => Ok []
  | block :: rest =>
      feat <- match nth_error feat_list idx with
              | Some f => Ok f
              | None => Raise IndexError
              end ;;
      decoder_feat <- apply_block training block feat ;;
      inner <- decoder_inner training rest feat_list (S idx) ;;
      Ok (decoder_feat :: inner)
  end.

(** [AssymetricDecoder.forward]: [sum(inner_feat_list) / 4.] *)
Definition AssymetricDecoder_forward (training : bool)
    (blocks : list (list (list layer))) (feat_list : list (list Z))
    : result pyvalue :=
  inner_feat_list <- decoder_inner training blocks feat_list 0 ;;
  py_sum PyNumber inner_feat_list.

(** The norm layers the constructor can end up with. *)
Definition decoder_norm (out_channels : Z) (nl : layer) : Prop :=
  nl = BatchNorm2d out_channels \/
  exists g, nl = GroupNorm g out_channels /\ g <> 0 /\ out_channels mod g = 0.

(** A sufficient condition for a norm layer to find more than one value
    per channel in a batch of [n] maps: batch normalisation in evaluation
    mode does not look, and a batch of two or more always has them. *)
Definition norm_accepts (training : bool) (nl : layer) (n : Z) : Prop :=
  (training = false /\ exists f, nl = BatchNorm2d f) \/ 1 < n.

(** *** SceneRelation *)

(** [self.scene_encoder]: a [ModuleList] with one encoder per level, or one
    [Sequential] shared by all levels. *)
Inductive scene_encoder_t : Type :=
| PerScale (ops : list (list layer))
| Shared (op : list layer).

Record SceneRelation : Type := mkSceneRelation {
  scale_aware_proj : bool;
  scene_encoder : scene_encoder_t;
  content_encoders : list (list layer);
  feature_reencoders : list (list layer)
}.

(** [SceneRelation.__init__] *)
Definition SceneRelation_init (in_channels : Z) (channel_list : list Z)
    (out_channels : Z) (scale_aware_proj : bool) : SceneRelation :=
  let mlp := [Conv2d in_channels out_channels 1 1 0; ReLU;
              Conv2d out_channels out_channels 1 1 0] in
  let encoder c := [Conv2d c out_channels 1 1 0; BatchNorm2d out_channels; ReLU] in
  mkSceneRelation scale_aware_proj
    (if scale_aware_proj then PerScale (map (fun _ => mlp) channel_list)
     else Shared mlp)
    (map encoder channel_list)
    (map encoder channel_list).

(** [t.sum(dim=1, keepdim=True)] *)
Definition sum_dim1_keepdim (sh : list Z) : result (list Z) :=
  match sh with
  | n :: _ :: rest => Ok (n :: 1 :: rest)
  | _ => Raise IndexError
  end.

(** [self.normalizer((sf * cf).sum(dim=1, keepdim=True))] *)
Definition relation (training : bool) (sf cf : list Z) : result (list Z) :=
  m <- broadcast_shapes sf cf ;;
  s <- sum_dim1_keepdim m ;;
  layer_shape training Sigmoid s.

(** [[op(f) for op, f in zip(ops, features)]] *)
Definition zip_apply (training : bool) (ops : list (list layer))
    (features : list (list Z)) : result (list (list Z)) :=
  collect (fun p => apply_layers training (fst p) (snd p)) (combine ops features).

(** [SceneRelation.forward] *)
Definition SceneRelation_forward (training : bool) (self : SceneRelation)
    (scene_feature : list Z) (features : list (list Z))
    : result (list (list Z)) :=
  content_feats <- zip_apply training (content_encoders self) features ;;
  relations <-
    (if scale_aware_proj self
     then
       scene_feats <-
         match scene_encoder self with
         | PerScale ops =>
             collect (fun op => apply_layers training op scene_feature) ops
         | Shared op => collect (fun l => layer_shape training l scene_feature) op
         end ;;
       collect (fun sc => relation training (fst sc) (snd sc))
         (combine scene_feats content_feats)
     else
       scene_feat <-
         match scene_encoder self with
         | Shared op => apply_layers training op scene_feature
         | PerScale _ => Raise (External "NotImplementedError")
         end ;;
       collect (relation training scene_feat) content_feats) ;;
  p_feats <- zip_apply training (feature_reencoders self) features ;;
  collect (fun rp => broadcast_shapes (fst rp) (snd rp)) (combine relations p_feats).

(** *** FarSeg *)

(** The entries of [self.config] that [FarSeg] reads: the arguments of the
    decoder, the class count, the arguments of the scene relation when the
    key is present, whether [softmax_focalloss] is present, and the
    [annealing_type] of [annealing_softmax_focalloss] when that key is
    present. *)
Record farseg_config : Type := mkFarSegConfig {
  decoder_in_channels : Z;
  decoder_out_channels : Z;
  in_feat_output_strides : list Z;
  out_feat_output_stride : Z;
  decoder_norm_fn : norm_fn_arg;
  num_groups_gn : option Z;
  num_classes : Z;
  scene_relation : option (Z * list Z * Z * bool);
  softmax_focalloss : bool;
  annealing_softmax_focalloss : option string
}.

Record FarSeg : Type := mkFarSeg {
  config : farseg_config;
  decoder : list (list (list layer));
  sr : option SceneRelation;
  cls_pred_conv : layer;
  upsample4x_op : layer;
  training : bool;
  buffer_step : float32
}.

(** [FarSeg.__init__] on the merged configuration (the encoder and the FPN
    are built by simplecv).  A new module is in training mode. *)
Definition FarSeg_init (cfg : farseg_config) : result FarSeg :=
  blocks <- AssymetricDecoder_init (decoder_in_channels cfg) (decoder_out_channels cfg)
              (in_feat_output_strides cfg) (out_feat_output_stride cfg)
              (decoder_norm_fn cfg) (num_groups_gn cfg) ;;
  Ok (mkFarSeg cfg blocks
        (match scene_relation cfg with
         | Some (cin, channel_list, cout, sap) =>
             Some (SceneRelation_init cin channel_list cout sap)
         | None => None
         end)
        (Conv2d (decoder_out_channels cfg) (num_classes cfg) 1 1 0)
        (UpsamplingBilinear2d 4)
        true F32.zero).

(** [model.train()] and [model.eval()] *)
Definition set_training (self : FarSeg) (mode : bool) : FarSeg :=
  mkFarSeg (config self) (decoder self) (sr self) (cls_pred_conv self)
    (upsample4x_op self) mode (buffer_step self).

(** [self.buffer_step += 1] *)
Definition step_buffer (self : FarSeg) : FarSeg :=
  mkFarSeg (config self) (decoder self) (sr self) (cls_pred_conv self)
    (upsample4x_op self) (training self) (F32.add (buffer_step self) F32.one).

(** The loss [cls_loss] ends up calling, with the step it passes on. *)
Inductive loss_call : Type :=
| call_softmax_focalloss
| call_annealing_softmax_focalloss (step : float32) (annealing_type : string)
| call_cross_entropy.

(** What [forward] returns: the class probabilities (their shape) or the
    dictionary of losses. *)
Inductive forward_out : Type :=
| Prediction (sh : list Z)
| LossDict.

Section FarSegForward.

(** The encoder, the FPN and the global average pooling of simplecv, each
    in the mode of the module, the loss functions of module/loss.py, and
    [torch.cuda.max_memory_allocated()]. *)
Variable en : bool -> list Z -> result (list (list Z)).
Variable fpn : bool -> list (list Z) -> result (list (list Z)).
Variable gap : bool -> list Z -> result (list Z).
Variable loss_fn : loss_call -> list Z -> list Z -> result unit.
Variable max_memory_allocated : result Z.

(** [FarSeg.cls_loss] *)
Definition cls_loss (self : FarSeg) (y_pred y_true : list Z) : result unit :=
  if softmax_focalloss (config self)
  then loss_fn call_softmax_focalloss y_pred y_true
  else
    match annealing_softmax_focalloss (config self) with
    | Some annealing_type =>
        if ((annealing_type =? "cosine") || (annealing_type =? "poly")
            || (annealing_type =? "linear"))%string
        then loss_fn (call_annealing_softmax_focalloss (buffer_step self)
                        annealing_type) y_pred y_true
        else Raise (External "KeyError")
    | None => loss_fn call_cross_entropy y_pred y_true
    end.

(** [FarSeg.forward] up to [cls_pred = self.upsample4x_op(cls_pred)];
    [self.gap] and [self.sr] exist when the constructor saw the key
    [scene_relation]. *)
Definition FarSeg_logits (self : FarSeg) (x : list Z) : result (list Z) :=
  feat_list <- en (training self) x ;;
  fpn_feat_list <- fpn (training self) feat_list ;;
  refined_fpn_feat_list <-
    match scene_relation (config self) with
    | Some _ =>
        c5 <- match rev feat_list with
              | c :: _ => Ok c
              | [] => Raise IndexError
              end ;;
        match sr self with
        | Some s =>
            c6 <- gap (training self) c5 ;;
            SceneRelation_forward (training self) s c6 fpn_feat_list
        | None => Raise AttributeError
        end
    | None => Ok fpn_feat_list
    end ;;
  final_feat <- AssymetricDecoder_forward (training self) (decoder self)
                  refined_fpn_feat_list ;;
  match final_feat with
  | PyNumber => Raise TypeError
  | TensorOf f =>
      cls_pred <- layer_shape (training self) (cls_pred_conv self) f ;;
      layer_shape (training self) (upsample4x_op self) cls_pred
  end.

(** [FarSeg.forward]; [y] is [None], a dictionary without the key ['cls'],
    or one holding the label map. *)
Definition FarSeg_forward (self : FarSeg) (x : list Z) (y : option (option (list Z)))
    : FarSeg * result forward_out :=
  match FarSeg_logits self x with
  | Raise err => (self, Raise err)
  | Ok cls_pred =>
      if training self
      then
        match y with
        | None => (self, Raise TypeError)
        | Some None => (self, Raise (External "KeyError"))
        | Some (Some cls_true) =>
            let self := step_buffer self in
            match cls_loss self cls_pred cls_true with
            | Raise err => (self, Raise err)
            | Ok _ =>
                match max_memory_allocated with
                | Raise err => (self, Raise err)
                | Ok _ => (self, Ok LossDict)
                end
            end
        end
      else
        match cls_pred with
        | _ :: _ :: _ => (self, Ok (Prediction cls_pred))
        | _ => (self, Raise IndexError)
        end
  end.

(** A sequence of calls, each preceded by [model.train(mode)]. *)
Fixpoint FarSeg_calls (self : FarSeg)
    (calls : list (bool * list Z * option (option (list Z)))) : FarSeg :=
  match calls with
  | [] => self
  | (mode, x, y) :: rest =>
      FarSeg_calls (fst (FarSeg_forward (set_training self mode) x y)) rest
  end.

(** The call is a training step that reaches [self.buffer_step += 1]. *)
Definition is_step (self : FarSeg) (call : bool * list Z * option (option (list Z)))
    : bool :=
  let '(mode, x, y) := call in
  mode &&
  match FarSeg_logits (set_training self mode) x, y with
  | Ok _, Some (Some _) => true
  | _, _ => false
  end.

End FarSegForward.

(** A pyramid level: channels, height and width. *)
Definition level_shape (n : Z) (lv : Z * Z * Z) : list Z :=
  let '(c, h, w) := lv in [n; c; h; w].

(** The same level with [out_channels] channels. *)
Definition level_out (n out_channels : Z) (lv : Z * Z * Z) : list Z :=
  let '(_, h, w) := lv in [n; out_channels; h; w].

(** The level has positive height and width. *)
Definition level_pos (lv : Z * Z * Z) : Prop :=
  let '(_, h, w) := lv in 0 < h /\ 0 < w.

(** A feature map of stride [s] that lines up with [(Hc, Wc)] at the output
    stride [out_os]. *)
Definition lines_up (n c out_os Hc Wc s : Z) (f : list Z) : Prop :=
  Z.log2 out_os <= Z.log2 s /\
  exists h w,
    f = [n; c; h; w] /\ 0 < h /\ 0 < w /\
    h * 2 ^ (Z.log2 s - Z.log2 out_os) = Hc /\
    w * 2 ^ (Z.log2 s - Z.log2 out_os) = Wc.

(** The strides for which [int_log2] is the logarithm the code computes. *)
Definition strides_in_range (strides : list Z) : Prop :=
  Forall (fun s => s < 2 ^ 32) strides.

(** What evaluating a constructed model asks of its configuration and of
    the feature maps the encoder and the FPN hand on: the levels line up at
    [(Hc, Wc)], and with the scene relation the channel list has one entry
    per stride, its output channels are the decoder's input channels and
    the pooled last encoder level is [(n, in_channels, 1, 1)]. *)
Definition pyramid_fits (gap : bool -> list Z -> result (list Z)) (mode : bool)
    (cfg : farseg_config) (n Hc Wc : Z) (feat_list fpn_feat_list : list (list Z))
    : Prop :=
  match scene_relation cfg with
  | None =>
      Forall2 (lines_up n (decoder_in_channels cfg) (out_feat_output_stride cfg) Hc Wc)
        (in_feat_output_strides cfg) fpn_feat_list
  | Some (cin, channel_list, cout, sap) =>
      cout = decoder_in_channels cfg /\
      length channel_list = length (in_feat_output_strides cfg) /\
      (exists c5 rest, rev feat_list = c5 :: rest /\ gap mode c5 = Ok [n; cin; 1; 1]) /\
      Forall2 (fun cs f =>
                 lines_up n (fst cs) (out_feat_output_stride cfg) Hc Wc (snd cs) f)
        (combine channel_list (in_feat_output_strides cfg)) fpn_feat_list
  end.

Definition get_ok_blocks (r : result (list (list (list layer))))
    : list (list (list layer)) :=
  match r with
  | Ok b => b
  | Raise _ => []
  end.

(** *** Concrete network inputs *)

(** The configuration of configs/isaid/farseg50.py, as [FarSeg] reads it. *)
Definition farseg50 : farseg_config :=
  mkFarSegConfig 256 128 [4; 8; 16; 32] 4 norm_BatchNorm2d None 16
    (Some (2048, [256; 256; 256; 256], 256, true)) false (Some "cosine"%string).

(** A ResNet-50 encoder's output shapes on an input whose sides are
    multiples of 32, an FPN with 256 output channels, and global average
    pooling. *)
Definition resnet50_shapes (training : bool) (x : list Z) : result (list (list Z)) :=
  match x with
  | [n; _; h; w] =>
      Ok [[n; 256; h / 4; w / 4]; [n; 512; h / 8; w / 8];
          [n; 1024; h / 16; w / 16]; [n; 2048; h / 32; w / 32]]
  | _ => Raise RuntimeError
  end.

Definition fpn256_shapes (training : bool) (feats : list (list Z))
    : result (list (list Z)) :=
  Ok (map (fun f => match f with
                    | [n; _; h; w] => [n; 256; h; w]
                    | _ => f
                    end) feats).

Definition gap_shapes (training : bool) (x : list Z) : result (list Z) :=
  match x with
  | [n; c; _; _] => Ok [n; c; 1; 1]
  | _ => Raise RuntimeError
  end.

Definition any_loss (c : loss_call) (y_pred y_true : list Z) : result unit := Ok tt.

Definition get_ok_farseg (r : result FarSeg) : FarSeg :=
  match r with
  | Ok m => m
  | Raise _ => mkFarSeg farseg50 [] None Identity Identity true F32.zero
  end.

Definition farseg50_model : FarSeg := get_ok_farseg (FarSeg_init farseg50).


(** * Properties *)

(** ** binary32 *)

Lemma Pos_iter_shl p d : Pos.iter xO p d = shl p (Pos.to_nat d).
Proof. unfold shl. rewrite Pos2Nat.inj_iter. reflexivity. Qed.

Lemma iter_pos_nat {A} (f : A -> A) n x :
  iter_pos f n x = Nat.iter (Pos.to_nat n) f x.
Proof.
  revert x; induction n as [n IH|n IH|]; intros x; cbn [iter_pos].
  - rewrite !IH, Pos2Nat.inj_xI.
    replace (S (2 * Pos.to_nat n))%nat
      with (Pos.to_nat n + (Pos.to_nat n + 1))%nat by lia.
    rewrite !Nat.iter_add. reflexivity.
  - rewrite !IH, Pos2Nat.inj_xO.
    replace (2 * Pos.to_nat n)%nat with (Pos.to_nat n + Pos.to_nat n)%nat by lia.
    rewrite Nat.iter_add. reflexivity.
  - reflexivity.
Qed.

Lemma digits_shl p k :
  Zpos (digits2_pos (shl p k)) = Zpos (digits2_pos p) + Z.of_nat k.
Proof.
  induction k as [|k IH].
  - simpl. lia.
  - change (shl p (S k)) with (xO (shl p k)). simpl digits2_pos. lia.
Qed.

Lemma shr_shl q k :
  Nat.iter k shr_1 (Build_shr_record (Zpos (shl q k)) false false)
  = Build_shr_record (Zpos q) false false.
Proof.
  induction k as [|k IH].
  - reflexivity.
  - rewrite Nat.iter_succ_r. change (shl q (S k)) with (xO (shl q k)).
    simpl shr_1. exact IH.
Qed.

Lemma shl_val p k : Zpos (shl p k) = Zpos p * 2 ^ Z.of_nat k.
Proof.
  induction k as [|k IH].
  - simpl. lia.
  - change (shl p (S k)) with (xO (shl p k)). rewrite Pos2Z.inj_xO, IH.
    rewrite Nat2Z.inj_succ, Z.pow_succ_r by lia. lia.
Qed.

Lemma shl_add p j k : shl (shl p j) k = shl p (k + j).
Proof. unfold shl. rewrite Nat.iter_add. reflexivity. Qed.

Lemma shl_align_ge mx ex ex' : ex <= ex' -> shl_align mx ex ex' = (mx, ex).
Proof.
  intros H. unfold shl_align. destruct (ex' - ex) eqn:E; try reflexivity. lia.
Qed.

Lemma shl_align_lt mx ex ex' j :
  ex - ex' = Z.of_nat j -> shl_align mx ex ex' = (shl mx j, ex').
Proof.
  intros H. unfold shl_align. destruct (ex' - ex) as [|p|p] eqn:E; try lia.
  - assert (j = 0%nat) by lia. subst j. simpl. f_equal. lia.
  - rewrite Pos_iter_shl. do 2 f_equal. lia.
Qed.

(** Rounding a 24-digit mantissa followed by [k] zero bits is exact. *)
Lemma round_aux_shift q k e :
  Zpos (digits2_pos q) = 24 -> -149 <= e + Z.of_nat k <= 104 ->
  binary_round_aux 24 128 false (Zpos (shl q k)) e loc_Exact
  = S754_finite false q (e + Z.of_nat k).
Proof.
  intros Hd He.
  unfold binary_round_aux, shr_fexp, fexp, emin, Zdigits2.
  rewrite digits_shl, Hd.
  replace (Z.max (24 + Z.of_nat k + e - 24) (3 - 128 - 24) - e)
    with (Z.of_nat k) by lia.
  unfold shr_record_of_loc.
  assert (Hs : shr (Build_shr_record (Zpos (shl q k)) false false) e (Z.of_nat k)
               = (Build_shr_record (Zpos q) false false, e + Z.of_nat k)).
  { destruct (Z.of_nat k) as [|p|p] eqn:Hk; try lia.
    - assert (k = 0%nat) by lia. subst k. simpl. f_equal. lia.
    - unfold shr. rewrite iter_pos_nat.
      replace (Pos.to_nat p) with k by lia. rewrite shr_shl. reflexivity. }
  rewrite Hs. cbn [shr_m loc_of_shr_record round_nearest_even Zdigits2]. rewrite Hd.
  replace (Z.max (24 + (e + Z.of_nat k) - 24) (3 - 128 - 24) - (e + Z.of_nat k))
    with 0 by lia.
  cbn [shr shr_m shr_record_of_loc].
  replace (e + Z.of_nat k <=? 128 - 24) with true by (symmetry; apply Z.leb_le; lia).
  reflexivity.
Qed.

Lemma round_shift q k e :
  Zpos (digits2_pos q) = 24 -> -149 <= e + Z.of_nat k <= 104 ->
  binary_round 24 128 false (shl q k) e = S754_finite false q (e + Z.of_nat k).
Proof.
  intros Hd He.
  unfold binary_round.
  rewrite shl_align_ge by (unfold fexp, emin; rewrite digits_shl; lia).
  apply round_aux_shift; assumption.
Qed.

(** Rounding a mantissa of fewer than 24 digits pads it with zero bits. *)
Lemma round_fill n j e :
  Zpos (digits2_pos n) + Z.of_nat j = 24 -> -149 <= e - Z.of_nat j <= 104 ->
  binary_round 24 128 false n e = S754_finite false (shl n j) (e - Z.of_nat j).
Proof.
  intros Hd He.
  assert (Hq : Zpos (digits2_pos (shl n j)) = 24) by (rewrite digits_shl; lia).
  unfold binary_round.
  rewrite (shl_align_lt _ _ _ j) by (unfold fexp, emin; lia).
  replace (fexp 24 128 (Zpos (digits2_pos n) + e)) with (e - Z.of_nat j)
    by (unfold fexp, emin; lia).
  change (shl n j) with (shl (shl n j) 0) at 1.
  rewrite round_aux_shift by (assumption || (simpl; lia)).
  f_equal. simpl; lia.
Qed.

Lemma digits_size p : digits2_pos p = Pos.size p.
Proof. induction p; simpl; congruence. Qed.

Lemma digits_bound p : Zpos p < 2 ^ 24 -> Zpos (digits2_pos p) <= 24.
Proof.
  intros H. rewrite digits_size.
  pose proof (Pos.size_le p) as Hle.
  apply Pos2Z.pos_le_pos in Hle. rewrite Pos2Z.inj_pow in Hle.
  rewrite (Pos2Z.inj_xO p) in Hle.
  destruct (Z_le_gt_dec (Zpos (Pos.size p)) 24) as [|Hgt]; [assumption|exfalso].
  assert (2 ^ 25 <= 2 ^ Zpos (Pos.size p)) by (apply Z.pow_le_mono_r; lia).
  change (2 ^ 25) with 33554432 in *. change (2 ^ 24) with 16777216 in *. lia.
Qed.

Lemma of_Z_canon n : Zpos n < 2 ^ 24 -> F32.of_Z (Zpos n) = canon n.
Proof.
  intros H. apply digits_bound in H.
  unfold F32.of_Z, F32.prec, F32.emax, binary_normalize, canon, ndigits.
  rewrite (round_fill n (24 - Pos.to_nat (digits2_pos n)) 0) by lia.
  f_equal. lia.
Qed.

(** [of_Z n] denotes [n]: its mantissa times two to its exponent is [n]. *)
Lemma of_Z_exact n :
  Zpos n < 2 ^ 24 ->
  exists m e, F32.of_Z (Zpos n) = S754_finite false m e /\ e <= 0 /\
              Zpos m = Zpos n * 2 ^ (- e).
Proof.
  intros H. rewrite of_Z_canon by assumption. apply digits_bound in H.
  unfold canon. eexists _, _. split; [reflexivity|]. unfold ndigits in *.
  split; [lia|]. rewrite shl_val. do 2 f_equal. lia.
Qed.

Lemma add_one_canon n :
  Zpos n < 2 ^ 24 -> F32.add (canon n) F32.one = F32.of_Z (Zpos n + 1).
Proof.
  intros H. pose proof (digits_bound n H) as Hd.
  unfold canon, F32.one, F32.add, F32.prec, F32.emax, SFadd.
  set (d := ndigits n).
  assert (Hd1 : (1 <= d <= 24)%nat) by (unfold d, ndigits; lia).
  replace (Z.min (Z.of_nat d - 24) (-23)) with (-23) by lia.
  rewrite (shl_align_lt _ _ _ (d - 1)) by lia.
  rewrite shl_align_ge by lia.
  cbn [fst cond_Zopp]. rewrite shl_add.
  replace (d - 1 + (24 - d))%nat with 23%nat by lia.
  replace (Zpos (shl n 23) + 8388608) with (Zpos (shl (n + 1) 23))
    by (rewrite !shl_val; change (2 ^ Z.of_nat 23) with 8388608; lia).
  cbn [binary_normalize].
  destruct (Z.eq_dec (Zpos n + 1) (2 ^ 24)) as [He|Hne].
  - assert (n = 16777215%positive) by (change (2 ^ 24) with 16777216 in He; lia).
    subst n. vm_compute. reflexivity.
  - assert (Hlt : Zpos (n + 1) < 2 ^ 24) by lia.
    pose proof (digits_bound _ Hlt) as Hd'.
    replace (Zpos n + 1) with (Zpos (n + 1)) by lia.
    rewrite of_Z_canon by assumption. unfold canon.
    set (d' := ndigits (n + 1)).
    assert (Hd1' : (1 <= d' <= 24)%nat) by (unfold d', ndigits; lia).
    replace (shl (n + 1) 23) with (shl (shl (n + 1) (24 - d')) (d' - 1))
      by (rewrite shl_add; f_equal; lia).
    rewrite round_shift.
    + f_equal. lia.
    + rewrite digits_shl. unfold d', ndigits. lia.
    + lia.
Qed.

(** Counting up by one is exact up to [2^24]. *)
Lemma add_one_of_Z n :
  0 <= n < 2 ^ 24 -> F32.add (F32.of_Z n) F32.one = F32.of_Z (n + 1).
Proof.
  intros H. destruct n as [|p|p]; try lia.
  - reflexivity.
  - rewrite of_Z_canon by lia. apply add_one_canon. lia.
Qed.

Lemma count_up_snoc k v : count_up (S k) v = F32.add (count_up k v) F32.one.
Proof.
  revert v. induction k as [|k IH]; intros v; [reflexivity|].
  change (count_up (S (S k)) v) with (count_up (S k) (F32.add v F32.one)).
  rewrite IH. reflexivity.
Qed.

Lemma count_up_exact k :
  Z.of_nat k <= 2 ^ 24 -> count_up k F32.zero = F32.of_Z (Z.of_nat k).
Proof.
  induction k as [|k IH]; intros H; [reflexivity|].
  rewrite count_up_snoc, IH by lia.
  rewrite add_one_of_Z by lia. f_equal. lia.
Qed.

(** Addition commutes. *)
Lemma f32_add_comm a b : F32.add a b = F32.add b a.
Proof.
  unfold F32.add, SFadd.
  destruct a as [sa|sa| |sa ma ea], b as [sb|sb| |sb mb eb];
    try reflexivity; try (destruct sa, sb; reflexivity).
  rewrite (Z.min_comm ea eb). f_equal. apply Z.add_comm.
Qed.

(** Two values accumulated onto [+0] in either order give the same sum. *)
Lemma f32_sum_swap a b : F32.sum [a; b] = F32.sum [b; a].
Proof.
  unfold F32.sum. cbn [fold_left].
  destruct a as [sa|sa| |sa ma ea], b as [sb|sb| |sb mb eb];
    try reflexivity; try (destruct sa, sb; reflexivity);
    try (destruct sa; reflexivity); try (destruct sb; reflexivity).
  change (F32.add F32.zero (S754_finite sa ma ea)) with (S754_finite sa ma ea).
  change (F32.add F32.zero (S754_finite sb mb eb)) with (S754_finite sb mb eb).
  apply f32_add_comm.
Qed.

(** ** The accumulation loop, pixel by pixel *)

Section Accumulate.

Variables B C h w : Z.

Lemma img_iadd_fits img p win :
  img_iadd B C h w img p win
  = if fits B C h w (p, win)
    then Ok (mkTensor (shape img)
               (fun idx =>
                  match idx with
                  | [b; c; y; x] =>
                      if covers h w win y x
                      then F32.add (data img idx) (contribution h w p win b c y x)
                      else data img idx
                  | _ => data img idx
                  end))
    else Raise RuntimeError.
Proof. destruct win as [[[x1 y1] x2] y2]. reflexivity. Qed.

Lemma covering_cons pw l y x :
  covering h w y x (pw :: l)
  = if covers h w (snd pw) y x then pw :: covering h w y x l
    else covering h w y x l.
Proof. reflexivity. Qed.

Lemma contributions_cons pw l b c y x :
  contributions h w b c y x (pw :: l)
  = if covers h w (snd pw) y x
    then contribution h w (fst pw) (snd pw) b c y x :: contributions h w b c y x l
    else contributions h w b c y x l.
Proof.
  unfold contributions. rewrite covering_cons.
  destruct (covers h w (snd pw) y x); reflexivity.
Qed.

Lemma length_contributions l b c y x :
  length (contributions h w b c y x l) = length (covering h w y x l).
Proof. unfold contributions. apply length_map. Qed.

(** The loop raises exactly when some prediction does not fit its slice. *)
Lemma accumulate_fits l st :
  accumulate B C h w l st
  = if forallb (fits B C h w) l
    then accumulate B C h w l st
    else Raise RuntimeError.
Proof.
  revert st. induction l as [|[p win] l IH]; intros st; [reflexivity|].
  cbn [accumulate forallb]. rewrite img_iadd_fits.
  destruct (fits B C h w (p, win)); cbn [bind andb]; [|reflexivity].
  apply IH.
Qed.

Lemma accumulate_total l st :
  forallb (fits B C h w) l = true -> exists st', accumulate B C h w l st = Ok st'.
Proof.
  revert st. induction l as [|[p win] l IH]; intros st Hf.
  - eexists; reflexivity.
  - cbn [forallb] in Hf. apply andb_prop in Hf as [Hp Hl].
    cbn [accumulate]. rewrite img_iadd_fits, Hp. cbn [bind]. apply IH, Hl.
Qed.

(** What the loop leaves in the two buffers. *)
Lemma accumulate_inv l st st' :
  accumulate B C h w l st = Ok st' ->
  forallb (fits B C h w) l = true /\
  shape (fst st') = shape (fst st) /\
  shape (snd st') = shape (snd st) /\
  (forall b c y x,
      data (fst st') [b; c; y; x]
      = fold_left F32.add (contributions h w b c y x l) (data (fst st) [b; c; y; x])) /\
  (forall y x,
      data (snd st') [y; x]
      = count_up (length (covering h w y x l)) (data (snd st) [y; x])).
Proof.
  revert st. induction l as [|[p win] l IH]; intros st H.
  - cbn in H. injection H as <-. repeat split; reflexivity.
  - cbn [accumulate] in H. rewrite img_iadd_fits in H.
    cbn [forallb].
    destruct (fits B C h w (p, win)); cbn [bind] in H; [|discriminate].
    apply IH in H as (Hf & Hs1 & Hs2 & Hd1 & Hd2). cbn [fst snd] in *.
    repeat split; try assumption.
    + intros b c y x. rewrite Hd1, contributions_cons. cbn [data fst snd].
      destruct (covers h w win y x); reflexivity.
    + intros y x. rewrite Hd2, covering_cons. cbn [data fst snd count_iadd].
      destruct (covers h w win y x); reflexivity.
Qed.

End Accumulate.

(** [merge] on a non-empty list whose first prediction has at least two
    axes. *)
Lemma merge_cons self h w p win rest B C sh :
  _h self = Some h -> _w self = Some w -> shape p = B :: C :: sh ->
  merge self ((p, win) :: rest)
  = (st <- accumulate B C h w ((p, win) :: rest) (zeros [B; C; h; w], zeros [h; w]) ;;
     Ok (tdiv (fst st) (snd st))).
Proof. intros Hh Hw Hs. unfold merge. rewrite Hs, Hh, Hw. reflexivity. Qed.

(** A successful [merge], element by element: the shape comes from the first
    prediction and the stored height and width, and each element is the
    left-to-right sum of the covering predictions divided by the count. *)
Lemma merge_inv self h w l r :
  _h self = Some h -> _w self = Some w -> merge self l = Ok r ->
  exists p win rest B C sh,
    l = (p, win) :: rest /\ shape p = B :: C :: sh /\
    forallb (fits B C h w) l = true /\
    shape r = [B; C; h; w] /\
    forall b c y x,
      data r [b; c; y; x]
      = F32.div (F32.sum (contributions h w b c y x l))
          (count_up (length (covering h w y x l)) F32.zero).
Proof.
  intros Hh Hw H. destruct l as [|[p win] rest]; [discriminate|].
  unfold merge in H. destruct (shape p) as [|B [|C sh]] eqn:Hs; try discriminate.
  rewrite Hh, Hw in H.
  destruct (accumulate B C h w ((p, win) :: rest) (zeros [B; C; h; w], zeros [h; w]))
    as [st|err] eqn:Hacc; [|discriminate].
  cbn [bind] in H. injection H as <-.
  apply accumulate_inv in Hacc as (Hf & Hs1 & _ & Hd1 & Hd2).
  exists p, win, rest, B, C, sh. repeat split; try assumption.
  intros b c y x. cbn [tdiv data]. rewrite Hd1, Hd2. reflexivity.
Qed.

Lemma merge_total self h w p win rest B C sh :
  _h self = Some h -> _w self = Some w -> shape p = B :: C :: sh ->
  forallb (fits B C h w) ((p, win) :: rest) = true ->
  exists r, merge self ((p, win) :: rest) = Ok r.
Proof.
  intros Hh Hw Hs Hf. rewrite (merge_cons self h w p win rest B C sh) by assumption.
  destruct (accumulate_total B C h w _ (zeros [B; C; h; w], zeros [h; w]) Hf) as [st ->].
  eexists; reflexivity.
Qed.

Lemma covering_windows h w y x l :
  length (covering h w y x l)
  = length (filter (fun win => covers h w win y x) (map snd l)).
Proof.
  unfold covering. induction l as [|pw l IH]; [reflexivity|].
  cbn [filter map]. destruct (covers h w (snd pw) y x); cbn [length]; congruence.
Qed.

(** Inside the extent, a slice bound is the index itself. *)
Lemma slice_bound_inside n i : 0 <= i <= n -> slice_bound n i = i.
Proof.
  intros H. unfold slice_bound. destruct (i <? 0) eqn:E.
  - apply Z.ltb_lt in E. lia.
  - lia.
Qed.

(** For a window inside the extent, [covers] is the half-open rectangle. *)
Lemma covers_inside h w x1 y1 x2 y2 y x :
  0 <= x1 <= w -> 0 <= x2 <= w -> 0 <= y1 <= h -> 0 <= y2 <= h ->
  covers h w (x1, y1, x2, y2) y x = true <-> (y1 <= y < y2 /\ x1 <= x < x2).
Proof.
  intros. unfold covers, in_slice. rewrite !slice_bound_inside by assumption.
  rewrite !andb_true_iff, !Z.leb_le, !Z.ltb_lt. tauto.
Qed.

(** For a prediction of the slice's own shape, the contribution at a pixel is
    the prediction's element at the pixel's offset in the window. *)
Lemma contribution_plain h w p x1 y1 x2 y2 pb pc ph pw b c y x :
  shape p = [pb; pc; ph; pw] ->
  0 <= x1 <= w -> 0 <= y1 <= h ->
  0 <= b < pb -> 0 <= c < pc -> 0 <= y - y1 < ph -> 0 <= x - x1 < pw ->
  contribution h w p (x1, y1, x2, y2) b c y x = data p [b; c; y - y1; x - x1].
Proof.
  intros Hs Hx Hy Hb Hc Hy' Hx'. unfold contribution.
  rewrite !slice_bound_inside by assumption. rewrite Hs. f_equal.
  unfold bcast_idx. cbn.
  repeat match goal with
         | |- context [if ?d =? 1 then _ else _] =>
             destruct (Z.eqb_spec d 1)
         end; repeat f_equal; lia.
Qed.

(** ** Coverage gaps *)

(** C1 (counterexample): a 1 by 2 extent with one window over the left
    pixel only; [merge] raises nothing and returns NaN at the right pixel. *)
Lemma C1_zero_count_is_silent :
  covering 1 2 0 1 [px F32.one] = [] /\
  exists r, merge (engine_hw 1 2) [px F32.one] = Ok r /\
            data r [0; 0; 0; 1] = F32.nan.
Proof. split; [reflexivity|]. eexists. split; reflexivity. Qed.

(** C1 (amended): [merge] never raises on account of a zero count.  It
    returns whenever the list is not empty, the first prediction has two
    leading axes and every prediction fits its slice; and in what it returns,
    every element at a pixel covered by no window is NaN (zero divided by
    zero). *)
Theorem C1_uncovered_pixel_is_nan self h w l :
  _h self = Some h -> _w self = Some w ->
  (forall p win rest B C sh,
      l = (p, win) :: rest -> shape p = B :: C :: sh ->
      forallb (fits B C h w) l = true ->
      exists r, merge self l = Ok r) /\
  (forall r, merge self l = Ok r ->
             forall b c y x, covering h w y x l = [] ->
                             data r [b; c; y; x] = F32.nan).
Proof.
  intros Hh Hw. split.
  - intros p win rest B C sh -> Hs Hf. eapply merge_total; eassumption.
  - intros r Hr b c y x Hcov.
    destruct (merge_inv self h w l r Hh Hw Hr) as (_ & _ & _ & _ & _ & _ & _ & _ & _ & _ & Hd).
    rewrite Hd. unfold contributions. rewrite Hcov. reflexivity.
Qed.

Lemma C1_uncovered_pixel_is_nan_witness :
  (exists r, merge (engine_hw 1 2) [px F32.one] = Ok r) /\
  data (get_ok (merge (engine_hw 1 2) [px F32.one])) [0; 0; 0; 1] = F32.nan.
Proof.
  pose (H := C1_uncovered_pixel_is_nan (engine_hw 1 2) 1 2 [px F32.one]
               eq_refl eq_refl).
  exact (conj (proj1 H _ _ _ 1 1 [1; 1] eq_refl eq_refl eq_refl)
           (proj2 H _ eq_refl 0 0 0 1 eq_refl)).
Defined.

(** ** The scenario of section 8 *)

(** C7: with the four windows [(0,0,6,6)], [(4,0,10,6)], [(0,4,6,10)],
    [(4,4,10,10)] over a 10 by 10 extent, the loop of [merge] leaves a count
    buffer of shape (10, 10) holding 4 on the central 2 by 2 pixels (rows and
    columns 4 and 5), 2 on the rest of rows 4-5 and of columns 4-5 (the cross
    covered by two windows), and 1 elsewhere (the corners). *)
Theorem C7_count_buffer_10x10 B C out_list img cnt :
  map snd out_list = wins_10x10 ->
  accumulate B C 10 10 out_list (zeros [B; C; 10; 10], zeros [10; 10]) = Ok (img, cnt) ->
  shape cnt = [10; 10] /\
  forall y x, 0 <= y < 10 -> 0 <= x < 10 ->
              data cnt [y; x] = F32.of_Z (expected_count y x).
Proof.
  intros Hw Hacc.
  apply accumulate_inv in Hacc as (_ & _ & Hs & _ & Hd). cbn [fst snd] in *.
  split; [exact Hs|].
  intros y x Hy Hx. rewrite Hd, covering_windows, Hw. cbn [zeros data].
  assert (Ey : y = 0 \/ y = 1 \/ y = 2 \/ y = 3 \/ y = 4 \/ y = 5 \/ y = 6 \/
               y = 7 \/ y = 8 \/ y = 9) by lia.
  assert (Ex : x = 0 \/ x = 1 \/ x = 2 \/ x = 3 \/ x = 4 \/ x = 5 \/ x = 6 \/
               x = 7 \/ x = 8 \/ x = 9) by lia.
  clear Hy Hx Hd.
  repeat (destruct Ey as [Ey|Ey]);
    repeat (destruct Ex as [Ex|Ex]); subst y x; reflexivity.
Qed.

Lemma C7_count_buffer_10x10_witness :
  let st := accumulate 1 3 10 10
              (map (fun win => (const_tensor [1; 3; 6; 6] F32.one, win)) wins_10x10)
              (zeros [1; 3; 10; 10], zeros [10; 10]) in
  exists img cnt,
    st = Ok (img, cnt) /\
    data cnt [0; 0] = F32.of_Z 1 /\ data cnt [0; 4] = F32.of_Z 2 /\
    data cnt [5; 4] = F32.of_Z 4 /\ data cnt [9; 9] = F32.of_Z 1.
Proof.
  cbv zeta. eexists _, _. split; [reflexivity|].
  pose proof (C7_count_buffer_10x10 1 3
                (map (fun win => (const_tensor [1; 3; 6; 6] F32.one, win)) wins_10x10)
                _ _ eq_refl eq_refl) as [_ H].
  exact (conj (H 0 0 ltac:(lia) ltac:(lia))
           (conj (H 0 4 ltac:(lia) ltac:(lia))
              (conj (H 5 4 ltac:(lia) ltac:(lia))
                 (H 9 9 ltac:(lia) ltac:(lia))))).
Defined.

(** The planner of section 4.1 yields these four windows, in this order. *)
Lemma planner_scenario_10x10 :
  spec_sliding_window (10, 10) (6, 6) 4 = Ok wins_10x10.
Proof. reflexivity. Qed.

(** ** Averaging over the covering windows *)

Lemma count_up_add a b v : count_up (a + b) v = count_up b (count_up a v).
Proof.
  revert v. induction a as [|a IH]; intros v; [reflexivity|].
  cbn [Nat.add count_up]. apply IH.
Qed.

(** Past [2^24] the count no longer moves. *)
Lemma count_up_saturated n :
  Z.of_nat n = 16777218 -> count_up n F32.zero = f32_2p24.
Proof.
  intros H.
  assert (exists m, Z.of_nat m = 16777216 /\ n = (m + 2)%nat) as (m & Hm & ->)
      by (exists (n - 2)%nat; lia).
  rewrite count_up_add, count_up_exact by (rewrite Hm; reflexivity).
  rewrite Hm. reflexivity.
Qed.

Lemma pile_covering n : covering 1 1 0 0 (pile n) = pile n.
Proof.
  unfold pile, covering. cbn [filter]. change (covers 1 1 (snd (px f32_2p25)) 0 0) with true.
  cbv iota. f_equal. induction n as [|n IH]; [reflexivity|].
  cbn [repeat filter]. change (covers 1 1 (snd (px F32.zero)) 0 0) with true.
  cbv iota. f_equal. exact IH.
Qed.

Lemma pile_contributions n :
  contributions 1 1 0 0 0 0 (pile n) = f32_2p25 :: repeat F32.zero n.
Proof.
  unfold contributions. rewrite pile_covering. unfold pile. cbn [map]. f_equal.
  induction n as [|n IH]; [reflexivity|]. cbn [repeat map]. f_equal. exact IH.
Qed.

Lemma pile_fits n : forallb (fits 1 1 1 1) (pile n) = true.
Proof.
  unfold pile. cbn [forallb]. change (fits 1 1 1 1 (px f32_2p25)) with true.
  cbn [andb]. induction n as [|n IH]; [reflexivity|].
  cbn [repeat forallb]. change (fits 1 1 1 1 (px F32.zero)) with true. exact IH.
Qed.

Lemma pile_sum n : F32.sum (f32_2p25 :: repeat F32.zero n) = f32_2p25.
Proof.
  unfold F32.sum. cbn [fold_left].
  change (F32.add F32.zero f32_2p25) with f32_2p25.
  induction n as [|n IH]; [reflexivity|]. cbn [repeat fold_left].
  change (F32.add f32_2p25 F32.zero) with f32_2p25. exact IH.
Qed.

Lemma pile_merge n :
  Z.of_nat n = 16777217 ->
  exists r, merge (engine_hw 1 1) (pile n) = Ok r /\
            data r [0; 0; 0; 0] = F32.of_Z 2.
Proof.
  intros Hn.
  destruct (merge_total (engine_hw 1 1) 1 1 (const_tensor [1; 1; 1; 1] f32_2p25)
              (0, 0, 1, 1) (repeat (px F32.zero) n)
              1 1 [1; 1] eq_refl eq_refl eq_refl (pile_fits n)) as [r Hr].
  exists r. split; [exact Hr|].
  destruct (merge_inv (engine_hw 1 1) 1 1 _ r eq_refl eq_refl Hr)
    as (_ & _ & _ & _ & _ & _ & _ & _ & _ & _ & Hd).
  change (_ :: repeat (px F32.zero) n) with (pile n) in Hd.
  rewrite Hd, pile_contributions, pile_sum, pile_covering.
  unfold pile at 1. cbn [length]. rewrite repeat_length.
  rewrite count_up_saturated by lia. reflexivity.
Qed.

(** C3 (counterexample): a pixel covered by [2^24 + 2] windows, the first
    prediction [2^25] and the others [+0].  The binary32 count stops at
    [2^24], so the merged value is 2 and not [2^25 / (2^24 + 2)]. *)
Lemma C3_count_saturates :
  let l := pile (Z.to_nat 16777217) in
  length (covering 1 1 0 0 l) = Z.to_nat 16777218 /\
  exists r, merge (engine_hw 1 1) l = Ok r /\
            data r [0; 0; 0; 0]
            <> F32.div (F32.sum (contributions 1 1 0 0 0 0 l)) (F32.of_Z 16777218).
Proof.
  cbv zeta. split.
  - rewrite pile_covering. unfold pile. cbn [length]. rewrite repeat_length. lia.
  - destruct (pile_merge (Z.to_nat 16777217) ltac:(lia)) as (r & Hr & Hd).
    exists r. split; [exact Hr|].
    rewrite Hd, pile_contributions, pile_sum. vm_compute. discriminate.
Qed.

(** C3 (amended): for a pixel covered by [k] windows, [1 <= k <= 2^24], every
    element of the merged tensor at that pixel is the binary32 sum of the [k]
    covering predictions' values there, accumulated from [+0] in the order of
    the list, divided in binary32 by [k]. *)
Theorem C3_overlap_average self h w l r :
  _h self = Some h -> _w self = Some w -> merge self l = Ok r ->
  forall b c y x k,
    length (covering h w y x l) = k -> (1 <= k)%nat -> Z.of_nat k <= 2 ^ 24 ->
    length (contributions h w b c y x l) = k /\
    data r [b; c; y; x]
    = F32.div (F32.sum (contributions h w b c y x l)) (F32.of_Z (Z.of_nat k)).
Proof.
  intros Hh Hw Hr b c y x k Hk _ Hle.
  destruct (merge_inv self h w l r Hh Hw Hr)
    as (_ & _ & _ & _ & _ & _ & _ & _ & _ & _ & Hd).
  split; [rewrite length_contributions; exact Hk|].
  rewrite Hd, Hk, count_up_exact by exact Hle. reflexivity.
Qed.

Lemma C3_overlap_average_witness :
  let l := [px F32.one; px (F32.of_Z 3)] in
  data (get_ok (merge (engine_hw 1 1) l)) [0; 0; 0; 0]
  = F32.div (F32.sum [F32.one; F32.of_Z 3]) (F32.of_Z 2).
Proof.
  exact (proj2 (C3_overlap_average (engine_hw 1 1) 1 1
                  [px F32.one; px (F32.of_Z 3)] _ eq_refl eq_refl eq_refl
                  0 0 0 0 2%nat eq_refl ltac:(lia) ltac:(vm_compute; discriminate))).
Defined.

(** ** Feeding order *)

Lemma covering_perm h w y x l l' :
  Permutation l l' -> Permutation (covering h w y x l) (covering h w y x l').
Proof.
  unfold covering. induction 1 as [|a l l' _ IH|a b l|l l' l'' _ IH1 _ IH2].
  - constructor.
  - cbn [filter]. destruct (covers h w (snd a) y x); [constructor|]; exact IH.
  - cbn [filter].
    destruct (covers h w (snd a) y x), (covers h w (snd b) y x);
      try apply Permutation_refl. apply perm_swap.
  - eapply perm_trans; eassumption.
Qed.

Lemma contributions_perm h w b c y x l l' :
  Permutation l l' ->
  Permutation (contributions h w b c y x l) (contributions h w b c y x l').
Proof. intros H. unfold contributions. apply Permutation_map, covering_perm, H. Qed.

Lemma forallb_perm {A} (f : A -> bool) l l' :
  Permutation l l' -> forallb f l = forallb f l'.
Proof.
  induction 1 as [|a l l' _ IH|a b l|l l' l'' _ IH1 _ IH2]; cbn [forallb].
  - reflexivity.
  - rewrite IH. reflexivity.
  - destruct (f a), (f b); reflexivity.
  - congruence.
Qed.

(** Up to two summands, the accumulated sum does not depend on their order. *)
Lemma sum_perm_upto_2 c c' :
  Permutation c c' -> (length c <= 2)%nat -> F32.sum c = F32.sum c'.
Proof.
  intros Hp Hlen. destruct c as [|a [|b [|? ?]]]; cbn [length] in Hlen; try lia.
  - apply Permutation_nil in Hp. subst. reflexivity.
  - apply Permutation_length_1_inv in Hp. subst. reflexivity.
  - apply Permutation_length_2_inv in Hp as [->| ->]; [reflexivity|].
    apply f32_sum_swap.
Qed.

(** C8 (counterexample): three predictions [2^24], [1], [-2^24] on one
    pixel.  Fed in this order the sum is [+0]; with the last two exchanged it
    is [1]. *)
Lemma C8_order_changes_result :
  let l := [px f32_2p24; px F32.one; px f32_m2p24] in
  let l' := [px f32_2p24; px f32_m2p24; px F32.one] in
  Permutation l l' /\
  exists r r', merge (engine_hw 1 1) l = Ok r /\
               merge (engine_hw 1 1) l' = Ok r' /\
               data r [0; 0; 0; 0] = F32.zero /\
               data r' [0; 0; 0; 0] = S754_finite false 11184811 (-25) /\
               data r [0; 0; 0; 0] <> data r' [0; 0; 0; 0].
Proof.
  cbv zeta. split.
  - apply perm_skip, perm_swap.
  - eexists _, _. repeat (split; [reflexivity|]). cbn. discriminate.
Qed.

(** C8 (amended): for predictions that share their two leading axes, feeding
    a permutation of the list makes [merge] raise the same exception or
    return a tensor of the same shape that is identical at every pixel
    covered by at most two windows.  (With three or more covering windows the
    binary32 sum depends on the order.) *)
Theorem C8_order_independence_upto_2 self h w B C l l' :
  _h self = Some h -> _w self = Some w ->
  (forall pw, In pw l -> exists sh, shape (fst pw) = B :: C :: sh) ->
  Permutation l l' ->
  match merge self l, merge self l' with
  | Ok r, Ok r' =>
      shape r = shape r' /\
      forall b c y x, (length (covering h w y x l) <= 2)%nat ->
                      data r [b; c; y; x] = data r' [b; c; y; x]
  | Raise e, Raise e' => e = e'
  | _, _ => False
  end.
Proof.
  intros Hh Hw Hsh Hp.
  destruct l as [|[p win] rest].
  { apply Permutation_nil in Hp. subst. reflexivity. }
  destruct l' as [|[p' win'] rest'].
  { apply Permutation_sym, Permutation_nil in Hp. discriminate. }
  destruct (Hsh (p, win) (or_introl eq_refl)) as [sh Hs].
  destruct (Hsh (p', win')) as [sh' Hs'].
  { eapply Permutation_in; [apply Permutation_sym, Hp|left; reflexivity]. }
  cbn [fst] in Hs, Hs'.
  rewrite (merge_cons self h w p win rest B C sh) by assumption.
  rewrite (merge_cons self h w p' win' rest' B C sh') by assumption.
  set (l := (p, win) :: rest) in *. set (l' := (p', win') :: rest') in *.
  set (st0 := (zeros [B; C; h; w], zeros [h; w])).
  rewrite (accumulate_fits B C h w l), (accumulate_fits B C h w l').
  rewrite <- (forallb_perm _ l l' Hp).
  destruct (forallb (fits B C h w) l) eqn:Hf; [|reflexivity].
  destruct (accumulate_total B C h w l st0 Hf) as [st Hst].
  destruct (accumulate_total B C h w l' st0) as [st' Hst'].
  { rewrite <- (forallb_perm _ l l' Hp). exact Hf. }
  rewrite Hst, Hst'. cbn [bind].
  apply accumulate_inv in Hst as (_ & Hs1 & _ & Hd1 & Hc1).
  apply accumulate_inv in Hst' as (_ & Hs1' & _ & Hd1' & Hc1').
  split; [cbn [tdiv shape]; congruence|].
  intros b c y x Hlen. cbn [tdiv data]. rewrite Hd1, Hd1', Hc1, Hc1'.
  f_equal.
  - apply sum_perm_upto_2; [apply contributions_perm, Hp|].
    rewrite length_contributions. exact Hlen.
  - f_equal. apply Permutation_length, covering_perm, Hp.
Qed.

Lemma C8_order_independence_upto_2_witness :
  let l := [px F32.one; px (F32.of_Z 3)] in
  let l' := [px (F32.of_Z 3); px F32.one] in
  data (get_ok (merge (engine_hw 1 1) l)) [0; 0; 0; 0]
  = data (get_ok (merge (engine_hw 1 1) l')) [0; 0; 0; 0].
Proof.
  refine (proj2 (C8_order_independence_upto_2 (engine_hw 1 1) 1 1 1 1
                   [px F32.one; px (F32.of_Z 3)] [px (F32.of_Z 3); px F32.one]
                   eq_refl eq_refl _ (perm_swap _ _ _))
            0 0 0 0 _).
  - intros pw [<-|[<-|[]]]; exists [1; 1]; reflexivity.
  - cbn. lia.
Defined.

(** ** The run phase *)

Lemma spatial_inv sh h w :
  spatial sh = Ok (h, w) <-> exists d0 d1 rest, sh = d0 :: d1 :: h :: w :: rest.
Proof.
  unfold spatial. split.
  - destruct sh as [|d0 [|d1 [|h' [|w' rest]]]]; cbn; try discriminate.
    intros [= -> ->]. eauto.
  - intros (d0 & d1 & rest & ->). reflexivity.
Qed.

Lemma spatial_rank sh hw : spatial sh = Ok hw -> (4 <= length sh)%nat.
Proof.
  destruct hw as [h w]. intros H. apply spatial_inv in H as (d0 & d1 & rest & ->).
  cbn [length]. lia.
Qed.

Section Run.

Variable pad : pyarray -> Z -> result pyarray.
Variable derr : torch_device -> option pyerr.

(** The loop body reads [self.transforms] and [self.device], and nothing
    else of the engine. *)
Lemma process_win_transforms self self' model image sd win :
  transforms self' = transforms self -> device self' = device self ->
  process_win pad derr self' model image sd win
  = process_win pad derr self model image sd win.
Proof.
  intros H Hd. unfold process_win, prepare, apply_transforms.
  rewrite H, Hd. reflexivity.
Qed.

Lemma run_windows_transforms self self' model image sd ws acc :
  transforms self' = transforms self -> device self' = device self ->
  run_windows pad derr self' model image sd ws acc
  = run_windows pad derr self model image sd ws acc.
Proof.
  intros H Hd. revert acc. induction ws as [|win ws IH]; intros acc; [reflexivity|].
  cbn [run_windows]. rewrite (process_win_transforms self self') by assumption.
  destruct (process_win pad derr self model image sd win) as [c [out|err]]; [|reflexivity].
  rewrite IH. reflexivity.
Qed.

(** A loop that completes has appended, for each window in turn, that
    window and the prediction its iteration produced. *)
Lemma run_windows_inv self model image sd ws acc c outs :
  run_windows pad derr self model image sd ws acc = (c, Ok outs) ->
  exists outs',
    outs = acc ++ outs' /\
    Forall2 (fun win pw =>
               snd pw = win /\
               snd (process_win pad derr self model image sd win) = Ok (fst pw))
      ws outs'.
Proof.
  revert acc c. induction ws as [|win ws IH]; intros acc c H.
  - cbn in H. injection H as <- <-. exists []. rewrite app_nil_r. split; constructor.
  - cbn [run_windows] in H.
    destruct (process_win pad derr self model image sd win) as [c1 [out|err]] eqn:Hp;
      [|discriminate].
    destruct (run_windows pad derr self model image sd ws (acc ++ [(out, win)]))
      as [c2 r] eqn:Hr.
    injection H as <- ->.
    apply IH in Hr as (outs' & -> & HF).
    exists ((out, win) :: outs'). split.
    + rewrite <- app_assoc. reflexivity.
    + constructor; [|exact HF]. rewrite Hp. split; reflexivity.
Qed.

(** A loop that raises keeps no result and reports the exception of the
    iteration that raised. *)
Lemma run_windows_raise self model image sd ws acc c err :
  run_windows pad derr self model image sd ws acc = (c, Raise err) ->
  exists win, In win ws /\ snd (process_win pad derr self model image sd win) = Raise err.
Proof.
  revert acc c. induction ws as [|win ws IH]; intros acc c H.
  - discriminate.
  - cbn [run_windows] in H.
    destruct (process_win pad derr self model image sd win) as [c1 [out|e]] eqn:Hp.
    + destruct (run_windows pad derr self model image sd ws (acc ++ [(out, win)]))
        as [c2 r] eqn:Hr.
      injection H as <- ->. apply IH in Hr as (win' & Hin & Hw).
      exists win'. split; [right; exact Hin|exact Hw].
    + injection H as <- <-. exists win. split; [left; reflexivity|].
      rewrite Hp. reflexivity.
Qed.

(** [forward] on a configured engine and a three-axis image. *)
Lemma forward_configured self model image kw ws H W Cc :
  wins self = Assigned (Some ws) -> shape image = [H; W; Cc] ->
  forward pad derr self model image kw
  = let self1 := with_device (set_hw self H W) kw in
    match run_windows pad derr (with_device self kw) model image
            (kw_size_divisor kw) ws [] with
    | (c, Raise err) => mkRun self1 c (Raise err)
    | (c, Ok out_list) =>
        mkRun (set_wins self1 None) c (merge (set_wins self1 None) out_list)
    end.
Proof.
  intros Hw Hs. unfold forward. rewrite Hw, Hs.
  unfold _forward. cbn [wins with_device set_device set_hw]. rewrite Hw.
  cbv zeta.
  rewrite (run_windows_transforms (with_device self kw)) by reflexivity.
  reflexivity.
Qed.

(** [forward] returns a value only from a configured engine and a
    three-axis image, through a completed loop and a successful merge. *)
Lemma forward_ok_inv self model image kw t :
  returned (forward pad derr self model image kw) = Ok t ->
  exists ws H W Cc c outs,
    wins self = Assigned (Some ws) /\ shape image = [H; W; Cc] /\
    run_windows pad derr (with_device self kw) model image (kw_size_divisor kw) ws []
    = (c, Ok outs) /\
    wins (after (forward pad derr self model image kw)) = Assigned None /\
    _h (after (forward pad derr self model image kw)) = Some H /\
    _w (after (forward pad derr self model image kw)) = Some W /\
    merge (after (forward pad derr self model image kw)) outs = Ok t.
Proof.
  intros Hr.
  destruct (wins self) as [|[ws|]] eqn:Hw;
    try (unfold forward in Hr; rewrite Hw in Hr; discriminate).
  destruct (shape image) as [|H [|W [|Cc [|? ?]]]] eqn:Hs;
    try (unfold forward in Hr; rewrite Hw, Hs in Hr; discriminate).
  rewrite (forward_configured self model image kw ws H W Cc Hw Hs) in Hr |- *.
  cbv zeta in *.
  destruct (run_windows pad derr (with_device self kw) model image
              (kw_size_divisor kw) ws [])
    as [c [outs|err]] eqn:Hrun; [|discriminate].
  cbn [returned after] in *.
  exists ws, H, W, Cc, c, outs.
  exact (conj eq_refl (conj eq_refl (conj Hrun
           (conj eq_refl (conj eq_refl (conj eq_refl Hr)))))).
Qed.

End Run.

(** ** Life cycle *)

(** C4: on an engine that was never planned, [forward] raises
    ([AttributeError]: [__init__] does not assign [wins]) without invoking the
    model; and after a [forward] that returned, a second [forward] on the
    engine it left, with no [patch] in between, raises [AssertionError]
    without invoking the model, because the first one set [wins] to [None]. *)
Theorem C4_lifecycle_errors :
  (forall pad derr cuda_is_available model image kw,
      let r := forward pad derr (__init__ cuda_is_available) model image kw in
      returned r = Raise AttributeError /\ calls r = []) /\
  (forall pad derr self model image kw t,
      returned (forward pad derr self model image kw) = Ok t ->
      forall pad' derr' model' image' kw',
        let r := forward pad' derr' (after (forward pad derr self model image kw))
                   model' image' kw' in
        returned r = Raise AssertionError /\ calls r = []).
Proof.
  split.
  - intros. split; reflexivity.
  - intros pad derr self model image kw t Hr pad' derr' model' image' kw' r.
    apply forward_ok_inv in Hr as (ws & H & W & Cc & c & outs & _ & _ & _ & Hw & _).
    subst r. unfold forward at 1 3. rewrite Hw. split; reflexivity.
Qed.

Lemma C4_lifecycle_errors_witness :
  returned run_10x10 = Ok (get_ok (returned run_10x10)) /\
  returned (forward spec_divisible_pad no_cuda (after run_10x10) ones_model
              image_10x10 kw_div4)
  = Raise AssertionError.
Proof.
  split; [reflexivity|].
  exact (proj1 (proj2 C4_lifecycle_errors spec_divisible_pad no_cuda planned_engine ones_model
                  image_10x10 kw_div4 _ eq_refl
                  spec_divisible_pad no_cuda ones_model image_10x10 kw_div4)).
Defined.

(** ** Shape of the result *)

(** C2 (counterexample): the scenario of section 8 with a three-class model
    returns a tensor of four axes, [(1, 3, 10, 10)], not [(3, 10, 10)]. *)
Lemma C2_result_keeps_batch_axis :
  exists t, returned run_10x10 = Ok t /\
            shape t = [1; 3; 10; 10] /\ shape t <> [3; 10; 10].
Proof. eexists. split; [reflexivity|]. split; [reflexivity|discriminate]. Qed.

(** C2 (amended): when [forward] returns on an image of shape [(H, W, _)],
    the tensor has shape [(B, num_classes, H, W)], where [B] and
    [num_classes] are the first two axes of the first window's prediction. *)
Theorem C2_result_shape pad derr self model image kw H W Cc t :
  shape image = [H; W; Cc] ->
  returned (forward pad derr self model image kw) = Ok t ->
  exists win0 rest pred0 B num_classes sh,
    wins self = Assigned (Some (win0 :: rest)) /\
    snd (process_win pad derr (with_device self kw) model image
           (kw_size_divisor kw) win0) = Ok pred0 /\
    shape pred0 = B :: num_classes :: sh /\
    shape t = [B; num_classes; H; W].
Proof.
  intros Hs Hr.
  apply forward_ok_inv in Hr
      as (ws & H' & W' & Cc' & c & outs & Hw & Hs' & Hrun & _ & Hh & Hww & Hm).
  rewrite Hs in Hs'. injection Hs' as <- <- <-.
  apply run_windows_inv in Hrun as (outs' & -> & HF). cbn [app] in Hm.
  destruct (merge_inv _ H W _ t Hh Hww Hm)
    as (p & win & rest & B & C & sh & -> & Hsp & _ & Hst & _).
  inversion HF as [|win0 pw ws' outs'' [Hwin Hp] HF' Ews Eouts]; subst.
  cbn [fst snd] in *.
  exists win, ws', p, B, C, sh. repeat split; assumption.
Qed.

Lemma C2_result_shape_witness :
  exists win0 rest pred0 B num_classes sh,
    wins planned_engine = Assigned (Some (win0 :: rest)) /\
    snd (process_win spec_divisible_pad no_cuda (with_device planned_engine kw_div4)
           ones_model image_10x10 (kw_size_divisor kw_div4) win0) = Ok pred0 /\
    shape pred0 = B :: num_classes :: sh /\
    shape (get_ok (returned run_10x10)) = [B; num_classes; 10; 10].
Proof.
  exact (C2_result_shape spec_divisible_pad no_cuda planned_engine ones_model image_10x10
           kw_div4 10 10 3 _ eq_refl eq_refl).
Defined.

(** ** Untransformed patches *)

(** Without a transform the loop body raises at the unpacking of
    [image.shape[2:4]], before the model is called. *)
Lemma process_win_untransformed pad derr self model image sd win H W Cc :
  transforms self = Assigned None -> shape image = [H; W; Cc] ->
  process_win pad derr self model image sd win = ([], Raise ValueError).
Proof.
  intros Ht Hs. destruct win as [[[x1 y1] x2] y2].
  unfold process_win, prepare, apply_transforms, crop_image.
  rewrite Ht, Hs. reflexivity.
Qed.

(** C10: with [transforms = None], [forward] on an image of three axes raises
    and never invokes the model ([ValueError] on a planned engine: the
    unpacking of [image.shape[2:4]] gets one value, or [merge] gets an empty
    list when there is no window); and whenever [forward] returns, there is a
    transform, the window list is not empty, and for every window the
    transform returned a tensor of at least four axes. *)
Theorem C10_transform_required :
  (forall pad derr self model image kw H W Cc,
      transforms self = Assigned None -> shape image = [H; W; Cc] ->
      (exists err, returned (forward pad derr self model image kw) = Raise err /\
                   forall ws, wins self = Assigned (Some ws) -> err = ValueError) /\
      calls (forward pad derr self model image kw) = []) /\
  (forall pad derr self model image kw t,
      returned (forward pad derr self model image kw) = Ok t ->
      exists tr ws,
        transforms self = Assigned (Some tr) /\
        wins self = Assigned (Some ws) /\ ws <> [] /\
        forall win, In win ws ->
                    exists t', apply_transforms self image win = Ok (TorchTensor t') /\
                               (4 <= length (shape t'))%nat).
Proof.
  split.
  - intros pad derr self model image kw H W Cc Ht Hs.
    destruct (wins self) as [|[ws|]] eqn:Hw;
      try (unfold forward; rewrite Hw; split;
           [eexists; split; [reflexivity|discriminate]|reflexivity]).
    rewrite (forward_configured pad derr self model image kw ws H W Cc Hw Hs). cbv zeta.
    destruct ws as [|win ws].
    + cbn. split; [exists ValueError; split; reflexivity|reflexivity].
    + cbn [run_windows].
      rewrite (process_win_untransformed pad derr (with_device self kw) model image
                 _ win H W Cc Ht Hs).
      split; [exists ValueError; split; reflexivity|reflexivity].
  - intros pad derr self model image kw t Hr.
    apply forward_ok_inv in Hr
        as (ws & H & W & Cc & c & outs & Hw & Hs & Hrun & _ & Hh & Hww & Hm).
    apply run_windows_inv in Hrun as (outs' & -> & HF). cbn [app] in Hm.
    assert (Hne : ws <> []).
    { intros ->. inversion HF; subst. discriminate. }
    assert (Hall : forall win, In win ws ->
                     exists a hw, apply_transforms self image win = Ok a /\
                                  spatial (shape (array_of a)) = Ok hw).
    { clear Hm Hne Hw. induction HF as [|win pw ws outs' [_ Hp] _ IH]; intros win' Hin.
      - destruct Hin.
      - destruct Hin as [<-|Hin]; [|apply IH, Hin].
        unfold process_win, prepare in Hp.
        change (apply_transforms (with_device self kw) image win)
          with (apply_transforms self image win) in Hp.
        destruct (apply_transforms self image win) as [a|e]; cbn [bind] in Hp;
          [|discriminate].
        destruct (spatial (shape (array_of a))) as [hw|e] eqn:Hsp; cbn [bind] in Hp;
          [|discriminate].
        exists a, hw. split; [reflexivity|exact Hsp]. }
    destruct (transforms self) as [|[tr|]] eqn:Ht.
    + exfalso. destruct ws as [|win ws]; [congruence|].
      destruct (Hall win (or_introl eq_refl)) as (a & hw & Ha & _).
      destruct win as [[[x1 y1] x2] y2].
      unfold apply_transforms, crop_image in Ha. rewrite Hs, Ht in Ha. discriminate.
    + exists tr, ws. repeat split; try assumption.
      intros win Hin. destruct (Hall win Hin) as (a & hw & Ha & Hsp).
      destruct win as [[[x1 y1] x2] y2].
      unfold apply_transforms, crop_image in Ha |- *. rewrite Hs, Ht in Ha |- *.
      cbn [bind] in Ha |- *.
      destruct (tr _) as [t'|e]; cbn [bind] in Ha |- *; [|discriminate].
      injection Ha as <-. exists t'. split; [reflexivity|].
      eapply spatial_rank, Hsp.
    + exfalso. destruct ws as [|win ws]; [congruence|].
      destruct (Hall win (or_introl eq_refl)) as (a & hw & Ha & Hsp).
      destruct win as [[[x1 y1] x2] y2].
      unfold apply_transforms, crop_image in Ha. rewrite Hs, Ht in Ha.
      cbn [bind] in Ha. injection Ha as <-. discriminate.
Qed.

Lemma C10_transform_required_witness :
  ((exists err,
       returned (forward spec_divisible_pad no_cuda (set_transforms planned_engine None)
                   ones_model image_10x10 kw_div4) = Raise err /\
       forall ws, wins (set_transforms planned_engine None) = Assigned (Some ws) ->
                  err = ValueError) /\
   calls (forward spec_divisible_pad no_cuda (set_transforms planned_engine None)
            ones_model image_10x10 kw_div4) = []) /\
  (exists tr ws,
      transforms planned_engine = Assigned (Some tr) /\
      wins planned_engine = Assigned (Some ws) /\ ws <> [] /\
      forall win, In win ws ->
                  exists t', apply_transforms planned_engine image_10x10 win
                             = Ok (TorchTensor t') /\
                             (4 <= length (shape t'))%nat).
Proof.
  exact (conj
           (proj1 C10_transform_required spec_divisible_pad no_cuda
              (set_transforms planned_engine None) ones_model image_10x10 kw_div4
              10 10 3 eq_refl eq_refl)
           (proj2 C10_transform_required spec_divisible_pad no_cuda planned_engine
              ones_model image_10x10 kw_div4 _
              (eq_refl : returned run_10x10 = Ok _))).
Defined.

(** ** Exceptions inside the run phase *)

(** An iteration invokes the model at most once. *)
Lemma process_win_calls pad derr self model image sd win c r :
  process_win pad derr self model image sd win = (c, r) ->
  (c = [] /\ exists err, r = Raise err) \/
  (exists x hw, prepare pad derr self image sd win = Ok (x, hw) /\ c = [x]).
Proof.
  unfold process_win. destruct (prepare pad derr self image sd win) as [[x hw]|err].
  - intros [= <- <-]. right. exists x, hw. split; reflexivity.
  - intros [= <- <-]. left. split; [reflexivity|]. exists err. reflexivity.
Qed.

(** What [forward] returns and which model calls it makes depend on the
    engine through [wins], [transforms] and the device in effect only. *)
Lemma forward_same_configuration pad derr self self' model image kw :
  wins self' = wins self -> transforms self' = transforms self ->
  device (with_device self' kw) = device (with_device self kw) ->
  returned (forward pad derr self' model image kw)
  = returned (forward pad derr self model image kw) /\
  calls (forward pad derr self' model image kw)
  = calls (forward pad derr self model image kw).
Proof.
  intros Hw Ht Hd.
  destruct (wins self) as [|[ws|]] eqn:Hws;
    try (unfold forward; rewrite Hw, Hws; split; reflexivity).
  destruct (shape image) as [|H [|W [|Cc [|? ?]]]] eqn:Hs;
    try (unfold forward; rewrite Hw, Hws, Hs; split; reflexivity).
  rewrite (forward_configured pad derr self model image kw ws H W Cc Hws Hs).
  rewrite (forward_configured pad derr self' model image kw ws H W Cc) by congruence.
  cbv zeta.
  rewrite (run_windows_transforms pad derr (with_device self kw) (with_device self' kw))
    by assumption.
  destruct (run_windows pad derr (with_device self kw) model image
              (kw_size_divisor kw) ws [])
    as [c [outs|err]]; split; reflexivity.
Qed.

(** [merge] reads [_h] and [_w] and nothing else of the engine. *)
Lemma merge_reads_hw self self' l :
  _h self' = _h self -> _w self' = _w self -> merge self' l = merge self l.
Proof. intros Hh Hw. unfold merge. rewrite Hh, Hw. reflexivity. Qed.

(** The loop stops at the first iteration that raises: the windows before
    it have been processed, the ones after it are not looked at. *)
Lemma run_windows_aborts pad derr self model image sd pre win post outs acc err :
  Forall2 (fun w pw =>
             snd pw = w /\ snd (process_win pad derr self model image sd w) = Ok (fst pw))
    pre outs ->
  snd (process_win pad derr self model image sd win) = Raise err ->
  run_windows pad derr self model image sd (pre ++ win :: post) acc
  = (flat_map (fun w => fst (process_win pad derr self model image sd w)) (pre ++ [win]),
     Raise err).
Proof.
  intros HF Hwin. revert acc.
  induction HF as [|w pw pre outs [Hw Hp] _ IH]; intros acc.
  - cbn [app run_windows flat_map].
    destruct (process_win pad derr self model image sd win) as [c r].
    cbn [snd fst] in *. subst r. rewrite app_nil_r. reflexivity.
  - cbn [app run_windows flat_map].
    destruct (process_win pad derr self model image sd w) as [c r].
    cbn [snd fst] in *. subst r. rewrite IH. reflexivity.
Qed.

(** A loop whose iterations all return processes every window in turn. *)
Lemma run_windows_completes pad derr self model image sd ws outs acc :
  Forall2 (fun w pw =>
             snd pw = w /\ snd (process_win pad derr self model image sd w) = Ok (fst pw))
    ws outs ->
  run_windows pad derr self model image sd ws acc
  = (flat_map (fun w => fst (process_win pad derr self model image sd w)) ws,
     Ok (acc ++ outs)).
Proof.
  intros HF. revert acc.
  induction HF as [|w [p w'] ws outs [Hw Hp] _ IH]; intros acc.
  - cbn [run_windows flat_map]. rewrite app_nil_r. reflexivity.
  - cbn [run_windows flat_map].
    destruct (process_win pad derr self model image sd w) as [c r].
    cbn [snd fst] in *. subst r w'. rewrite IH, <- app_assoc. reflexivity.
Qed.

(** C9 (counterexample): the model raises on the first window; [forward]
    raises the same exception and leaves the planned windows in place, and a
    second [forward] on that engine, with no [patch] in between, returns. *)
Lemma C9_retry_needs_no_patch :
  let r := forward spec_divisible_pad no_cuda planned_engine failing_model
             image_10x10 kw_div4 in
  returned r = Raise (External "CUDA out of memory") /\
  wins (after r) = Assigned (Some wins_10x10) /\
  exists t,
    returned (forward spec_divisible_pad no_cuda (after r) ones_model image_10x10
                kw_div4) = Ok t.
Proof.
  cbv zeta. split; [reflexivity|]. split; [reflexivity|]. eexists. reflexivity.
Qed.

(** C9 (amended): nothing is caught inside [forward].  On a planned engine,
    - when the image does not have three axes, [forward] raises
      [ValueError] and leaves the engine untouched;
    - when the iteration of some window raises (cropping, transform,
      padding, moving to the device, model call, cropping the output) after
      the windows before it were processed, [forward] raises that very
      exception, the model has been invoked for those windows and at most
      once for the failing one, no later window is looked at, and the engine
      keeps its windows and its transform: it is the engine before the call
      with [_h], [_w] and the device of the call recorded;
    - when every iteration returns and [merge] raises, [forward] raises that
      exception after all the model calls, and [wins] is already [None].
    Conversely every exception [forward] raises arises in one of these three
    ways.  After the first two, [forward] can be called again without
    [patch]: with the same keyword arguments it behaves as it would have on
    the engine before the failed call, and in general as on that engine with
    the failed call's device; after the third the next [forward] raises
    [AssertionError] without invoking the model. *)
Theorem C9_error_state pad derr self model image kw ws :
  wins self = Assigned (Some ws) ->
  let r := forward pad derr self model image kw in
  let step := process_win pad derr (with_device self kw) model image
                (kw_size_divisor kw) in
  let processed (l : list window) (outs : list (tensor * window)) :=
    Forall2 (fun win pw => snd pw = win /\ snd (step win) = Ok (fst pw)) l outs in
  ((forall H W Cc, shape image <> [H; W; Cc]) ->
   r = mkRun self [] (Raise ValueError)) /\
  (forall H W Cc pre win post outs err,
      shape image = [H; W; Cc] -> ws = pre ++ win :: post -> processed pre outs ->
      snd (step win) = Raise err ->
      returned r = Raise err /\
      calls r = flat_map (fun w => fst (step w)) (pre ++ [win]) /\
      (length (calls r) <= length pre + 1)%nat /\
      after r = with_device (set_hw self H W) kw) /\
  (forall H W Cc outs err,
      shape image = [H; W; Cc] -> processed ws outs ->
      merge (set_hw self H W) outs = Raise err ->
      returned r = Raise err /\
      calls r = flat_map (fun w => fst (step w)) ws /\
      after r = set_wins (with_device (set_hw self H W) kw) None) /\
  (forall err,
      returned r = Raise err ->
      ((forall H W Cc, shape image <> [H; W; Cc]) /\ err = ValueError /\
       calls r = [] /\ after r = self)
      \/
      (exists H W Cc win,
          shape image = [H; W; Cc] /\ In win ws /\ snd (step win) = Raise err /\
          after r = with_device (set_hw self H W) kw /\
          wins (after r) = Assigned (Some ws) /\
          transforms (after r) = transforms self /\
          (forall model' image',
              returned (forward pad derr (after r) model' image' kw)
              = returned (forward pad derr self model' image' kw) /\
              calls (forward pad derr (after r) model' image' kw)
              = calls (forward pad derr self model' image' kw)) /\
          (forall model' image' kw',
              returned (forward pad derr (after r) model' image' kw')
              = returned (forward pad derr (with_device self kw) model' image' kw') /\
              calls (forward pad derr (after r) model' image' kw')
              = calls (forward pad derr (with_device self kw) model' image' kw')))
      \/
      (exists H W Cc outs,
          shape image = [H; W; Cc] /\ processed ws outs /\
          merge (set_hw self H W) outs = Raise err /\
          wins (after r) = Assigned None /\
          forall pad' derr' model' image' kw',
            returned (forward pad' derr' (after r) model' image' kw')
            = Raise AssertionError /\
            calls (forward pad' derr' (after r) model' image' kw') = [])).
Proof.
  intros Hw. cbv zeta.
  assert (Hbad : (forall H W Cc, shape image <> [H; W; Cc]) ->
                 forward pad derr self model image kw
                 = mkRun self [] (Raise ValueError)).
  { intros Hn. unfold forward. rewrite Hw.
    destruct (shape image) as [|H [|W [|Cc [|? ?]]]]; try reflexivity.
    exfalso. eapply Hn. reflexivity. }
  split; [exact Hbad|]. split; [|split].
  - intros H W Cc pre win post outs err Hs -> Hpre Hwin.
    rewrite (forward_configured pad derr self model image kw _ H W Cc Hw Hs).
    cbv zeta.
    rewrite (run_windows_aborts pad derr _ model image _ pre win post outs [] err
               Hpre Hwin).
    cbn [returned calls after]. split; [reflexivity|]. split; [reflexivity|].
    split; [|reflexivity].
    rewrite flat_map_app, length_app. cbn [flat_map]. rewrite app_nil_r.
    assert (Hall : (length (flat_map
                              (fun w => fst (process_win pad derr (with_device self kw)
                                               model image (kw_size_divisor kw) w))
                              pre) <= length pre)%nat).
    { clear. induction pre as [|w pre IH]; [cbn; lia|].
      cbn [flat_map]. rewrite length_app. cbn [length].
      destruct (process_win pad derr (with_device self kw) model image
                  (kw_size_divisor kw) w) as [c r] eqn:Hp.
      apply process_win_calls in Hp as [[-> _]|(x & hw & _ & ->)];
        cbn [fst length]; lia. }
    destruct (process_win pad derr (with_device self kw) model image
                (kw_size_divisor kw) win) as [c r] eqn:Hp.
    apply process_win_calls in Hp as [[-> _]|(x & hw & _ & ->)];
      cbn [fst length]; lia.
  - intros H W Cc outs err Hs Hall Hm.
    rewrite (forward_configured pad derr self model image kw _ H W Cc Hw Hs).
    cbv zeta.
    rewrite (run_windows_completes pad derr _ model image _ ws outs [] Hall).
    cbn [returned calls after app].
    split; [|split; reflexivity].
    rewrite <- Hm. apply merge_reads_hw; reflexivity.
  - intros err Hr.
    destruct (shape image) as [|H [|W [|Cc [|? ?]]]] eqn:Hs.
    1-3, 5: left; rewrite Hbad in Hr |- * by discriminate;
      cbn [after returned calls] in *;
      (split; [discriminate|]); (split; [congruence|split; reflexivity]).
    right.
    rewrite (forward_configured pad derr self model image kw ws H W Cc Hw Hs)
      in Hr |- *.
    cbv zeta in *.
    destruct (run_windows pad derr (with_device self kw) model image
                (kw_size_divisor kw) ws [])
      as [c [outs|e]] eqn:Hrun; cbn [after returned calls] in *.
    + right. apply run_windows_inv in Hrun as (outs' & -> & HF). cbn [app] in Hr.
      exists H, W, Cc, outs'. split; [reflexivity|]. split; [exact HF|].
      split; [rewrite <- Hr; apply merge_reads_hw; reflexivity|].
      split; [reflexivity|].
      intros pad' derr' model' image' kw'. split; reflexivity.
    + left. injection Hr as ->.
      destruct (run_windows_raise pad derr _ model image _ ws [] c err Hrun)
        as (win & Hin & Hwin).
      exists H, W, Cc, win. split; [reflexivity|]. split; [exact Hin|].
      split; [exact Hwin|]. split; [reflexivity|]. split; [exact Hw|].
      split; [reflexivity|]. split.
      * intros model' image'. apply forward_same_configuration; try reflexivity.
        unfold with_device. cbn [device set_device set_hw].
        destruct (kw_device kw); reflexivity.
      * intros model' image' kw'. apply forward_same_configuration; reflexivity.
Qed.

Lemma C9_error_state_witness :
  let r := forward spec_divisible_pad no_cuda planned_engine failing_model
             image_10x10 kw_div4 in
  let step := process_win spec_divisible_pad no_cuda
                (with_device planned_engine kw_div4) failing_model image_10x10
                (kw_size_divisor kw_div4) in
  returned r = Raise (External "CUDA out of memory") /\
  calls r = flat_map (fun w => fst (step w)) ([] ++ [(0, 0, 6, 6)]) /\
  (length (calls r) <= length (@nil window) + 1)%nat /\
  after r = with_device (set_hw planned_engine 10 10) kw_div4.
Proof.
  exact (proj1 (proj2 (C9_error_state spec_divisible_pad no_cuda planned_engine
                         failing_model image_10x10 kw_div4 wins_10x10 eq_refl))
           10 10 3 [] (0, 0, 6, 6) [(4, 0, 10, 6); (0, 4, 6, 10); (4, 4, 10, 10)] []
           (External "CUDA out of memory") eq_refl eq_refl (Forall2_nil _) eq_refl).
Defined.

(** ** Planning *)

(** [patch] adds no check of its own: it raises exactly what the planner
    raises and leaves the engine as it was. *)
Lemma patch_propagates sliding_window self input_size patch_size stride tr err :
  sliding_window input_size patch_size stride = Raise err ->
  patch sliding_window self input_size patch_size stride tr = (self, Raise err).
Proof. intros H. unfold patch. rewrite H. reflexivity. Qed.

Lemma patch_stores sliding_window self input_size patch_size stride tr ws :
  sliding_window input_size patch_size stride = Ok ws ->
  patch sliding_window self input_size patch_size stride tr
  = (set_transforms (set_wins self (Some ws)) tr, Ok tt).
Proof. intros H. unfold patch. rewrite H. reflexivity. Qed.

(** C5: with the planner of section 4.1, a stride larger than a patch side
    that is shorter than the image side makes [patch] raise at once; the
    engine is left as it was, so no windows are stored and no model has been
    invoked. *)
Theorem C5_uncoverable_geometry_rejected self H W ph pw stride tr :
  (ph < stride /\ ph < H) \/ (pw < stride /\ pw < W) ->
  patch spec_sliding_window self (H, W) (ph, pw) stride tr = (self, Raise ValueError).
Proof.
  intros Hbad. apply patch_propagates. unfold spec_sliding_window.
  destruct (negb ((0 <? ph) && (0 <? pw) && (0 <? stride))); [reflexivity|].
  replace (((ph <? stride) && (ph <? H)) || ((pw <? stride) && (pw <? W))) with true;
    [reflexivity|].
  symmetry. apply orb_true_iff. rewrite !andb_true_iff, !Z.ltb_lt. exact Hbad.
Qed.

Lemma C5_uncoverable_geometry_rejected_witness :
  patch spec_sliding_window (__init__ false) (10, 10) (6, 6) 7 (Some to_tensor)
  = (__init__ false, Raise ValueError).
Proof.
  apply (C5_uncoverable_geometry_rejected (__init__ false) 10 10 6 6 7).
  left. lia.
Defined.

(** ** Cropping back to the recorded shape *)

Lemma slice_len_prefix n h : 0 <= h <= n -> slice_len n 0 h = h.
Proof.
  intros H. unfold slice_len. rewrite !slice_bound_inside by lia. lia.
Qed.

(** A prefix slice never yields more than it is asked for, nor more than
    there is. *)
Lemma slice_len_prefix_min n h : 0 <= n -> 0 <= h -> slice_len n 0 h = Z.min h n.
Proof.
  intros Hn Hh. unfold slice_len, slice_bound.
  destruct (Z.ltb_spec h 0); [lia|]. destruct (Z.ltb_spec 0 0); lia.
Qed.

(** One iteration with a size divisor: [(h, w)] is recorded from the
    transformed patch, the patch is padded and moved to the device, the model
    is called, and what is appended is [out[:, :, :h, :w]]. *)
Lemma process_win_crops pad derr self model image d win pred :
  snd (process_win pad derr self model image (Some d) win) = Ok pred ->
  exists a h w x out d0 d1 d2 d3 rest,
    apply_transforms self image win = Ok a /\
    spatial (shape (array_of a)) = Ok (h, w) /\
    pad a d = Ok (TorchTensor x) /\
    derr (device self) = None /\
    model x = Ok out /\
    shape out = d0 :: d1 :: d2 :: d3 :: rest /\
    shape pred = d0 :: d1 :: slice_len d2 0 h :: slice_len d3 0 w :: rest /\
    data pred = data out.
Proof.
  unfold process_win, prepare. intros Hp.
  destruct (apply_transforms self image win) as [a|e] eqn:Ha; cbn [bind] in Hp;
    [|discriminate].
  destruct (spatial (shape (array_of a))) as [[h w]|e] eqn:Hsp; cbn [bind] in Hp;
    [|discriminate].
  destruct (pad a d) as [a'|e] eqn:Hpa; cbn [bind] in Hp; [|discriminate].
  destruct a' as [x|x]; cbn [to_device bind snd] in Hp; [discriminate|].
  destruct (derr (device self)) as [e|] eqn:Hd; cbn [bind snd] in Hp; [discriminate|].
  destruct (model x) as [out|e] eqn:Hmo; cbn [bind finish fst snd] in Hp;
    [|discriminate].
  unfold crop_out in Hp.
  destruct (shape out) as [|d0 [|d1 [|d2 [|d3 rest]]]] eqn:Hso; try discriminate.
  injection Hp as <-.
  exists a, h, w, x, out, d0, d1, d2, d3, rest.
  repeat split; try assumption; reflexivity.
Qed.

(** The patch cut for a window has the window's extent, clipped to the
    image. *)
Lemma crop_image_shape image H W Cc x1 y1 x2 y2 patch :
  shape image = [H; W; Cc] -> crop_image image (x1, y1, x2, y2) = Ok patch ->
  shape patch = [slice_len H y1 y2; slice_len W x1 x2; Cc].
Proof. intros Hs. unfold crop_image. rewrite Hs. intros [= <-]. reflexivity. Qed.

(** C6 (counterexample): a model whose output is spatially smaller than
    its input.  On the scenario of section 8, [(h, w) = (6, 6)] is recorded
    for the first window, the model returns a [(1, 3, 1, 1)] tensor,
    [out[:, :, :6, :6]] is that tensor, and it is appended as it is:
    [forward] returns, and the prediction accumulated for the window is 1 by
    1, not 6 by 6. *)
Lemma C6_smaller_output_is_kept :
  let step := process_win spec_divisible_pad no_cuda
                (with_device planned_engine kw_div4) pixel_model image_10x10
                (Some 4) in
  (exists x, prepare spec_divisible_pad no_cuda (with_device planned_engine kw_div4)
               image_10x10 (Some 4) (0, 0, 6, 6) = Ok (x, (6, 6))) /\
  (exists pred, snd (step (0, 0, 6, 6)) = Ok pred /\
                shape pred = [1; 3; 1; 1] /\ spatial (shape pred) <> Ok (6, 6)) /\
  exists t, returned (forward spec_divisible_pad no_cuda planned_engine pixel_model
                        image_10x10 kw_div4) = Ok t.
Proof.
  cbv zeta. split; [eexists; reflexivity|].
  split; [|eexists; reflexivity].
  eexists. split; [reflexivity|]. split; [reflexivity|discriminate].
Qed.

(** C6 (amended): with a size divisor, every prediction a completed loop
    appended is paired with its window and is [out[:, :, :h, :w]], where
    [(h, w)] was recorded from the transformed patch before padding and [out]
    is the model's output on the padded patch: it keeps the output's two
    leading axes and any trailing ones, holds the output's elements, and has
    as spatial axes the prefix slices of the output's, which is [(h, w)] when
    the output is at least that large and [(min h d2, min w d3)] in general,
    so never more than [(h, w)] and possibly less.  When the padding does not
    shrink, the model returns its input's spatial shape and no shape has a
    negative axis, the prediction is exactly [(h, w)] on its spatial axes; when
    moreover the transform keeps the patch's height and width, that is the
    window's extent, clipped to the image. *)
Theorem C6_crop_to_recorded_shape pad derr self model image d ws c outs :
  run_windows pad derr self model image (Some d) ws [] = (c, Ok outs) ->
  Forall2 (fun win pw =>
             snd pw = win /\
             exists a h w x out d0 d1 d2 d3 rest,
               apply_transforms self image win = Ok a /\
               spatial (shape (array_of a)) = Ok (h, w) /\
               pad a d = Ok (TorchTensor x) /\
               model x = Ok out /\
               shape out = d0 :: d1 :: d2 :: d3 :: rest /\
               shape (fst pw)
               = d0 :: d1 :: slice_len d2 0 h :: slice_len d3 0 w :: rest /\
               data (fst pw) = data out /\
               (0 <= h <= d2 -> 0 <= w <= d3 ->
                shape (fst pw) = d0 :: d1 :: h :: w :: rest) /\
               (0 <= h -> 0 <= w -> 0 <= d2 -> 0 <= d3 ->
                shape (fst pw) = d0 :: d1 :: Z.min h d2 :: Z.min w d3 :: rest))
    ws outs /\
  ((forall win a, In win ws -> apply_transforms self image win = Ok a ->
                  Forall (fun n => 0 <= n) (shape (array_of a))) ->
   (forall a a' h w, pad a d = Ok a' -> spatial (shape (array_of a)) = Ok (h, w) ->
                     exists h' w', spatial (shape (array_of a')) = Ok (h', w') /\
                                   h <= h' /\ w <= w') ->
   (forall x out h w, model x = Ok out -> spatial (shape x) = Ok (h, w) ->
                      spatial (shape out) = Ok (h, w)) ->
   Forall2 (fun win pw =>
              exists a h w x out d0 d1 d2 d3 rest,
                apply_transforms self image win = Ok a /\
                spatial (shape (array_of a)) = Ok (h, w) /\
                pad a d = Ok (TorchTensor x) /\
                model x = Ok out /\
                shape out = d0 :: d1 :: d2 :: d3 :: rest /\
                shape (fst pw) = d0 :: d1 :: h :: w :: rest /\
                data (fst pw) = data out)
     ws outs /\
   forall tr H W Cc,
     transforms self = Assigned (Some tr) -> shape image = [H; W; Cc] ->
     (forall p t ph pw ch, tr p = Ok t -> shape p = [ph; pw; ch] ->
                           spatial (shape t) = Ok (ph, pw)) ->
     Forall2 (fun win pw =>
                let '(x1, y1, x2, y2) := win in
                exists a x out d0 d1 d2 d3 rest,
                  apply_transforms self image win = Ok a /\
                  pad a d = Ok (TorchTensor x) /\
                  model x = Ok out /\
                  shape out = d0 :: d1 :: d2 :: d3 :: rest /\
                  shape (fst pw)
                  = d0 :: d1 :: slice_len H y1 y2 :: slice_len W x1 x2 :: rest /\
                  data (fst pw) = data out)
       ws outs).
Proof.
  intros Hrun.
  apply run_windows_inv in Hrun as (outs' & -> & HF). cbn [app].
  assert (HA : Forall2 (fun win pw =>
             snd pw = win /\
             exists a h w x out d0 d1 d2 d3 rest,
               apply_transforms self image win = Ok a /\
               spatial (shape (array_of a)) = Ok (h, w) /\
               pad a d = Ok (TorchTensor x) /\
               model x = Ok out /\
               shape out = d0 :: d1 :: d2 :: d3 :: rest /\
               shape (fst pw)
               = d0 :: d1 :: slice_len d2 0 h :: slice_len d3 0 w :: rest /\
               data (fst pw) = data out /\
               (0 <= h <= d2 -> 0 <= w <= d3 ->
                shape (fst pw) = d0 :: d1 :: h :: w :: rest) /\
               (0 <= h -> 0 <= w -> 0 <= d2 -> 0 <= d3 ->
                shape (fst pw) = d0 :: d1 :: Z.min h d2 :: Z.min w d3 :: rest))
    ws outs').
  { eapply Forall2_impl; [|exact HF].
    intros win pw [Hwin Hp]. split; [exact Hwin|].
    destruct (process_win_crops pad derr self model image d win (fst pw) Hp)
      as (a & h & w & x & out & d0 & d1 & d2 & d3 & rest
          & Ha & Hsp & Hpa & _ & Hmo & Hso & Hsh & Hda).
    exists a, h, w, x, out, d0, d1, d2, d3, rest.
    repeat (split; [assumption|]). split.
    - intros Hh Hw. rewrite Hsh, !slice_len_prefix by assumption. reflexivity.
    - intros Hh Hw Hd2 Hd3. rewrite Hsh, !slice_len_prefix_min by assumption.
      reflexivity. }
  split; [exact HA|].
  intros Hnn Hpad Hmodel.
  assert (HB : Forall2 (fun win pw =>
              exists a h w x out d0 d1 d2 d3 rest,
                apply_transforms self image win = Ok a /\
                spatial (shape (array_of a)) = Ok (h, w) /\
                pad a d = Ok (TorchTensor x) /\
                model x = Ok out /\
                shape out = d0 :: d1 :: d2 :: d3 :: rest /\
                shape (fst pw) = d0 :: d1 :: h :: w :: rest /\
                data (fst pw) = data out)
     ws outs').
  { clear HF. induction HA as [|win pw ws outs' [Hwin Hel] _ IH]; constructor.
    - destruct Hel as (a & h & w & x & out & d0 & d1 & d2 & d3 & rest
                       & Ha & Hsp & Hpa & Hmo & Hso & _ & Hda & Hex & _).
      destruct (Hpad a (TorchTensor x) h w Hpa Hsp) as (h' & w' & Hsx & Hh & Hw).
      cbn [array_of] in Hsx.
      pose proof (Hmodel x out h' w' Hmo Hsx) as Hso'. rewrite Hso in Hso'.
      injection Hso' as -> ->.
      assert (Hpos : 0 <= h /\ 0 <= w).
      { pose proof (Hnn win a (or_introl eq_refl) Ha) as Hf.
        apply spatial_inv in Hsp as (e0 & e1 & rest' & Hsa). rewrite Hsa in Hf.
        inversion Hf as [|? ? _ Hf1]; subst. inversion Hf1 as [|? ? _ Hf2]; subst.
        inversion Hf2 as [|? ? Hh0 Hf3]; subst. inversion Hf3 as [|? ? Hw0 _]; subst.
        split; assumption. }
      exists a, h, w, x, out, d0, d1, h', w', rest.
      repeat (split; [assumption|]). split; [apply Hex; lia|exact Hda].
    - apply IH. intros win' a Hin. apply Hnn. right. exact Hin. }
  split; [exact HB|].
  intros tr H W Cc Ht Hs Hkeep.
  eapply Forall2_impl; [|exact HB].
  intros [[[x1 y1] x2] y2] pw
         (a & h & w & x & out & d0 & d1 & d2 & d3 & rest
          & Ha & Hsp & Hpa & Hmo & Hso & Hps & Hda).
  exists a, x, out, d0, d1, d2, d3, rest.
  repeat (split; [assumption|]). split; [|exact Hda].
  unfold apply_transforms in Ha.
  destruct (crop_image image (x1, y1, x2, y2)) as [patch|e] eqn:Hc; cbn [bind] in Ha;
    [|discriminate].
  rewrite Ht in Ha. cbn [bind] in Ha.
  destruct (tr patch) as [t|e] eqn:Htr; cbn [bind] in Ha; [|discriminate].
  injection Ha as <-. cbn [array_of] in Hsp.
  pose proof (crop_image_shape image H W Cc x1 y1 x2 y2 patch Hs Hc) as Hpatch.
  rewrite (Hkeep patch t _ _ _ Htr Hpatch) in Hsp. injection Hsp as <- <-.
  exact Hps.
Qed.

Lemma to_tensor_keeps_extent p t ph pw ch :
  to_tensor p = Ok t -> shape p = [ph; pw; ch] -> spatial (shape t) = Ok (ph, pw).
Proof.
  intros Ht Hs. unfold to_tensor in Ht. rewrite Hs in Ht. injection Ht as <-.
  reflexivity.
Qed.

Lemma spec_divisible_pad_grows a a' h w :
  spec_divisible_pad a 4 = Ok a' -> spatial (shape (array_of a)) = Ok (h, w) ->
  exists h' w', spatial (shape (array_of a')) = Ok (h', w') /\ h <= h' /\ w <= w'.
Proof.
  destruct a as [t|t]; [discriminate|]. unfold spec_divisible_pad. cbn [array_of].
  destruct (shape t) as [|b [|c [|h0 [|w0 [|? ?]]]]]; try discriminate.
  cbn. intros [= <-] [= <- <-].
  exists (round_up h0 4), (round_up w0 4). split; [reflexivity|].
  unfold round_up. Z.div_mod_to_equations. lia.
Qed.

Lemma ones_model_keeps_spatial x out h w :
  ones_model x = Ok out -> spatial (shape x) = Ok (h, w) ->
  spatial (shape out) = Ok (h, w).
Proof.
  intros Hm Hs. apply spatial_inv in Hs as (d0 & d1 & rest & Hs).
  unfold ones_model in Hm. rewrite Hs in Hm.
  destruct rest; [injection Hm as <-; reflexivity|discriminate].
Qed.

Lemma C6_crop_to_recorded_shape_witness :
  Forall2 (fun win pw =>
             let '(x1, y1, x2, y2) := win in
             exists a x out d0 d1 d2 d3 rest,
               apply_transforms planned_engine image_10x10 win = Ok a /\
               spec_divisible_pad a 4 = Ok (TorchTensor x) /\
               ones_model x = Ok out /\
               shape out = d0 :: d1 :: d2 :: d3 :: rest /\
               shape (fst pw)
               = d0 :: d1 :: slice_len 10 y1 y2 :: slice_len 10 x1 x2 :: rest /\
               data (fst pw) = data out)
    wins_10x10 outs_10x10.
Proof.
  refine (proj2 (proj2 (C6_crop_to_recorded_shape spec_divisible_pad no_cuda
                          planned_engine ones_model image_10x10 4 wins_10x10
                          (fst (run_windows spec_divisible_pad no_cuda planned_engine
                                  ones_model image_10x10 (Some 4) wins_10x10 []))
                          outs_10x10 eq_refl)
                   _ spec_divisible_pad_grows ones_model_keeps_spatial)
            to_tensor 10 10 3 eq_refl eq_refl to_tensor_keeps_extent).
  intros win a [<-|[<-|[<-|[<-|[]]]]] [= <-];
    change (Forall (fun n => 0 <= n) [1; 3; 6; 6]); repeat constructor; lia.
Defined.

(** * Further properties of the engine *)

(** ** Model invocations *)

Lemma run_windows_calls_le pad derr self model image sd ws acc c r :
  run_windows pad derr self model image sd ws acc = (c, r) ->
  (length c <= length ws)%nat.
Proof.
  revert acc c r. induction ws as [|win ws IH]; intros acc c r H.
  - cbn in H. injection H as <- <-. cbn. lia.
  - cbn [run_windows] in H.
    destruct (process_win pad derr self model image sd win) as [c1 [out|err]] eqn:Hp.
    + destruct (run_windows pad derr self model image sd ws (acc ++ [(out, win)]))
        as [c2 r2] eqn:Hr.
      injection H as <- <-. apply IH in Hr.
      apply process_win_calls in Hp as [[-> _]|(x & hw & _ & ->)];
        rewrite length_app; cbn [length]; lia.
    + injection H as <- <-.
      apply process_win_calls in Hp as [[-> _]|(x & hw & _ & ->)]; cbn [length]; lia.
Qed.

Lemma run_windows_calls pad derr self model image sd ws acc c outs :
  run_windows pad derr self model image sd ws acc = (c, Ok outs) ->
  Forall2 (fun win x => exists hw, prepare pad derr self image sd win = Ok (x, hw)) ws c.
Proof.
  revert acc c. induction ws as [|win ws IH]; intros acc c H.
  - cbn in H. injection H as <- _. constructor.
  - cbn [run_windows] in H.
    destruct (process_win pad derr self model image sd win) as [c1 [out|err]] eqn:Hp;
      [|discriminate].
    destruct (run_windows pad derr self model image sd ws (acc ++ [(out, win)]))
      as [c2 r2] eqn:Hr.
    injection H as <- ->. apply IH in Hr.
    apply process_win_calls in Hp as [[_ [err Herr]]|(x & hw & Hprep & ->)];
      [discriminate|].
    cbn [app]. constructor; [exists hw; exact Hprep|exact Hr].
Qed.

(** X1: [forward] never invokes the model more often than there are
    windows; when it returns, it has invoked it exactly once per window, in
    the order of the windows, on that window's cropped, transformed and
    padded patch. *)
Theorem forward_calls_once_per_window pad derr self model image kw ws :
  wins self = Assigned (Some ws) ->
  (length (calls (forward pad derr self model image kw)) <= length ws)%nat /\
  (forall t, returned (forward pad derr self model image kw) = Ok t ->
             Forall2 (fun win x =>
                        exists hw, prepare pad derr (with_device self kw) image
                                     (kw_size_divisor kw) win
                                   = Ok (x, hw))
               ws (calls (forward pad derr self model image kw))).
Proof.
  intros Hw.
  destruct (shape image) as [|H [|W [|Cc [|? ?]]]] eqn:Hs;
    try (unfold forward; rewrite Hw, Hs; split; [cbn; lia|discriminate]).
  rewrite (forward_configured pad derr self model image kw ws H W Cc Hw Hs). cbv zeta.
  destruct (run_windows pad derr (with_device self kw) model image
              (kw_size_divisor kw) ws [])
    as [c [outs|err]] eqn:Hrun; cbn [calls returned].
  - split; [eapply run_windows_calls_le; exact Hrun|].
    intros _ _. eapply run_windows_calls; exact Hrun.
  - split; [eapply run_windows_calls_le; exact Hrun|discriminate].
Qed.

Lemma forward_calls_once_per_window_witness :
  Forall2 (fun win x =>
             exists hw, prepare spec_divisible_pad no_cuda
                          (with_device planned_engine kw_div4) image_10x10
                          (kw_size_divisor kw_div4) win = Ok (x, hw))
    wins_10x10 (calls run_10x10).
Proof.
  exact (proj2 (forward_calls_once_per_window spec_divisible_pad no_cuda planned_engine
                  ones_model image_10x10 kw_div4 wins_10x10 eq_refl)
           _ (eq_refl : returned run_10x10 = Ok _)).
Defined.

(** ** An empty plan *)

(** X2: when the planned window list is empty, [forward] invokes no model
    and raises [ValueError] (from the unpacking in [merge]); by then it has
    already set [wins] to [None], so the plan is consumed all the same. *)
Theorem forward_empty_plan pad derr self model image kw H W Cc :
  wins self = Assigned (Some []) -> shape image = [H; W; Cc] ->
  returned (forward pad derr self model image kw) = Raise ValueError /\
  calls (forward pad derr self model image kw) = [] /\
  wins (after (forward pad derr self model image kw)) = Assigned None.
Proof.
  intros Hw Hs.
  rewrite (forward_configured pad derr self model image kw [] H W Cc Hw Hs).
  repeat split.
Qed.

Lemma forward_empty_plan_witness :
  returned (forward spec_divisible_pad no_cuda (set_wins planned_engine (Some []))
              ones_model image_10x10 kw_div4) = Raise ValueError /\
  calls (forward spec_divisible_pad no_cuda (set_wins planned_engine (Some []))
           ones_model image_10x10 kw_div4) = [] /\
  wins (after (forward spec_divisible_pad no_cuda (set_wins planned_engine (Some []))
                 ones_model image_10x10 kw_div4)) = Assigned None.
Proof.
  exact (forward_empty_plan spec_divisible_pad no_cuda (set_wins planned_engine (Some []))
           ones_model image_10x10 kw_div4 10 10 3 eq_refl eq_refl).
Defined.

(** ** Cropping *)

Lemma slice_bound_nonneg n i : 0 <= n -> 0 <= i -> slice_bound n i = Z.min i n.
Proof.
  intros Hn Hi. unfold slice_bound. destruct (i <? 0) eqn:E; [|reflexivity].
  apply Z.ltb_lt in E. lia.
Qed.

(** X3: the patch cut for a window with non-negative corner holds, at
    [(y, x, c)], the image element at [(y1 + y, x1 + x, c)], and that
    position lies inside the image and inside the window: a window that
    sticks out of the image is clipped, never read outside. *)
Theorem crop_image_in_bounds image H W Cc x1 y1 x2 y2 patch y x c :
  shape image = [H; W; Cc] -> 0 <= H -> 0 <= W ->
  0 <= x1 -> 0 <= y1 -> 0 <= x2 -> 0 <= y2 ->
  crop_image image (x1, y1, x2, y2) = Ok patch ->
  0 <= y < slice_len H y1 y2 -> 0 <= x < slice_len W x1 x2 ->
  data patch [y; x; c] = data image [y1 + y; x1 + x; c] /\
  y1 + y < Z.min y2 H /\ x1 + x < Z.min x2 W.
Proof.
  intros Hs HH HW Hx1 Hy1 Hx2 Hy2 Hc Hy Hx.
  unfold crop_image in Hc. rewrite Hs in Hc. injection Hc as <-. cbn [data].
  unfold slice_len in Hy, Hx.
  rewrite (slice_bound_nonneg H y1), (slice_bound_nonneg H y2) in Hy by assumption.
  rewrite (slice_bound_nonneg W x1), (slice_bound_nonneg W x2) in Hx by assumption.
  rewrite (slice_bound_nonneg H y1), (slice_bound_nonneg W x1) by assumption.
  replace (Z.min y1 H) with y1 by lia. replace (Z.min x1 W) with x1 by lia.
  split; [do 2 f_equal; [lia|f_equal; lia]|lia].
Qed.

Lemma crop_image_in_bounds_witness :
  data (get_ok (crop_image image_10x10 (4, 4, 10, 10))) [5; 5; 0]
  = data image_10x10 [4 + 5; 4 + 5; 0] /\ 4 + 5 < Z.min 10 10 /\ 4 + 5 < Z.min 10 10.
Proof.
  exact (crop_image_in_bounds image_10x10 10 10 3 4 4 10 10 _ 5 5 0 eq_refl
           ltac:(lia) ltac:(lia) ltac:(lia) ltac:(lia) ltac:(lia) ltac:(lia)
           eq_refl ltac:(cbn; lia) ltac:(cbn; lia)).
Defined.

(** ** A run that cannot fail *)

Lemma bcast_ok_refl l : bcast_ok l l = true.
Proof.
  induction l as [|a l IH]; [reflexivity|].
  cbn [bcast_ok]. rewrite Z.eqb_refl, IH. reflexivity.
Qed.

Lemma broadcastable_refl sh : broadcastable sh sh = true.
Proof. apply bcast_ok_refl. Qed.

Lemma slice_len_nonneg n a b : 0 <= slice_len n a b.
Proof. unfold slice_len. lia. Qed.

(** A loop whose iterations all succeed completes, with one model call per
    window. *)
Lemma run_windows_total pad derr self model image sd (Q : window -> tensor -> Prop) ws acc :
  (forall win, In win ws ->
               exists x pred, process_win pad derr self model image sd win = ([x], Ok pred) /\
                              Q win pred) ->
  exists c outs,
    run_windows pad derr self model image sd ws acc = (c, Ok (acc ++ outs)) /\
    length c = length ws /\
    Forall2 (fun win pw => snd pw = win /\ Q win (fst pw)) ws outs.
Proof.
  revert acc. induction ws as [|win ws IH]; intros acc Hall.
  - exists [], []. rewrite app_nil_r. repeat split. constructor.
  - destruct (Hall win (or_introl eq_refl)) as (x & pred & Hp & HQ).
    destruct (IH (acc ++ [(pred, win)])) as (c & outs & Hrun & Hlen & HF).
    { intros win' Hin. apply Hall. right. exact Hin. }
    exists (x :: c), ((pred, win) :: outs). cbn [run_windows]. rewrite Hp, Hrun.
    rewrite <- app_assoc. cbn [app length]. repeat split; [congruence|].
    constructor; [split; [reflexivity|exact HQ]|exact HF].
Qed.

(** X4: under the interface the engine expects of its collaborators, the
    device is the only thing [forward] can fail on.  With a non-empty plan, a
    transform that turns an [(h, w, c)] patch into a [(1, c, h, w)] tensor, a
    padding that returns a [(1, c, h', w')] tensor no smaller than its input,
    and a model that maps [(1, c, h', w')] to [(1, num_classes, h', w')]:
    when the device in effect (the [device] keyword argument, or else
    [self.device]) can be used, [forward] on an [(H, W, C)] image returns a
    [(1, num_classes, H, W)] tensor after exactly one model call per window,
    whatever the windows are (also partly or wholly outside the image), and
    leaves [wins] set to [None]; when it cannot, [forward] raises what
    [Tensor.to] raises, on the first window and before any model call, and
    keeps its windows. *)
Theorem forward_returns_under_contracts pad derr self model image kw ws tr d H W Cc nc :
  wins self = Assigned (Some ws) -> ws <> [] ->
  transforms self = Assigned (Some tr) ->
  kw_size_divisor kw = Some d ->
  shape image = [H; W; Cc] ->
  (forall p ph pw ch, shape p = [ph; pw; ch] ->
                      exists t, tr p = Ok t /\ shape t = [1; ch; ph; pw]) ->
  (forall t ch h w, shape t = [1; ch; h; w] -> 0 <= h -> 0 <= w ->
                    exists t' h' w', pad (TorchTensor t) d = Ok (TorchTensor t') /\
                                     shape t' = [1; ch; h'; w'] /\ h <= h' /\ w <= w') ->
  (forall x ch h w, shape x = [1; ch; h; w] ->
                    exists out, model x = Ok out /\ shape out = [1; nc; h; w]) ->
  (derr (device (with_device self kw)) = None ->
   exists t,
     returned (forward pad derr self model image kw) = Ok t /\
     shape t = [1; nc; H; W] /\
     length (calls (forward pad derr self model image kw)) = length ws /\
     wins (after (forward pad derr self model image kw)) = Assigned None) /\
  (forall err,
      derr (device (with_device self kw)) = Some err ->
      returned (forward pad derr self model image kw) = Raise err /\
      calls (forward pad derr self model image kw) = [] /\
      wins (after (forward pad derr self model image kw)) = Assigned (Some ws)).
Proof.
  intros Hw Hne Ht Hsd Hs Htr Hpad Hmodel.
  rewrite (forward_configured pad derr self model image kw ws H W Cc Hw Hs). cbv zeta.
  rewrite Hsd. split; cycle 1.
  { intros err Hdev. destruct ws as [|[[[x1 y1] x2] y2] ws]; [congruence|].
    cbn [run_windows].
    unfold process_win, prepare, apply_transforms, crop_image. rewrite Hs.
    change (transforms (with_device self kw)) with (transforms self). rewrite Ht.
    cbn [bind].
    match goal with
    | |- context [tr ?p] =>
        destruct (Htr p (slice_len H y1 y2) (slice_len W x1 x2) Cc eq_refl)
          as (t & Htp & Hts)
    end.
    rewrite Htp. cbn [bind array_of]. rewrite Hts. cbn [spatial skipn firstn bind].
    destruct (Hpad t Cc _ _ Hts (slice_len_nonneg H y1 y2) (slice_len_nonneg W x1 x2))
      as (t' & h' & w' & Hp & Hts' & Hh & Hw').
    rewrite Hp. cbn [bind to_device]. rewrite Hdev. cbn [bind returned calls after].
    repeat split. exact Hw. }
  intros Hdev.
  destruct (run_windows_total pad derr (with_device self kw) model image (Some d)
              (fun win pred =>
                 let '(x1, y1, x2, y2) := win in
                 shape pred = [1; nc; slice_len H y1 y2; slice_len W x1 x2])
              ws []) as (c & outs & Hrun & Hlen & HF).
  { intros [[[x1 y1] x2] y2] _.
    unfold process_win, prepare, apply_transforms, crop_image. rewrite Hs.
    change (transforms (with_device self kw)) with (transforms self). rewrite Ht.
    cbn [bind].
    match goal with
    | |- context [tr ?p] =>
        destruct (Htr p (slice_len H y1 y2) (slice_len W x1 x2) Cc eq_refl)
          as (t & Htp & Hts)
    end.
    rewrite Htp. cbn [bind array_of]. rewrite Hts. cbn [spatial skipn firstn bind].
    destruct (Hpad t Cc _ _ Hts (slice_len_nonneg H y1 y2) (slice_len_nonneg W x1 x2))
      as (t' & h' & w' & Hp & Hts' & Hh & Hw').
    rewrite Hp. cbn [bind to_device]. rewrite Hdev. cbn [bind].
    destruct (Hmodel t' Cc h' w' Hts') as (out & Hm & Hso).
    rewrite Hm. cbn [bind finish fst snd].
    unfold crop_out. rewrite Hso.
    rewrite !slice_len_prefix
      by (split; [apply slice_len_nonneg|assumption]).
    eexists _, _. split; reflexivity. }
  cbn [app] in Hrun. rewrite Hrun. cbn [returned calls after].
  destruct outs as [|[p win] rest].
  { inversion HF; subst. congruence. }
  assert (Hfits : forallb (fits 1 nc H W) ((p, win) :: rest) = true).
  { apply forallb_forall. intros [p' win'] Hin.
    assert (Hsh : let '(x1, y1, x2, y2) := win' in
                  shape p' = [1; nc; slice_len H y1 y2; slice_len W x1 x2]).
    { clear - HF Hin. induction HF as [|w0 pw0 ws0 outs0 [E HQ] _ IH]; [destruct Hin|].
      destruct Hin as [->|Hin]; [|exact (IH Hin)].
      cbn [fst snd] in *. subst w0. exact HQ. }
    destruct win' as [[[x1 y1] x2] y2]. unfold fits. cbn [fst snd].
    rewrite Hsh. apply broadcastable_refl. }
  assert (Hp0 : exists sh, shape p = 1 :: nc :: sh).
  { inversion HF as [|w0 pw0 ws0 outs0 [_ HQ] _]; subst. cbn [fst] in HQ.
    destruct w0 as [[[x1 y1] x2] y2]. eexists. exact HQ. }
  destruct Hp0 as [sh Hp0].
  set (self' := set_wins _ None).
  assert (Hh' : _h self' = Some H) by reflexivity.
  assert (Hw'' : _w self' = Some W) by reflexivity.
  destruct (merge_total self' H W p win rest 1 nc sh Hh' Hw'' Hp0 Hfits) as [t Hm].
  exists t. split; [exact Hm|]. split; [|split; [exact Hlen|reflexivity]].
  destruct (merge_inv self' H W _ t Hh' Hw'' Hm)
    as (p' & win' & rest' & B & C & sh' & E & Hsp' & _ & Hst & _).
  injection E as <- <- <-. rewrite Hp0 in Hsp'. injection Hsp' as <- <- _.
  exact Hst.
Qed.

Lemma to_tensor_contract p ph pw ch :
  shape p = [ph; pw; ch] -> exists t, to_tensor p = Ok t /\ shape t = [1; ch; ph; pw].
Proof. intros Hs. unfold to_tensor. rewrite Hs. eexists. split; reflexivity. Qed.

Lemma spec_divisible_pad_contract t ch h w :
  shape t = [1; ch; h; w] -> 0 <= h -> 0 <= w ->
  exists t' h' w', spec_divisible_pad (TorchTensor t) 4 = Ok (TorchTensor t') /\
                   shape t' = [1; ch; h'; w'] /\ h <= h' /\ w <= w'.
Proof.
  intros Hs Hh Hw. unfold spec_divisible_pad. rewrite Hs. cbn.
  eexists _, _, _. split; [reflexivity|]. split; [reflexivity|].
  unfold round_up. Z.div_mod_to_equations. lia.
Qed.

Lemma ones_model_contract x ch h w :
  shape x = [1; ch; h; w] -> exists out, ones_model x = Ok out /\ shape out = [1; 3; h; w].
Proof. intros Hs. unfold ones_model. rewrite Hs. eexists. split; reflexivity. Qed.

Lemma forward_returns_under_contracts_witness :
  exists t,
    returned run_10x10 = Ok t /\ shape t = [1; 3; 10; 10] /\
    length (calls run_10x10) = length wins_10x10 /\
    wins (after run_10x10) = Assigned None.
Proof.
  exact (proj1 (forward_returns_under_contracts spec_divisible_pad no_cuda
                  planned_engine ones_model image_10x10 kw_div4 wins_10x10 to_tensor
                  4 10 10 3 3 eq_refl ltac:(discriminate) eq_refl eq_refl eq_refl
                  to_tensor_contract spec_divisible_pad_contract ones_model_contract)
           eq_refl).
Defined.

(** ** Reusing one engine *)

(** X5: a successful [patch] replaces the windows and the transform, and
    [forward] records [_h] and [_w] itself, so nothing of what the engine went
    through before the [patch] (fresh, consumed by an earlier [forward], or
    left behind by a failed one) shows in the next [forward], except its
    device: [patch] does not reset [self.device], which an earlier [forward]
    may have set from its [device] keyword argument.  For two engines that
    agree on the device, or when the call names one, what the [forward] after
    the same [patch] returns or raises, and the model calls it makes, are the
    same. *)
Theorem patch_resets_all_but_device sliding_window pad derr self1 self2
    input_size patch_size stride tr model image kw ws :
  sliding_window input_size patch_size stride = Ok ws ->
  kw_device kw <> None \/ device self1 = device self2 ->
  returned (forward pad derr
              (fst (patch sliding_window self1 input_size patch_size stride tr))
              model image kw)
  = returned (forward pad derr
                (fst (patch sliding_window self2 input_size patch_size stride tr))
                model image kw) /\
  calls (forward pad derr
           (fst (patch sliding_window self1 input_size patch_size stride tr))
           model image kw)
  = calls (forward pad derr
             (fst (patch sliding_window self2 input_size patch_size stride tr))
             model image kw).
Proof.
  intros Hsw Hdev. rewrite !(patch_stores sliding_window _ _ _ _ _ ws Hsw). cbn [fst].
  apply forward_same_configuration; try reflexivity.
  unfold with_device. cbn [device set_device set_transforms set_wins].
  destruct (kw_device kw) as [d|]; [reflexivity|].
  destruct Hdev as [Hk|Hd]; [congruence|exact Hd].
Qed.

Lemma patch_resets_all_but_device_witness :
  returned (forward spec_divisible_pad no_cuda
              (fst (patch spec_sliding_window (after run_10x10) (10, 10) (6, 6) 4
                      (Some to_tensor)))
              ones_model image_10x10 kw_div4)
  = returned run_10x10.
Proof.
  exact (proj1 (patch_resets_all_but_device spec_sliding_window
                  spec_divisible_pad no_cuda (after run_10x10) (__init__ false)
                  (10, 10) (6, 6) 4 (Some to_tensor) ones_model image_10x10 kw_div4
                  wins_10x10 eq_refl (or_intror eq_refl))).
Defined.

(** ** The evaluation loop *)

(** Without a [device] keyword argument, [forward] leaves [self.device] as
    it was. *)
Lemma forward_keeps_device pad derr self model image kw :
  kw_device kw = None ->
  device (after (forward pad derr self model image kw)) = device self.
Proof.
  intros Hk.
  destruct (wins self) as [|[ws|]] eqn:Hw;
    try (unfold forward; rewrite Hw; reflexivity).
  destruct (shape image) as [|H [|W [|Cc [|? ?]]]] eqn:Hs;
    try (unfold forward; rewrite Hw, Hs; reflexivity).
  rewrite (forward_configured pad derr self model image kw ws H W Cc Hw Hs).
  cbv zeta.
  destruct (run_windows _ _ _ _ _ _ _ _) as [c [outs|err]]; cbn [after];
    unfold with_device; cbn [device set_device set_wins set_hw]; rewrite Hk;
    reflexivity.
Qed.

Section DriverFacts.

Variable sliding_window : Z * Z -> Z * Z -> Z -> result (list window).
Variable pad : pyarray -> Z -> result pyarray.
Variable derr : torch_device -> option pyerr.
Variable image_trans : transform.
Variable argmax_dim1 : tensor -> result tensor.
Variable miou_forward : tensor -> tensor -> result unit.
Variable submit : tensor -> string -> result unit.
Variable patch_size : Z.
Variable model : model_fn.

Let eval_image' :=
  eval_image sliding_window pad derr image_trans argmax_dim1 miou_forward submit
    patch_size model.
Let eval_item' :=
  eval_item sliding_window pad derr image_trans argmax_dim1 miou_forward submit
    patch_size model.
Let eval_images' :=
  eval_images sliding_window pad derr image_trans argmax_dim1 miou_forward submit
    patch_size model.

(** The calls and the outcome of one item depend on the helper through its
    device only. *)
Lemma eval_image_same_device e1 e2 b :
  device e1 = device e2 ->
  snd (fst (eval_image' e1 b)) = snd (fst (eval_image' e2 b)) /\
  snd (eval_image' e1 b) = snd (eval_image' e2 b).
Proof.
  intros Hd. unfold eval_image', eval_image.
  destruct (firstn 2 (shape (blob_image b))) as [|h [|w [|? ?]]];
    try (split; reflexivity).
  destruct (sliding_window (h, w) (patch_size, patch_size) 512) as [ws|err] eqn:Hsw.
  - rewrite !(patch_stores sliding_window _ _ _ _ _ ws Hsw). cbv zeta.
    set (r1 := forward pad derr (set_transforms (set_wins e1 (Some ws)) (Some image_trans))
                 model (blob_image b) (mkKwargs None (Some 32))).
    set (r2 := forward pad derr (set_transforms (set_wins e2 (Some ws)) (Some image_trans))
                 model (blob_image b) (mkKwargs None (Some 32))).
    assert (Hr : returned r1 = returned r2)
      by (apply forward_same_configuration; (reflexivity || exact Hd)).
    destruct (returned r1) as [out|err]; rewrite <- Hr; [|split; reflexivity].
    destruct (argmax_dim1 out) as [out'|err]; [|split; reflexivity].
    destruct (blob_mask b) as [mask|]; [|split; reflexivity].
    destruct (miou_forward mask out'); split; reflexivity.
  - rewrite !(patch_propagates sliding_window _ _ _ _ _ err Hsw). split; reflexivity.
Qed.

(** The loop never changes the helper's device. *)
Lemma eval_image_keeps_device e b : device (fst (fst (eval_image' e b))) = device e.
Proof.
  unfold eval_image', eval_image.
  destruct (firstn 2 (shape (blob_image b))) as [|h [|w [|? ?]]]; try reflexivity.
  destruct (sliding_window (h, w) (patch_size, patch_size) 512) as [ws|err] eqn:Hsw.
  - rewrite !(patch_stores sliding_window _ _ _ _ _ ws Hsw). cbv zeta.
    set (e' := set_transforms (set_wins e (Some ws)) (Some image_trans)).
    pose proof (forward_keeps_device pad derr e' model (blob_image b)
                  (mkKwargs None (Some 32)) eq_refl) as Hk.
    change (device e') with (device e) in Hk.
    destruct (returned (forward pad derr e' model (blob_image b) _)) as [out|err];
      [|exact Hk].
    destruct (argmax_dim1 out) as [out'|err]; [|exact Hk].
    destruct (blob_mask b) as [mask|]; [|exact Hk].
    destruct (miou_forward mask out'); exact Hk.
  - rewrite !(patch_propagates sliding_window _ _ _ _ _ err Hsw). reflexivity.
Qed.

Lemma eval_item_same_device e1 e2 item :
  device e1 = device e2 ->
  snd (fst (eval_item' e1 item)) = snd (fst (eval_item' e2 item)) /\
  snd (eval_item' e1 item) = snd (eval_item' e2 item).
Proof.
  intros Hd. destruct item as [b|err]; [|split; reflexivity].
  exact (eval_image_same_device e1 e2 b Hd).
Qed.

Lemma eval_item_keeps_device e item : device (fst (fst (eval_item' e item))) = device e.
Proof. destruct item as [b|err]; [apply eval_image_keeps_device|reflexivity]. Qed.

Lemma eval_images_same_device e1 e2 items :
  device e1 = device e2 ->
  snd (fst (eval_images' e1 items)) = snd (fst (eval_images' e2 items)) /\
  snd (eval_images' e1 items) = snd (eval_images' e2 items).
Proof.
  revert e1 e2. induction items as [|item items IH]; intros e1 e2 Hd;
    [split; reflexivity|].
  unfold eval_images' in *. cbn [eval_images].
  destruct (eval_item_same_device e1 e2 item Hd) as [Hev Hr].
  pose proof (eval_item_keeps_device e1 item) as Hk1.
  pose proof (eval_item_keeps_device e2 item) as Hk2.
  unfold eval_item' in *.
  destruct (eval_item _ _ _ _ _ _ _ _ _ e1 item) as [[e1' ev1] r1].
  destruct (eval_item _ _ _ _ _ _ _ _ _ e2 item) as [[e2' ev2] r2].
  cbn [fst snd] in *. subst ev2 r2.
  destruct r1 as [[]|err]; [|split; reflexivity].
  destruct (IH e1' e2' ltac:(congruence)) as [Hev' Hr'].
  destruct (eval_images _ _ _ _ _ _ _ _ _ e1' items) as [[e1'' ev1'] r1'].
  destruct (eval_images _ _ _ _ _ _ _ _ _ e2' items) as [[e2'' ev2'] r2'].
  cbn [fst snd] in *. subst ev2' r2'. split; reflexivity.
Qed.

(** The loop on items that all return: every item is evaluated, and the
    calls are those of the items in turn. *)
Lemma eval_images_all_return e0 e items :
  device e = device e0 ->
  (forall item, In item items -> snd (eval_item' e0 item) = Ok tt) ->
  snd (fst (eval_images' e items))
  = flat_map (fun item => snd (fst (eval_item' e0 item))) items /\
  snd (eval_images' e items) = Ok tt.
Proof.
  revert e. induction items as [|item items IH]; intros e Hd Hall;
    [split; reflexivity|].
  unfold eval_images' in *. cbn [eval_images flat_map].
  destruct (eval_item_same_device e e0 item Hd) as [Hev Hr].
  pose proof (eval_item_keeps_device e item) as Hk.
  rewrite (Hall item (or_introl eq_refl)) in Hr.
  unfold eval_item' in *.
  destruct (eval_item _ _ _ _ _ _ _ _ _ e item) as [[e' ev] r].
  cbn [fst snd] in *. subst r. rewrite <- Hev.
  destruct (IH e' ltac:(congruence) (fun it Hin => Hall it (or_intror Hin)))
    as [Hev' Hr'].
  destruct (eval_images _ _ _ _ _ _ _ _ _ e' items) as [[e'' ev'] r'].
  cbn [fst snd] in *. subst ev' r'. split; reflexivity.
Qed.

(** The loop stops at the first item that raises. *)
Lemma eval_images_first_raise e0 e pre item post err :
  device e = device e0 ->
  (forall it, In it pre -> snd (eval_item' e0 it) = Ok tt) ->
  snd (eval_item' e0 item) = Raise err ->
  snd (fst (eval_images' e (pre ++ item :: post)))
  = flat_map (fun it => snd (fst (eval_item' e0 it))) (pre ++ [item]) /\
  snd (eval_images' e (pre ++ item :: post)) = Raise err.
Proof.
  revert e. induction pre as [|it pre IH]; intros e Hd Hpre Hitem.
  - unfold eval_images' in *. cbn [app eval_images flat_map].
    destruct (eval_item_same_device e e0 item Hd) as [Hev Hr].
    rewrite Hitem in Hr. unfold eval_item' in *.
    destruct (eval_item _ _ _ _ _ _ _ _ _ e item) as [[e' ev] r].
    cbn [fst snd] in *. subst r. rewrite <- Hev, app_nil_r. split; reflexivity.
  - unfold eval_images' in *. cbn [app eval_images flat_map].
    destruct (eval_item_same_device e e0 it Hd) as [Hev Hr].
    pose proof (eval_item_keeps_device e it) as Hk.
    rewrite (Hpre it (or_introl eq_refl)) in Hr.
    unfold eval_item' in *.
    destruct (eval_item _ _ _ _ _ _ _ _ _ e it) as [[e' ev] r].
    cbn [fst snd] in *. subst r. rewrite <- Hev.
    destruct (IH e' ltac:(congruence) (fun i Hin => Hpre i (or_intror Hin)) Hitem)
      as [Hev' Hr'].
    destruct (eval_images _ _ _ _ _ _ _ _ _ e' (pre ++ item :: post))
      as [[e'' ev'] r'].
    cbn [fst snd] in *. subst ev' r'. split; reflexivity.
Qed.

End DriverFacts.

(** X6: the loop of [run] plans every image before running it and never
    passes a device, so of the helper object it reuses only the device, which
    the loop does not change, can influence an image: the calls the loop
    makes on its collaborators and the exception it ends with, if any, are the
    same for all helpers that agree on their device, whatever their windows,
    transform, [_h] and [_w] at entry. *)
Theorem eval_images_depend_on_helper_device sliding_window pad derr image_trans
    argmax_dim1 miou_forward submit patch_size model self1 self2 items :
  device self1 = device self2 ->
  snd (fst (eval_images sliding_window pad derr image_trans argmax_dim1
              miou_forward submit patch_size model self1 items))
  = snd (fst (eval_images sliding_window pad derr image_trans argmax_dim1
                miou_forward submit patch_size model self2 items)) /\
  snd (eval_images sliding_window pad derr image_trans argmax_dim1
         miou_forward submit patch_size model self1 items)
  = snd (eval_images sliding_window pad derr image_trans argmax_dim1
           miou_forward submit patch_size model self2 items).
Proof. intros Hd. apply eval_images_same_device. exact Hd. Qed.

Lemma eval_images_depend_on_helper_device_witness :
  snd (eval_images spec_sliding_window spec_divisible_pad no_cuda to_tensor
         class_of_one any_miou any_submit 896 ones_model (after run_10x10)
         items_10x10)
  = snd (eval_images spec_sliding_window spec_divisible_pad no_cuda to_tensor
           class_of_one any_miou any_submit 896 ones_model (__init__ false)
           items_10x10).
Proof.
  exact (proj2 (eval_images_depend_on_helper_device spec_sliding_window
                  spec_divisible_pad no_cuda to_tensor class_of_one any_miou
                  any_submit 896 ones_model (after run_10x10) (__init__ false)
                  items_10x10 eq_refl)).
Defined.

(** X7: nothing is caught in [run].  It raises what loading the model,
    moving it to CUDA or setting up the data raises, before any image is
    looked at.  Otherwise, with each step of the loop taken on the new
    helper: when every step returns, the calls made on the collaborators are
    those of the steps in turn followed by the summary, and [run] ends as the
    summary does; when some step raises after the steps before it returned,
    [run] raises that exception, the calls made are those of the steps up to
    and including that one, no later item is looked at and no summary is
    written. *)
Theorem run_eval_stops_at_first_error sliding_window pad derr image_trans
    argmax_dim1 miou_forward submit patch_size cuda_is_available build_and_load
    open_data summary :
  let r := run_eval sliding_window pad derr image_trans argmax_dim1 miou_forward
             submit patch_size cuda_is_available build_and_load open_data summary in
  let step model :=
    eval_item sliding_window pad derr image_trans argmax_dim1 miou_forward submit
      patch_size model (__init__ cuda_is_available) in
  (forall err, build_and_load = Raise err -> r = ([], Raise err)) /\
  (forall model err,
      build_and_load = Ok model -> derr cuda = Some err -> r = ([], Raise err)) /\
  (forall model err,
      build_and_load = Ok model -> derr cuda = None -> open_data = Raise err ->
      r = ([], Raise err)) /\
  (forall model items,
      build_and_load = Ok model -> derr cuda = None -> open_data = Ok items ->
      ((forall item, In item items -> snd (step model item) = Ok tt) ->
       r = (flat_map (fun item => snd (fst (step model item))) items ++ [Summary],
            summary)) /\
      (forall pre item post err,
          items = pre ++ item :: post ->
          (forall it, In it pre -> snd (step model it) = Ok tt) ->
          snd (step model item) = Raise err ->
          r = (flat_map (fun it => snd (fst (step model it))) (pre ++ [item]),
               Raise err) /\
          ~ In Summary (fst r))).
Proof.
  cbv zeta. unfold run_eval. split; [intros err ->; reflexivity|].
  split; [intros model err -> ->; reflexivity|].
  split; [intros model err -> -> ->; reflexivity|].
  intros model items -> -> ->. split.
  - intros Hall.
    destruct (eval_images_all_return sliding_window pad derr image_trans argmax_dim1
                miou_forward submit patch_size model (__init__ cuda_is_available)
                (__init__ cuda_is_available) items eq_refl Hall) as [Hev Hr].
    destruct (eval_images _ _ _ _ _ _ _ _ _ _ items) as [[e ev] r].
    cbn [fst snd] in *. subst ev r. reflexivity.
  - intros pre item post err -> Hpre Hitem.
    destruct (eval_images_first_raise sliding_window pad derr image_trans argmax_dim1
                miou_forward submit patch_size model (__init__ cuda_is_available)
                (__init__ cuda_is_available) pre item post err eq_refl Hpre Hitem)
      as [Hev Hr].
    destruct (eval_images _ _ _ _ _ _ _ _ _ _ (pre ++ item :: post)) as [[e ev] r].
    cbn [fst snd] in *. subst ev r. split; [reflexivity|].
    cbn [fst]. rewrite in_flat_map. intros (it & _ & Hin).
    destruct it as [b|e']; [|destruct Hin].
    cbn [eval_item] in Hin. unfold eval_image in Hin.
    destruct (firstn 2 (shape (blob_image b))) as [|h [|w [|? ?]]];
      try destruct Hin.
    destruct (patch _ _ _ _ _ _) as [e1 [[]|e2]]; [|destruct Hin].
    cbv zeta in Hin.
    destruct (returned _) as [out|e2]; [|destruct Hin].
    destruct (argmax_dim1 out) as [out'|e2]; [|destruct Hin].
    destruct (blob_mask b) as [mask|].
    + destruct (miou_forward mask out'); cbn [fst snd In] in Hin;
        repeat (destruct Hin as [Hin|Hin]; [discriminate|]); exact Hin.
    + cbn [fst snd In] in Hin.
      repeat (destruct Hin as [Hin|Hin]; [discriminate|]); exact Hin.
Qed.

Lemma run_eval_stops_at_first_error_witness :
  run_eval spec_sliding_window spec_divisible_pad with_cuda to_tensor
    class_of_one any_miou any_submit 896 true (Ok ones_model)
    (Ok (items_10x10 ++ Raise (External "OSError") :: items_10x10)) (Ok tt)
  = (flat_map
       (fun it =>
          snd (fst (eval_item spec_sliding_window spec_divisible_pad with_cuda
                      to_tensor class_of_one any_miou any_submit 896 ones_model
                      (__init__ true) it)))
       (items_10x10 ++ [Raise (External "OSError")]),
     Raise (External "OSError")).
Proof.
  refine (proj1 (proj2 (proj2 (proj2 (proj2
            (run_eval_stops_at_first_error spec_sliding_window spec_divisible_pad
               with_cuda to_tensor class_of_one any_miou any_submit 896 true
               (Ok ones_model)
               (Ok (items_10x10 ++ Raise (External "OSError") :: items_10x10))
               (Ok tt)))) ones_model _ eq_refl eq_refl eq_refl)
            items_10x10 (Raise (External "OSError")) items_10x10
            (External "OSError") eq_refl _ eq_refl)).
  intros it [<-|[]]. reflexivity.
Defined.

(** ** Pixels covered once *)

(** Rounding a canonical mantissa followed by [k] zero bits is exact, for
    either sign. *)
Lemma round_aux_canonical s q k e :
  fexp 24 128 (Zpos (digits2_pos q) + (e + Z.of_nat k)) = e + Z.of_nat k ->
  e + Z.of_nat k <= 104 ->
  binary_round_aux 24 128 s (Zpos (shl q k)) e loc_Exact
  = S754_finite s q (e + Z.of_nat k).
Proof.
  intros Hc He.
  unfold binary_round_aux, shr_fexp, Zdigits2.
  rewrite digits_shl.
  replace (Zpos (digits2_pos q) + Z.of_nat k + e)
    with (Zpos (digits2_pos q) + (e + Z.of_nat k)) by lia.
  rewrite Hc.
  replace (e + Z.of_nat k - e) with (Z.of_nat k) by lia.
  unfold shr_record_of_loc.
  assert (Hs : shr (Build_shr_record (Zpos (shl q k)) false false) e (Z.of_nat k)
               = (Build_shr_record (Zpos q) false false, e + Z.of_nat k)).
  { destruct (Z.of_nat k) as [|p|p] eqn:Hk; try lia.
    - assert (k = 0%nat) by lia. subst k. simpl. f_equal. lia.
    - unfold shr. rewrite iter_pos_nat.
      replace (Pos.to_nat p) with k by lia. rewrite shr_shl. reflexivity. }
  rewrite Hs. cbn [shr_m loc_of_shr_record round_nearest_even Zdigits2]. rewrite Hc.
  replace (e + Z.of_nat k - (e + Z.of_nat k)) with 0 by lia.
  cbn [shr shr_m shr_record_of_loc].
  replace (e + Z.of_nat k <=? 128 - 24) with true by (symmetry; apply Z.leb_le; lia).
  reflexivity.
Qed.

Lemma div_eucl_exact a b : 0 < b -> Z.div_eucl (a * b) b = (a, 0).
Proof.
  intros Hb.
  rewrite (surjective_pairing (Z.div_eucl (a * b) b)).
  change (fst (Z.div_eucl (a * b) b)) with ((a * b) / b).
  change (snd (Z.div_eucl (a * b) b)) with ((a * b) mod b).
  rewrite Z.div_mul, Z.mod_mul by lia. reflexivity.
Qed.

Lemma f32_div_one x : valid_binary 24 128 x = true -> F32.div x F32.one = x.
Proof.
  destruct x as [s|s| |s m e]; intros Hv.
  - destruct s; reflexivity.
  - destruct s; reflexivity.
  - reflexivity.
  - cbn [valid_binary] in Hv. unfold bounded, canonical_mantissa in Hv.
    apply andb_prop in Hv as [Hc He]. apply Z.eqb_eq in Hc. apply Z.leb_le in He.
    unfold F32.div, F32.one, F32.prec, F32.emax, SFdiv, SFdiv_core_binary.
    change (Zdigits2 (Zpos 8388608)) with 24. unfold Zdigits2.
    set (d := Zpos (digits2_pos m)) in *.
    assert (Hd : 0 < d) by (unfold d; lia).
    unfold fexp, emin in Hc.
    assert (Hcase : (d + e - 24 = e /\ -149 < e) \/ e = -149) by lia.
    destruct Hcase as [[Hn Hlt]|Hsub].
    + replace (Z.min (fexp 24 128 (d + e - (24 + -23))) (e - -23)) with (e - 1)
        by (unfold fexp, emin; lia).
      replace (e - -23 - (e - 1)) with 24 by lia.
      rewrite Z.shiftl_mul_pow2 by lia.
      replace (Zpos m * 2 ^ 24) with ((Zpos m * 2) * 8388608) by lia.
      rewrite div_eucl_exact by lia.
      change (new_location 8388608 0) with loc_Exact.
      replace (Zpos m * 2) with (Zpos (shl m 1)) by (rewrite shl_val; lia).
      rewrite round_aux_canonical.
      * rewrite xorb_false_r. f_equal. lia.
      * fold d. unfold fexp, emin. simpl Z.of_nat. lia.
      * simpl Z.of_nat. lia.
    + replace (Z.min (fexp 24 128 (d + e - (24 + -23))) (e - -23)) with e
        by (unfold fexp, emin; lia).
      replace (e - -23 - e) with 23 by lia.
      rewrite Z.shiftl_mul_pow2 by lia.
      replace (Zpos m * 2 ^ 23) with (Zpos m * 8388608) by lia.
      rewrite div_eucl_exact by lia.
      change (new_location 8388608 0) with loc_Exact.
      change (Zpos m) with (Zpos (shl m 0)).
      rewrite round_aux_canonical.
      * rewrite xorb_false_r. f_equal. simpl Z.of_nat. lia.
      * fold d. unfold fexp, emin. simpl Z.of_nat. lia.
      * simpl Z.of_nat. lia.
Qed.

(** X8: at a pixel covered by exactly one window, the merged value is the
    value of that window's prediction there, bit for bit: accumulating onto
    [+0] and dividing by the count 1 round nothing.  The one exception is a
    prediction of [-0], which comes out as [+0]. *)
Theorem merge_single_coverage_exact self h w l r p win b c y x :
  _h self = Some h -> _w self = Some w -> merge self l = Ok r ->
  covering h w y x l = [(p, win)] ->
  valid_binary 24 128 (contribution h w p win b c y x) = true ->
  data r [b; c; y; x]
  = match contribution h w p win b c y x with
    | S754_zero _ => F32.zero
    | v => v
    end.
Proof.
  intros Hh Hw Hr Hcov Hv.
  destruct (merge_inv self h w l r Hh Hw Hr)
    as (_ & _ & _ & _ & _ & _ & _ & _ & _ & _ & Hd).
  rewrite Hd. unfold contributions. rewrite Hcov. cbn [map length fst snd count_up].
  change (F32.add F32.zero F32.one) with F32.one.
  unfold F32.sum. cbn [fold_left].
  destruct (contribution h w p win b c y x) as [s|s| |s m e] eqn:E.
  - destruct s; reflexivity.
  - destruct s; reflexivity.
  - reflexivity.
  - change (F32.add F32.zero (S754_finite s m e)) with (S754_finite s m e).
    apply f32_div_one. exact Hv.
Qed.

Lemma merge_single_coverage_exact_witness :
  data (get_ok (merge (engine_hw 1 1) [px (F32.of_Z 3)])) [0; 0; 0; 0] = F32.of_Z 3.
Proof.
  exact (merge_single_coverage_exact (engine_hw 1 1) 1 1 [px (F32.of_Z 3)] _
           (const_tensor [1; 1; 1; 1] (F32.of_Z 3)) (0, 0, 1, 1) 0 0 0 0
           eq_refl eq_refl eq_refl eq_refl eq_refl).
Defined.


(** * The decoder of module/farseg.py *)

Lemma collect_inv {A B} (f : A -> result B) l bs :
  collect f l = Ok bs <-> Forall2 (fun a b => f a = Ok b) l bs.
Proof.
  revert bs. induction l as [|a l IH]; intros bs; cbn [collect].
  - split; [intros [= <-]; constructor|intros H; inversion H; reflexivity].
  - split.
    + destruct (f a) as [b|e] eqn:Hb; cbn [bind]; [|discriminate].
      destruct (collect f l) as [bs'|e] eqn:Hc; cbn [bind]; [|discriminate].
      intros [= <-]. constructor; [exact Hb|]. apply IH. reflexivity.
    + intros H. inversion H as [|a' b l' bs' Hb HF]; subst.
      rewrite Hb. cbn [bind]. apply IH in HF. rewrite HF. reflexivity.
Qed.

Lemma apply_layers_app mode a b sh :
  apply_layers mode (a ++ b) sh
  = (s <- apply_layers mode a sh ;; apply_layers mode b s).
Proof.
  revert sh. induction a as [|l a IH]; intros sh; [reflexivity|].
  cbn [app apply_layers]. destruct (layer_shape mode l sh) as [sh'|e]; cbn [bind];
    [apply IH|reflexivity].
Qed.

(** With two maps or more in the batch there is more than one value per
    channel. *)
Lemma batch_values n q h w : 1 < n -> 0 < h -> 0 < w -> n * q * (h * w) <> 1.
Proof.
  intros Hn Hh Hw E.
  assert (Hp : 1 <= h * w) by nia.
  destruct (Z_le_gt_dec q 0) as [Hq|Hq]; nia.
Qed.

Lemma decoder_norm_shape mode out_channels nl n h w :
  decoder_norm out_channels nl -> norm_accepts mode nl n -> 0 < h -> 0 < w ->
  layer_shape mode nl [n; out_channels; h; w] = Ok [n; out_channels; h; w].
Proof.
  intros [->|(g & -> & Hg & Hmod)] Hacc Hh Hw; cbn [layer_shape fold_right].
  - assert (E : mode && (n * h * w =? 1) = false).
    { destruct Hacc as [[-> _]|Hn]; [reflexivity|].
      apply andb_false_iff. right. apply Z.eqb_neq.
      pose proof (batch_values n 1 h w Hn Hh Hw). lia. }
    rewrite E, Z.eqb_refl. reflexivity.
  - destruct Hacc as [[_ [f Hf]]|Hn]; [discriminate|].
    assert (E : n * out_channels / g = n * (out_channels / g)).
    { apply Z.divide_div_mul_exact; [exact Hg|].
      apply Z.mod_divide; assumption. }
    rewrite E.
    replace (n * (out_channels / g) * (h * (w * 1)) =? 1) with false.
    + rewrite Z.eqb_refl. reflexivity.
    + symmetry. apply Z.eqb_neq.
      pose proof (batch_values n (out_channels / g) h w Hn Hh Hw).
      replace (h * (w * 1)) with (h * w) by lia. assumption.
Qed.

Lemma conv3_keeps n : conv_out n 3 1 1 = n.
Proof. unfold conv_out. rewrite Z.div_1_r. lia. Qed.

Lemma conv3_shape mode cin cout n h w :
  0 < h -> 0 < w ->
  layer_shape mode (Conv2d cin cout 3 1 1) [n; cin; h; w] = Ok [n; cout; h; w].
Proof.
  intros Hh Hw. cbn [layer_shape]. rewrite Z.eqb_refl.
  replace (h + 2 * 1 <? 3) with false by (symmetry; apply Z.ltb_ge; lia).
  replace (w + 2 * 1 <? 3) with false by (symmetry; apply Z.ltb_ge; lia).
  cbn [negb orb]. rewrite !conv3_keeps. reflexivity.
Qed.

Lemma relu_shape mode sh : layer_shape mode ReLU sh = Ok sh.
Proof. reflexivity. Qed.

Lemma upsample_shape mode k n c h w :
  0 < k -> 0 < c -> 0 < h -> 0 < w ->
  layer_shape mode (UpsamplingBilinear2d k) [n; c; h; w] = Ok [n; c; h * k; w * k].
Proof.
  intros Hk Hc Hh Hw. cbn [layer_shape].
  replace (c <=? 0) with false by (symmetry; apply Z.leb_gt; lia).
  replace (h <=? 0) with false by (symmetry; apply Z.leb_gt; lia).
  replace (w <=? 0) with false by (symmetry; apply Z.leb_gt; lia).
  replace (k <=? 0) with false by (symmetry; apply Z.leb_gt; lia).
  reflexivity.
Qed.

(** One decoder layer: a 3 by 3 convolution to [out_channels], the norm,
    and the doubling when there is one. *)
Lemma decoder_layer_shape mode cin out_channels nl up n h w :
  decoder_norm out_channels nl -> norm_accepts mode nl n -> 0 < h -> 0 < w ->
  apply_layers mode [Conv2d cin out_channels 3 1 1; nl; ReLU; up] [n; cin; h; w]
  = layer_shape mode up [n; out_channels; h; w].
Proof.
  intros Hn Hacc Hh Hw. cbn [apply_layers].
  rewrite conv3_shape by assumption. cbn [bind].
  rewrite (decoder_norm_shape _ _ _ _ _ _ Hn Hacc Hh Hw).
  cbn [bind]. rewrite relu_shape. cbn [bind].
  destruct (layer_shape mode up _); reflexivity.
Qed.

(** What the constructor's first step leaves: a norm that [make_norm]
    turns into a norm layer over [out_channels], never into [Identity];
    for [nn.BatchNorm2d] it is the batch normalisation. *)
Lemma make_norm_inv norm_fn out_channels num_groups_gn args nl :
  match norm_fn with
  | norm_BatchNorm2d => Ok (bn_args out_channels)
  | norm_GroupNorm =>
      match num_groups_gn with
      | None => Raise ValueError
      | Some g => Ok (gn_args g out_channels)
      end
  | _ => Raise ValueError
  end = Ok args ->
  make_norm norm_fn args = Ok nl ->
  decoder_norm out_channels nl /\
  (norm_fn = norm_BatchNorm2d -> nl = BatchNorm2d out_channels).
Proof.
  destruct norm_fn; try discriminate.
  - intros [= <-] [= <-]. split; [left|]; reflexivity.
  - destruct num_groups_gn as [g|]; [|discriminate]. intros [= <-]. cbn [make_norm].
    destruct (Z.eqb_spec g 0) as [|Hg]; [discriminate|].
    destruct (Z.eqb_spec (out_channels mod g) 0) as [Hmod|]; [|discriminate].
    intros [= <-]. split; [|discriminate]. right. exists g. repeat split; assumption.
Qed.

Section DecoderBlock.

Variable mode : bool.
Variables in_channels out_channels n : Z.
Variable norm_fn : norm_fn_arg.
Variable args : norm_args.
Hypothesis out_pos : 0 < out_channels.
Hypothesis norm_ok :
  forall nl, make_norm norm_fn args = Ok nl ->
             decoder_norm out_channels nl /\ norm_accepts mode nl n.

(** [k] doubling layers from index [i] on multiply height and width by
    [2^k]. *)
Lemma doubling_layers_shape u k i ls c h w :
  u <> 0 ->
  collect (decoder_layer in_channels out_channels norm_fn args u)
    (map Z.of_nat (seq i k)) = Ok ls ->
  c = (if Z.of_nat i =? 0 then in_channels else out_channels) ->
  0 < h -> 0 < w ->
  apply_layers mode (concat ls) [n; c; h; w]
  = Ok [n; (if (k =? 0)%nat then c else out_channels);
        h * 2 ^ Z.of_nat k; w * 2 ^ Z.of_nat k].
Proof.
  intros Hu. revert i ls c h w. induction k as [|k IH]; intros i ls c h w Hc Ec Hh Hw.
  - cbn in Hc. injection Hc as <-. cbn [concat apply_layers Nat.eqb Z.of_nat].
    rewrite Z.pow_0_r, !Z.mul_1_r. reflexivity.
  - cbn [seq map collect] in Hc. unfold decoder_layer at 1 in Hc.
    destruct (make_norm norm_fn args) as [nl|e] eqn:Hnl; cbn [bind] in Hc;
      [|discriminate].
    destruct (collect _ (map Z.of_nat (seq (S i) k))) as [ls'|e] eqn:Hls;
      cbn [bind] in Hc; [|discriminate].
    injection Hc as <-. cbn [concat]. rewrite apply_layers_app.
    replace (u =? 0) with false by (symmetry; apply Z.eqb_neq; exact Hu).
    rewrite <- Ec.
    destruct (norm_ok nl eq_refl) as [Hdn Hacc].
    rewrite (decoder_layer_shape mode c out_channels nl _ n h w Hdn Hacc Hh Hw).
    rewrite upsample_shape by (assumption || lia).
    cbn [bind].
    assert (Ei : out_channels
                 = (if Z.of_nat (S i) =? 0 then in_channels else out_channels)).
    { destruct (Z.eqb_spec (Z.of_nat (S i)) 0); [lia|reflexivity]. }
    rewrite (IH (S i) ls' out_channels (h * 2) (w * 2) Hls Ei) by lia.
    cbn [Nat.eqb]. rewrite Nat2Z.inj_succ, Z.pow_succ_r by lia.
    replace (h * 2 * 2 ^ Z.of_nat k) with (h * (2 * 2 ^ Z.of_nat k)) by lia.
    replace (w * 2 * 2 ^ Z.of_nat k) with (w * (2 * 2 ^ Z.of_nat k)) by lia.
    destruct (k =? 0)%nat; reflexivity.
Qed.

(** A block for an input stride not finer than the output stride brings a
    feature map of that level to the output stride. *)
Lemma decoder_block_shape out_os in_os block h w :
  decoder_block in_channels out_channels norm_fn args out_os in_os = Ok block ->
  Z.log2 out_os <= Z.log2 in_os -> 0 < h -> 0 < w ->
  apply_block mode block [n; in_channels; h; w]
  = Ok [n; out_channels; h * 2 ^ (Z.log2 in_os - Z.log2 out_os);
        w * 2 ^ (Z.log2 in_os - Z.log2 out_os)].
Proof.
  unfold decoder_block, int_log2.
  destruct (in_os <=? 0); [discriminate|]. destruct (out_os <=? 0); [discriminate|].
  cbn [bind]. set (u := Z.log2 in_os - Z.log2 out_os).
  intros Hb Hle Hh Hw. unfold apply_block.
  destruct (Z.eqb_spec u 0) as [E|E].
  - rewrite E in *. cbn [py_range Z.to_nat Pos.to_nat Pos.iter_op seq map collect] in Hb.
    unfold decoder_layer in Hb.
    destruct (make_norm norm_fn args) as [nl|e] eqn:Hnl; cbn [bind] in Hb;
      [|discriminate].
    injection Hb as <-. cbn [concat Z.eqb]. rewrite app_nil_r.
    destruct (norm_ok nl eq_refl) as [Hdn Hacc].
    rewrite (decoder_layer_shape _ _ _ _ _ _ _ _ Hdn Hacc Hh Hw).
    cbn [layer_shape]. rewrite Z.pow_0_r, !Z.mul_1_r. reflexivity.
  - unfold py_range in Hb.
    rewrite (doubling_layers_shape u (Z.to_nat u) 0 block in_channels h w E Hb)
      by (assumption || reflexivity).
    assert (0 < u) by lia.
    replace (Z.to_nat u =? 0)%nat with false by (symmetry; apply Nat.eqb_neq; lia).
    rewrite Z2Nat.id by lia. reflexivity.
Qed.

End DecoderBlock.

(** A block for an input stride finer than the output stride has no layer. *)
Lemma decoder_block_empty in_channels out_channels norm_fn args out_os in_os block :
  decoder_block in_channels out_channels norm_fn args out_os in_os = Ok block ->
  Z.log2 in_os < Z.log2 out_os -> block = [].
Proof.
  unfold decoder_block, int_log2.
  destruct (in_os <=? 0); [discriminate|]. destruct (out_os <=? 0); [discriminate|].
  cbn [bind]. intros Hb Hlt.
  replace (Z.log2 in_os - Z.log2 out_os =? 0) with false in Hb
    by (symmetry; apply Z.eqb_neq; lia).
  unfold py_range in Hb.
  replace (Z.to_nat (Z.log2 in_os - Z.log2 out_os)) with 0%nat in Hb by lia.
  cbn in Hb. injection Hb as <-. reflexivity.
Qed.

Lemma broadcast_rev_refl l : broadcast_rev l l = Ok l.
Proof.
  induction l as [|a l IH]; [reflexivity|].
  cbn [broadcast_rev]. rewrite IH. cbn [bind]. rewrite Z.eqb_refl. reflexivity.
Qed.

Lemma broadcast_shapes_refl sh : broadcast_shapes sh sh = Ok sh.
Proof.
  unfold broadcast_shapes. rewrite broadcast_rev_refl. cbn [bind].
  rewrite rev_involutive. reflexivity.
Qed.

(** Summing [k >= 1] tensors of one shape gives a tensor of that shape. *)
Lemma py_sum_same sh k :
  py_sum (TensorOf sh) (repeat sh k) = Ok (TensorOf sh) /\
  py_sum PyNumber (repeat sh (S k)) = Ok (TensorOf sh).
Proof.
  assert (H : py_sum (TensorOf sh) (repeat sh k) = Ok (TensorOf sh)).
  { induction k as [|k IH]; [reflexivity|].
    cbn [repeat py_sum add_value]. rewrite broadcast_shapes_refl. exact IH. }
  split; [exact H|]. cbn [repeat py_sum add_value bind]. exact H.
Qed.

(** The loop of the decoder when every block yields the same shape. *)
Lemma decoder_inner_same mode blocks feats pre sh :
  Forall2 (fun b f => apply_block mode b f = Ok sh) blocks feats ->
  decoder_inner mode blocks (pre ++ feats) (length pre)
  = Ok (repeat sh (length blocks)).
Proof.
  intros HF. revert pre. induction HF as [|b f blocks feats Hb _ IH]; intros pre.
  - reflexivity.
  - cbn [decoder_inner length repeat].
    rewrite nth_error_app2, Nat.sub_diag by lia. cbn [nth_error bind].
    rewrite Hb. cbn [bind].
    replace (pre ++ f :: feats) with ((pre ++ [f]) ++ feats)
      by (rewrite <- app_assoc; reflexivity).
    replace (S (length pre)) with (length (pre ++ [f]))
      by (rewrite length_app; cbn; lia).
    rewrite IH. reflexivity.
Qed.

(** The decoder on feature maps that line up at the output stride. *)
Lemma decoder_forward_aligned mode in_channels out_channels
    in_feat_output_strides out_feat_output_stride norm_fn num_groups_gn
    blocks feat_list n Hc Wc :
  AssymetricDecoder_init in_channels out_channels in_feat_output_strides
    out_feat_output_stride norm_fn num_groups_gn = Ok blocks ->
  in_feat_output_strides <> [] ->
  0 < out_channels ->
  (mode = false /\ norm_fn = norm_BatchNorm2d) \/ 1 < n ->
  Forall2 (lines_up n in_channels out_feat_output_stride Hc Wc)
    in_feat_output_strides feat_list ->
  AssymetricDecoder_forward mode blocks feat_list
  = Ok (TensorOf [n; out_channels; Hc; Wc]).
Proof.
  unfold AssymetricDecoder_init. intros Hinit Hne Hout Hfit Hfeat.
  match type of Hinit with
  | (args <- ?a ;; _) = _ => destruct a as [args|e] eqn:Hargs; [|discriminate]
  end.
  cbn [bind] in Hinit. apply collect_inv in Hinit.
  assert (Hnorm : forall nl, make_norm norm_fn args = Ok nl ->
                             decoder_norm out_channels nl /\ norm_accepts mode nl n).
  { intros nl Hnl.
    destruct (make_norm_inv _ _ _ _ _ Hargs Hnl) as [Hdn Hbn].
    split; [exact Hdn|].
    destruct Hfit as [[-> Hfn]|Hn]; [left|right; exact Hn].
    split; [reflexivity|]. exists out_channels. apply Hbn, Hfn. }
  assert (HF : Forall2 (fun b f => apply_block mode b f = Ok [n; out_channels; Hc; Wc])
                 blocks feat_list).
  { clear Hne. revert feat_list Hfeat.
    induction Hinit as [|s b strides blocks Hb _ IH]; intros feat_list Hfeat.
    - inversion Hfeat. constructor.
    - inversion Hfeat as [|s' f strides' feats' (Hle & h & w & -> & Hh & Hw & <- & <-) Hrest];
        subst.
      constructor; [|apply IH, Hrest].
      eapply decoder_block_shape; eassumption. }
  unfold AssymetricDecoder_forward.
  pose proof (decoder_inner_same mode blocks feat_list [] _ HF) as Hin.
  cbn [app length] in Hin. rewrite Hin. cbn [bind].
  destruct blocks as [|b blocks].
  - inversion Hinit; subst. congruence.
  - apply py_sum_same.
Qed.

(** X9: the decoder brings every pyramid level to the output stride.  When
    the constructor returns, and level [i] of the input is an
    [(n, in_channels, h_i, w_i)] tensor whose stride [s_i] is not finer than
    the output stride and satisfies
    [h_i * 2^(log2 s_i - log2 out) = Hc] (and likewise for the width),
    [forward] returns an [(n, out_channels, Hc, Wc)] tensor: all blocks
    produce one shape and their sum is well formed.  This holds in
    evaluation mode with batch normalisation, and in either mode and with
    either norm for a batch of two or more. *)
Theorem AssymetricDecoder_restores_common_stride mode in_channels out_channels
    in_feat_output_strides out_feat_output_stride norm_fn num_groups_gn
    blocks feat_list n Hc Wc :
  AssymetricDecoder_init in_channels out_channels in_feat_output_strides
    out_feat_output_stride norm_fn num_groups_gn = Ok blocks ->
  in_feat_output_strides <> [] ->
  strides_in_range (out_feat_output_stride :: in_feat_output_strides) ->
  0 < n -> 0 < out_channels ->
  (mode = false /\ norm_fn = norm_BatchNorm2d) \/ 1 < n ->
  Forall2 (lines_up n in_channels out_feat_output_stride Hc Wc)
    in_feat_output_strides feat_list ->
  AssymetricDecoder_forward mode blocks feat_list
  = Ok (TensorOf [n; out_channels; Hc; Wc]).
Proof.
  intros Hinit Hne _ _ Hout Hfit Hfeat.
  eapply decoder_forward_aligned; eassumption.
Qed.

Lemma AssymetricDecoder_restores_common_stride_witness :
  exists blocks,
    AssymetricDecoder_init 256 128 [4; 8; 16; 32] 4 norm_BatchNorm2d None = Ok blocks /\
    AssymetricDecoder_forward false blocks
      [[1; 256; 224; 224]; [1; 256; 112; 112]; [1; 256; 56; 56]; [1; 256; 28; 28]]
    = Ok (TensorOf [1; 128; 224; 224]).
Proof.
  eexists. split; [reflexivity|].
  apply (AssymetricDecoder_restores_common_stride false 256 128 [4; 8; 16; 32] 4
           norm_BatchNorm2d None _ _ 1 224 224 eq_refl ltac:(discriminate)).
  - repeat constructor.
  - lia.
  - lia.
  - left. split; reflexivity.
  - repeat constructor; cbn; try lia; eexists _, _; repeat split; lia.
Defined.

(** X10: whatever the constructor builds has a normalisation in every
    layer.  Each layer of each block is a 3 by 3 convolution to
    [out_channels] (stride 1, padding 1), a [BatchNorm2d] over
    [out_channels] or a [GroupNorm] whose groups divide [out_channels], a
    [ReLU] and either a doubling or the identity: a [norm_fn] of [None] is
    rejected by the constructor, so its branch that would put [Identity] in
    place of the norm is never taken. *)
Theorem AssymetricDecoder_layers_are_normalised in_channels out_channels
    in_feat_output_strides out_feat_output_stride norm_fn num_groups_gn blocks :
  AssymetricDecoder_init in_channels out_channels in_feat_output_strides
    out_feat_output_stride norm_fn num_groups_gn = Ok blocks ->
  forall block, In block blocks ->
  forall l, In l block ->
  exists cin nl up,
    l = [Conv2d cin out_channels 3 1 1; nl; ReLU; up] /\
    (cin = in_channels \/ cin = out_channels) /\
    decoder_norm out_channels nl /\
    (up = Identity \/ up = UpsamplingBilinear2d 2).
Proof.
  unfold AssymetricDecoder_init. intros Hinit block Hblock l Hl.
  match type of Hinit with
  | (args <- ?a ;; _) = _ => destruct a as [args|e] eqn:Hargs; [|discriminate]
  end.
  cbn [bind] in Hinit. apply collect_inv in Hinit.
  assert (Hb : exists s, decoder_block in_channels out_channels norm_fn args
                           out_feat_output_stride s = Ok block).
  { clear - Hinit Hblock. induction Hinit as [|s b strides blocks Hb _ IH];
      [destruct Hblock|].
    destruct Hblock as [->|Hin]; [exists s; exact Hb|exact (IH Hin)]. }
  destruct Hb as [s Hb]. unfold decoder_block in Hb.
  destruct (int_log2 s) as [a|e]; cbn [bind] in Hb; [|discriminate].
  destruct (int_log2 out_feat_output_stride) as [b|e]; cbn [bind] in Hb;
    [|discriminate].
  apply collect_inv in Hb.
  assert (Hl' : exists idx, decoder_layer in_channels out_channels norm_fn args
                              (a - b) idx = Ok l).
  { clear - Hb Hl. induction Hb as [|idx l0 idxs ls Hl0 _ IH]; [destruct Hl|].
    destruct Hl as [->|Hin]; [exists idx; exact Hl0|exact (IH Hin)]. }
  destruct Hl' as [idx Hidx]. unfold decoder_layer in Hidx.
  destruct (make_norm norm_fn args) as [nl|e] eqn:Hnl; cbn [bind] in Hidx;
    [|discriminate].
  injection Hidx as <-. eexists _, nl, _. split; [reflexivity|].
  split; [destruct (idx =? 0); [left|right]; reflexivity|].
  split; [eapply make_norm_inv; eassumption|].
  destruct (a - b =? 0); [left|right]; reflexivity.
Qed.

Lemma AssymetricDecoder_layers_are_normalised_witness :
  exists cin nl up,
    [Conv2d 256 128 3 1 1; BatchNorm2d 128; ReLU; Identity]
    = [Conv2d cin 128 3 1 1; nl; ReLU; up] /\
    (cin = 256 \/ cin = 128) /\ decoder_norm 128 nl /\
    (up = Identity \/ up = UpsamplingBilinear2d 2).
Proof.
  exact (AssymetricDecoder_layers_are_normalised 256 128 [4; 8; 16; 32] 4
           norm_BatchNorm2d None _ eq_refl
           [[Conv2d 256 128 3 1 1; BatchNorm2d 128; ReLU; Identity]]
           (or_introl eq_refl) _ (or_introl eq_refl)).
Defined.

Lemma decoder_inner_short mode blocks feat_list idx :
  (idx <= length feat_list)%nat ->
  (length feat_list < idx + length blocks)%nat ->
  exists err, decoder_inner mode blocks feat_list idx = Raise err.
Proof.
  revert idx. induction blocks as [|b blocks IH]; intros idx Hidx Hlen.
  - cbn in Hlen. lia.
  - cbn [decoder_inner]. destruct (nth_error feat_list idx) as [f|] eqn:Hn;
      cbn [bind]; [|eexists; reflexivity].
    destruct (apply_block mode b f); cbn [bind]; [|eexists; reflexivity].
    assert (idx < length feat_list)%nat
      by (apply nth_error_Some; rewrite Hn; discriminate).
    destruct (IH (S idx)) as [err ->]; [lia|cbn [length] in Hlen; lia|].
    eexists; reflexivity.
Qed.

Lemma decoder_inner_extra mode blocks feat_list extra idx :
  (idx + length blocks <= length feat_list)%nat ->
  decoder_inner mode blocks (feat_list ++ extra) idx
  = decoder_inner mode blocks feat_list idx.
Proof.
  revert idx. induction blocks as [|b blocks IH]; intros idx Hlen; [reflexivity|].
  cbn [decoder_inner length] in *.
  rewrite nth_error_app1 by lia.
  destruct (nth_error feat_list idx); cbn [bind]; [|reflexivity].
  destruct (apply_block mode b l); cbn [bind]; [|reflexivity].
  rewrite IH by lia. reflexivity.
Qed.

(** X11: the decoder's [forward] reads one feature map per block, by
    position: with fewer feature maps than blocks it always raises, and
    feature maps beyond the number of blocks are ignored. *)
Theorem AssymetricDecoder_forward_feature_count mode blocks feat_list :
  ((length feat_list < length blocks)%nat ->
   exists err, AssymetricDecoder_forward mode blocks feat_list = Raise err) /\
  ((length blocks <= length feat_list)%nat ->
   forall extra,
     AssymetricDecoder_forward mode blocks (feat_list ++ extra)
     = AssymetricDecoder_forward mode blocks feat_list).
Proof.
  unfold AssymetricDecoder_forward. split.
  - intros Hlen.
    destruct (decoder_inner_short mode blocks feat_list 0 ltac:(lia) Hlen) as [err ->].
    exists err. reflexivity.
  - intros Hlen extra. rewrite decoder_inner_extra by exact Hlen. reflexivity.
Qed.

Lemma AssymetricDecoder_forward_feature_count_witness :
  exists err, AssymetricDecoder_forward false [[]; []] [[1; 256; 28; 28]] = Raise err.
Proof.
  exact (proj1 (AssymetricDecoder_forward_feature_count false [[]; []]
                  [[1; 256; 28; 28]]) ltac:(cbn; lia)).
Defined.

(** X12: the decoder never downsamples.  For an input stride finer than
    the output stride the constructor builds a block without layers, which
    hands its feature map on unchanged, with its own channel count and
    size. *)
Theorem AssymetricDecoder_finer_level_passes_through mode in_channels out_channels
    in_feat_output_strides out_feat_output_stride norm_fn num_groups_gn blocks i s :
  AssymetricDecoder_init in_channels out_channels in_feat_output_strides
    out_feat_output_stride norm_fn num_groups_gn = Ok blocks ->
  strides_in_range (out_feat_output_stride :: in_feat_output_strides) ->
  nth_error in_feat_output_strides i = Some s ->
  Z.log2 s < Z.log2 out_feat_output_stride ->
  nth_error blocks i = Some [] /\ forall f, apply_block mode [] f = Ok f.
Proof.
  unfold AssymetricDecoder_init. intros Hinit _ Hs Hlt.
  match type of Hinit with
  | (args <- ?a ;; _) = _ => destruct a as [args|e] eqn:Hargs; [|discriminate]
  end.
  cbn [bind] in Hinit. apply collect_inv in Hinit.
  split; [|reflexivity].
  revert i Hs. induction Hinit as [|s0 b strides blocks Hb _ IH]; intros i Hs.
  - destruct i; discriminate.
  - destruct i as [|i]; cbn [nth_error] in *.
    + injection Hs as ->. f_equal. eapply decoder_block_empty; eassumption.
    + apply IH, Hs.
Qed.

Lemma AssymetricDecoder_finer_level_passes_through_witness :
  nth_error (get_ok_blocks (AssymetricDecoder_init 256 128 [2; 4; 8] 4
                              norm_BatchNorm2d None)) 0 = Some [] /\
  forall f, apply_block true [] f = Ok f.
Proof.
  refine (AssymetricDecoder_finer_level_passes_through true 256 128 [2; 4; 8] 4
            norm_BatchNorm2d None _ 0 2 eq_refl _ eq_refl ltac:(cbn; lia)).
  repeat constructor.
Defined.

(** * The scene relation of module/farseg.py *)

Lemma collect_map {A B} (f : A -> result B) (g : A -> B) l :
  (forall a, In a l -> f a = Ok (g a)) -> collect f l = Ok (map g l).
Proof.
  induction l as [|a l IH]; intros H; [reflexivity|].
  cbn [collect map]. rewrite (H a (or_introl eq_refl)). cbn [bind].
  rewrite IH by (intros a' Ha; apply H; right; exact Ha). reflexivity.
Qed.

Lemma collect_comp {A B C} (f : B -> result C) (h : A -> B) l :
  collect f (map h l) = collect (fun a => f (h a)) l.
Proof.
  induction l as [|a l IH]; [reflexivity|]. cbn [map collect]. rewrite IH. reflexivity.
Qed.

Lemma combine_map {A B C} (f : A -> B) (g : A -> C) l :
  combine (map f l) (map g l) = map (fun a => (f a, g a)) l.
Proof. induction l as [|a l IH]; [reflexivity|]. cbn. rewrite IH. reflexivity. Qed.

Lemma conv1_keeps n : conv_out n 1 1 0 = n.
Proof. unfold conv_out. rewrite Z.div_1_r. lia. Qed.

Lemma conv1_shape mode cin cout n h w :
  0 < h -> 0 < w ->
  layer_shape mode (Conv2d cin cout 1 1 0) [n; cin; h; w] = Ok [n; cout; h; w].
Proof.
  intros Hh Hw. cbn [layer_shape]. rewrite Z.eqb_refl.
  replace (h + 2 * 0 <? 1) with false by (symmetry; apply Z.ltb_ge; lia).
  replace (w + 2 * 0 <? 1) with false by (symmetry; apply Z.ltb_ge; lia).
  cbn [negb orb]. rewrite !conv1_keeps. reflexivity.
Qed.

Lemma broadcast_scene n c h w :
  broadcast_shapes [n; c; 1; 1] [n; c; h; w] = Ok [n; c; h; w].
Proof.
  unfold broadcast_shapes. cbn [rev app broadcast_rev bind]. rewrite !Z.eqb_refl.
  cbn [bind].
  destruct (Z.eqb_spec 1 h) as [<-|_]; cbn [bind];
    destruct (Z.eqb_spec 1 w) as [<-|_]; reflexivity.
Qed.

Lemma broadcast_relation n c h w :
  broadcast_shapes [n; 1; h; w] [n; c; h; w] = Ok [n; c; h; w].
Proof.
  unfold broadcast_shapes. cbn [rev app broadcast_rev bind]. rewrite !Z.eqb_refl.
  cbn [bind]. destruct (Z.eqb_spec 1 c) as [<-|_]; reflexivity.
Qed.

Section SceneRelationShapes.

Variable mode : bool.
Variables in_channels out_channels n : Z.
Hypothesis batch_ok : mode = false \/ 1 < n.

Lemma encoder_shape lv :
  level_pos lv ->
  apply_layers mode
    [Conv2d (fst (fst lv)) out_channels 1 1 0; BatchNorm2d out_channels; ReLU]
    (level_shape n lv)
  = Ok (level_out n out_channels lv).
Proof.
  destruct lv as [[c h] w]. intros [Hh Hw]. cbn [fst level_shape level_out apply_layers].
  rewrite conv1_shape by assumption. cbn [bind layer_shape].
  assert (E : mode && (n * h * w =? 1) = false).
  { destruct batch_ok as [->|Hn]; [reflexivity|].
    apply andb_false_iff. right. apply Z.eqb_neq.
    pose proof (batch_values n 1 h w Hn Hh Hw). lia. }
  rewrite E, Z.eqb_refl. reflexivity.
Qed.

Lemma mlp_shape :
  apply_layers mode [Conv2d in_channels out_channels 1 1 0; ReLU;
                     Conv2d out_channels out_channels 1 1 0] [n; in_channels; 1; 1]
  = Ok [n; out_channels; 1; 1].
Proof.
  cbn [apply_layers]. rewrite conv1_shape by lia. cbn [bind]. rewrite relu_shape.
  cbn [bind]. rewrite conv1_shape by lia. reflexivity.
Qed.

Lemma relation_shape lv :
  relation mode [n; out_channels; 1; 1] (level_out n out_channels lv)
  = Ok (level_out n 1 lv).
Proof.
  destruct lv as [[c h] w]. unfold relation, level_out.
  rewrite broadcast_scene. reflexivity.
Qed.

Lemma zip_apply_encoders levels :
  Forall level_pos levels ->
  zip_apply mode
    (map (fun c => [Conv2d c out_channels 1 1 0; BatchNorm2d out_channels; ReLU])
       (map (fun lv => fst (fst lv)) levels))
    (map (level_shape n) levels)
  = Ok (map (level_out n out_channels) levels).
Proof.
  intros Hpos. unfold zip_apply. rewrite map_map, combine_map, collect_comp.
  apply collect_map. intros lv Hlv. cbn [fst snd].
  apply encoder_shape. rewrite Forall_forall in Hpos. apply Hpos, Hlv.
Qed.

(** [SceneRelation.forward] on levels that match the channel list. *)
Lemma SceneRelation_forward_levels sap levels :
  Forall level_pos levels ->
  SceneRelation_forward mode
    (SceneRelation_init in_channels (map (fun lv => fst (fst lv)) levels)
       out_channels sap)
    [n; in_channels; 1; 1] (map (level_shape n) levels)
  = Ok (map (level_out n out_channels) levels).
Proof.
  intros Hpos. unfold SceneRelation_forward, SceneRelation_init.
  cbn [content_encoders feature_reencoders scale_aware_proj scene_encoder].
  rewrite zip_apply_encoders by exact Hpos. cbn [bind].
  assert (Hrel :
    (if sap
     then
       scene_feats <-
         match (if sap
                then PerScale
                       (map (fun _ : Z =>
                               [Conv2d in_channels out_channels 1 1 0; ReLU;
                                Conv2d out_channels out_channels 1 1 0])
                          (map (fun lv : Z * Z * Z => fst (fst lv)) levels))
                else Shared
                       [Conv2d in_channels out_channels 1 1 0; ReLU;
                        Conv2d out_channels out_channels 1 1 0]) with
         | PerScale ops =>
             collect (fun op => apply_layers mode op [n; in_channels; 1; 1]) ops
         | Shared op =>
             collect (fun l => layer_shape mode l [n; in_channels; 1; 1]) op
         end ;;
       collect (fun sc => relation mode (fst sc) (snd sc))
         (combine scene_feats (map (level_out n out_channels) levels))
     else
       scene_feat <-
         match (if sap
                then PerScale
                       (map (fun _ : Z =>
                               [Conv2d in_channels out_channels 1 1 0; ReLU;
                                Conv2d out_channels out_channels 1 1 0])
                          (map (fun lv : Z * Z * Z => fst (fst lv)) levels))
                else Shared
                       [Conv2d in_channels out_channels 1 1 0; ReLU;
                        Conv2d out_channels out_channels 1 1 0]) with
         | Shared op => apply_layers mode op [n; in_channels; 1; 1]
         | PerScale _ => Raise (External "NotImplementedError")
         end ;;
       collect (relation mode scene_feat) (map (level_out n out_channels) levels))
    = Ok (map (level_out n 1) levels)).
  { destruct sap.
    - rewrite map_map, collect_comp.
      rewrite (collect_map _ (fun _ => [n; out_channels; 1; 1]))
        by (intros lv _; apply mlp_shape).
      cbn [bind]. rewrite combine_map, collect_comp.
      apply collect_map. intros lv _. apply relation_shape.
    - rewrite mlp_shape. cbn [bind]. rewrite collect_comp.
      apply collect_map. intros lv _. apply relation_shape. }
  rewrite Hrel. cbn [bind]. rewrite combine_map, collect_comp.
  apply collect_map. intros [[c h] w] _.
  cbn [fst snd level_out]. apply broadcast_relation.
Qed.

End SceneRelationShapes.

(** Feature maps that match a channel list, as a list of levels. *)
Lemma levels_of n channel_list features :
  Forall2 (fun c f => exists h w, f = [n; c; h; w] /\ 0 < h /\ 0 < w)
    channel_list features ->
  exists levels,
    channel_list = map (fun lv => fst (fst lv)) levels /\
    features = map (level_shape n) levels /\
    Forall level_pos levels.
Proof.
  induction 1 as [|c f cs fs (h & w & -> & Hh & Hw) _ (levels & -> & -> & Hpos)].
  - exists []. repeat split. constructor.
  - exists ((c, h, w) :: levels). repeat split. constructor; [split; assumption|exact Hpos].
Qed.

(** X13: the scene relation re-weights every pyramid level in place.  Built
    for a channel list and given a pooled [(n, in_channels, 1, 1)] scene
    feature and one [(n, c_i, h_i, w_i)] feature map per entry [c_i] of the
    list, [forward] returns one [(n, out_channels, h_i, w_i)] map per level,
    with and without scale-aware projection, in evaluation mode and, for a
    batch of two or more, in training mode. *)
Theorem SceneRelation_keeps_level_sizes mode in_channels out_channels n sap
    channel_list features :
  0 < n -> mode = false \/ 1 < n ->
  Forall2 (fun c f => exists h w, f = [n; c; h; w] /\ 0 < h /\ 0 < w)
    channel_list features ->
  exists refined,
    SceneRelation_forward mode
      (SceneRelation_init in_channels channel_list out_channels sap)
      [n; in_channels; 1; 1] features = Ok refined /\
    Forall2 (fun f r => exists c h w, f = [n; c; h; w] /\ r = [n; out_channels; h; w])
      features refined.
Proof.
  intros _ Hfit HF.
  destruct (levels_of n channel_list features HF) as (levels & -> & -> & Hpos).
  eexists. split; [apply SceneRelation_forward_levels; assumption|].
  clear. induction levels as [|[[c h] w] levels IH]; cbn [map]; constructor;
    [exists c, h, w; split; reflexivity|exact IH].
Qed.

Lemma SceneRelation_keeps_level_sizes_witness :
  exists refined,
    SceneRelation_forward false (SceneRelation_init 2048 [256; 256] 256 true)
      [1; 2048; 1; 1] [[1; 256; 224; 224]; [1; 256; 112; 112]] = Ok refined /\
    Forall2 (fun f r => exists c h w, f = [1; c; h; w] /\ r = [1; 256; h; w])
      [[1; 256; 224; 224]; [1; 256; 112; 112]] refined.
Proof.
  apply (SceneRelation_keeps_level_sizes false 2048 256 1 true [256; 256]).
  - lia.
  - left. reflexivity.
  - repeat constructor; eexists _, _; repeat split; lia.
Defined.

Lemma collect_length {A B} (f : A -> result B) l bs :
  collect f l = Ok bs -> length bs = length l.
Proof.
  intros H. apply collect_inv in H. symmetry. eapply Forall2_length. exact H.
Qed.

(** X14: the scene relation pairs encoders and feature maps with [zip]:
    whenever [forward] returns, it returns as many maps as the shorter of
    the channel list and the feature list, so surplus feature maps are
    dropped and missing ones go unnoticed. *)
Theorem SceneRelation_output_count mode in_channels out_channels sap channel_list
    scene_feature features refined :
  SceneRelation_forward mode
    (SceneRelation_init in_channels channel_list out_channels sap)
    scene_feature features = Ok refined ->
  length refined = Nat.min (length channel_list) (length features).
Proof.
  unfold SceneRelation_forward, SceneRelation_init, zip_apply.
  cbn [content_encoders feature_reencoders scale_aware_proj scene_encoder].
  intros H.
  destruct (collect _ (combine (map _ channel_list) features)) as [cf|e] eqn:Hcf;
    cbn [bind] in H; [|discriminate].
  apply collect_length in Hcf. rewrite length_combine, length_map in Hcf.
  match type of H with
  | (relations <- ?r ;; _) = _ => destruct r as [rel|e] eqn:Hrel; [|discriminate]
  end.
  cbn [bind] in H.
  apply collect_length in H. rewrite length_combine in H.
  assert (Hlen : length rel = Nat.min (length channel_list) (length features)).
  { destruct sap.
    - destruct (collect _ (map _ channel_list)) as [sf|e] eqn:Hsf; cbn [bind] in Hrel;
        [|discriminate].
      apply collect_length in Hsf. rewrite length_map in Hsf.
      apply collect_length in Hrel. rewrite length_combine in Hrel. lia.
    - destruct (apply_layers _ _ scene_feature) as [sf|e]; cbn [bind] in Hrel;
        [|discriminate].
      apply collect_length in Hrel. lia. }
  lia.
Qed.

Lemma SceneRelation_output_count_witness :
  length (match SceneRelation_forward false
                  (SceneRelation_init 2048 [256; 256] 256 true)
                  [1; 2048; 1; 1]
                  [[1; 256; 224; 224]; [1; 256; 112; 112]; [1; 256; 56; 56]] with
          | Ok refined => refined
          | Raise _ => []
          end)
  = Nat.min (length [256; 256])
      (length [[1; 256; 224; 224]; [1; 256; 112; 112]; [1; 256; 56; 56]]).
Proof.
  exact (SceneRelation_output_count false 2048 256 true [256; 256] [1; 2048; 1; 1]
           [[1; 256; 224; 224]; [1; 256; 112; 112]; [1; 256; 56; 56]] _ eq_refl).
Defined.

(** * FarSeg *)

Section FarSegFacts.

Variable en : bool -> list Z -> result (list (list Z)).
Variable fpn : bool -> list (list Z) -> result (list (list Z)).
Variable gap : bool -> list Z -> result (list Z).
Variable loss_fn : loss_call -> list Z -> list Z -> result unit.
Variable mem : result Z.

(** The logits depend on the layers of the module and on its mode, not on
    its step counter. *)
Lemma FarSeg_logits_static a b x :
  config a = config b -> decoder a = decoder b -> sr a = sr b ->
  cls_pred_conv a = cls_pred_conv b -> upsample4x_op a = upsample4x_op b ->
  training a = training b ->
  FarSeg_logits en fpn gap a x = FarSeg_logits en fpn gap b x.
Proof.
  intros H1 H2 H3 H4 H5 H6. unfold FarSeg_logits. rewrite H1, H2, H3, H4, H5, H6.
  reflexivity.
Qed.

(** Refined levels line up as the FPN levels did. *)
Lemma lines_up_levels n cout out_os Hc Wc strides levels :
  length (map (fun lv : Z * Z * Z => fst (fst lv)) levels) = length strides ->
  Forall2 (fun cs f => lines_up n (fst cs) out_os Hc Wc (snd cs) f)
    (combine (map (fun lv => fst (fst lv)) levels) strides)
    (map (level_shape n) levels) ->
  Forall2 (lines_up n cout out_os Hc Wc) strides (map (level_out n cout) levels).
Proof.
  revert strides. induction levels as [|[[c h] w] levels IH]; intros strides Hlen HF.
  - destruct strides; [constructor|discriminate].
  - destruct strides as [|s strides]; [discriminate|].
    cbn [map combine] in HF. inversion HF as [|? ? ? ? Hl Hrest]; subst.
    cbn [map]. constructor.
    + destruct Hl as (Hle & h' & w' & E & Hh & Hw & EH & EW). cbn [fst snd] in *.
      injection E as <- <-. split; [exact Hle|].
      exists h, w. repeat split; assumption.
    + apply IH; [cbn [map length] in Hlen; lia|exact Hrest].
Qed.

Lemma lines_up_channels n out_os Hc Wc channel_list strides feats :
  Forall2 (fun cs f => lines_up n (fst cs) out_os Hc Wc (snd cs) f)
    (combine channel_list strides) feats ->
  length channel_list = length strides ->
  Forall2 (fun c f => exists h w, f = [n; c; h; w] /\ 0 < h /\ 0 < w)
    channel_list feats.
Proof.
  revert strides feats. induction channel_list as [|c cs IH]; intros strides feats HF Hlen.
  - cbn in HF. inversion HF. constructor.
  - destruct strides as [|s strides]; [discriminate|].
    cbn [combine] in HF. inversion HF as [|? f ? fs Hl Hrest]; subst.
    constructor.
    + destruct Hl as (_ & h & w & -> & Hh & Hw & _). exists h, w. repeat split; assumption.
    + eapply IH; [exact Hrest|cbn [length] in Hlen; lia].
Qed.

(** The logits of a constructed model, in either mode, on feature maps
    that line up. *)
Lemma FarSeg_logits_shape cfg m mode x n Hc Wc feat_list fpn_feat_list :
  FarSeg_init cfg = Ok m ->
  in_feat_output_strides cfg <> [] ->
  0 < decoder_out_channels cfg -> 0 < num_classes cfg ->
  (mode = false /\ decoder_norm_fn cfg = norm_BatchNorm2d) \/ 1 < n ->
  en mode x = Ok feat_list -> fpn mode feat_list = Ok fpn_feat_list ->
  0 < Hc -> 0 < Wc ->
  pyramid_fits gap mode cfg n Hc Wc feat_list fpn_feat_list ->
  FarSeg_logits en fpn gap (set_training m mode) x
  = Ok [n; num_classes cfg; Hc * 4; Wc * 4].
Proof.
  intros Hinit Hne Hout Hcls Hfit Hen Hfpn HHc HWc Hfeat.
  unfold FarSeg_init in Hinit.
  destruct (AssymetricDecoder_init _ _ _ _ _ _) as [blocks|e] eqn:Hdec;
    cbn [bind] in Hinit; [|discriminate].
  injection Hinit as <-. unfold FarSeg_logits, set_training.
  cbn [config decoder sr cls_pred_conv upsample4x_op training].
  rewrite Hen. cbn [bind]. rewrite Hfpn. cbn [bind].
  assert (Href : exists refined,
             match scene_relation cfg with
             | Some _ =>
                 c5 <- match rev feat_list with
                       | c :: _ => Ok c
                       | [] => Raise IndexError
                       end ;;
                 match
                   match scene_relation cfg with
                   | Some (cin, channel_list, cout, sap) =>
                       Some (SceneRelation_init cin channel_list cout sap)
                   | None => None
                   end
                 with
                 | Some s =>
                     c6 <- gap mode c5 ;;
                     SceneRelation_forward mode s c6 fpn_feat_list
                 | None => Raise AttributeError
                 end
             | None => Ok fpn_feat_list
             end = Ok refined /\
             Forall2 (lines_up n (decoder_in_channels cfg)
                        (out_feat_output_stride cfg) Hc Wc)
               (in_feat_output_strides cfg) refined).
  { unfold pyramid_fits in Hfeat.
    destruct (scene_relation cfg) as [[[[cin channel_list] cout] sap]|].
    - destruct Hfeat as (-> & Hlen & (c5 & rest & -> & Hgap) & HF).
      cbn [bind]. rewrite Hgap. cbn [bind].
      destruct (levels_of n channel_list fpn_feat_list
                  (lines_up_channels _ _ _ _ _ _ _ HF Hlen))
        as (levels & -> & -> & Hpos).
      rewrite SceneRelation_forward_levels;
        [|destruct Hfit as [[-> _]|Hn]; [left; reflexivity|right; exact Hn]
         |exact Hpos].
      eexists. split; [reflexivity|].
      apply lines_up_levels; assumption.
    - exists fpn_feat_list. split; [reflexivity|exact Hfeat]. }
  destruct Href as (refined & -> & Hal). cbn [bind].
  rewrite (decoder_forward_aligned mode _ _ _ _ _ _ _ _ n Hc Wc Hdec Hne Hout Hfit Hal).
  cbn [bind].
  rewrite conv1_shape by assumption. cbn [bind].
  apply upsample_shape; (assumption || lia).
Qed.

(** One call moves the step counter by one when it is a step, and not at
    all otherwise; the layers stay as they are. *)
Lemma FarSeg_forward_state self mode x y :
  let self' := fst (FarSeg_forward en fpn gap loss_fn mem (set_training self mode) x y) in
  config self' = config self /\ decoder self' = decoder self /\ sr self' = sr self /\
  cls_pred_conv self' = cls_pred_conv self /\
  upsample4x_op self' = upsample4x_op self /\
  buffer_step self'
  = if is_step en fpn gap self (mode, x, y)
    then F32.add (buffer_step self) F32.one
    else buffer_step self.
Proof.
  cbv zeta. unfold FarSeg_forward, is_step.
  destruct (FarSeg_logits en fpn gap (set_training self mode) x) as [cls_pred|e];
    [|rewrite andb_false_r; repeat split].
  cbn [training set_training].
  destruct mode; cbn [andb].
  - destruct y as [[cls_true|]|]; [|repeat split..].
    destruct (cls_loss loss_fn _ cls_pred cls_true); [destruct mem|]; repeat split.
  - destruct cls_pred as [|? [|? ?]]; repeat split.
Qed.

Lemma FarSeg_calls_steps self calls :
  buffer_step (FarSeg_calls en fpn gap loss_fn mem self calls)
  = count_up (length (filter (is_step en fpn gap self) calls)) (buffer_step self).
Proof.
  revert self. induction calls as [|[[mode x] y] calls IH]; intros self; [reflexivity|].
  cbn [FarSeg_calls filter].
  destruct (FarSeg_forward_state self mode x y) as (H1 & H2 & H3 & H4 & H5 & Hb).
  rewrite IH, Hb.
  assert (Hsame : forall c,
             is_step en fpn gap
               (fst (FarSeg_forward en fpn gap loss_fn mem (set_training self mode) x y)) c
             = is_step en fpn gap self c).
  { intros [[mode' x'] y']. unfold is_step.
    rewrite (FarSeg_logits_static _ (set_training self mode')) by assumption || reflexivity.
    reflexivity. }
  rewrite (filter_ext _ _ Hsame).
  destruct (is_step en fpn gap self (mode, x, y)); reflexivity.
Qed.

End FarSegFacts.

Lemma count_up_stuck j : count_up j f32_2p24 = f32_2p24.
Proof. induction j as [|j IH]; [reflexivity|]. cbn [count_up]. exact IH. Qed.

(** Counting from zero reaches [min k 2^24]. *)
Lemma count_up_min k :
  count_up k F32.zero = F32.of_Z (Z.min (Z.of_nat k) (2 ^ 24)).
Proof.
  destruct (Z_le_gt_dec (Z.of_nat k) (2 ^ 24)) as [Hle|Hgt].
  - rewrite Z.min_l by exact Hle. apply count_up_exact. exact Hle.
  - rewrite Z.min_r by lia.
    assert (exists m j, Z.of_nat m = 2 ^ 24 /\ k = (m + j)%nat) as (m & j & Hm & ->).
    { exists (Z.to_nat (2 ^ 24)), (k - Z.to_nat (2 ^ 24))%nat. split; lia. }
    rewrite count_up_add, count_up_exact by lia. rewrite Hm.
    change (F32.of_Z (2 ^ 24)) with f32_2p24. apply count_up_stuck.
Qed.

(** X15: in evaluation mode, a constructed FarSeg returns class
    probabilities at four times the resolution at which the pyramid levels
    line up, that is at the resolution of its input when the decoder's
    output stride is 4: shape [(n, num_classes, 4 Hc, 4 Wc)].  This holds
    with and without the scene relation; the labels are not read and the
    module is left as it was. *)
Theorem FarSeg_eval_prediction_shape en fpn gap loss_fn mem cfg m x y n Hc Wc
    feat_list fpn_feat_list :
  FarSeg_init cfg = Ok m ->
  in_feat_output_strides cfg <> [] ->
  strides_in_range (out_feat_output_stride cfg :: in_feat_output_strides cfg) ->
  0 < n -> 0 < decoder_out_channels cfg -> 0 < num_classes cfg ->
  decoder_norm_fn cfg = norm_BatchNorm2d \/ 1 < n ->
  en false x = Ok feat_list -> fpn false feat_list = Ok fpn_feat_list ->
  0 < Hc -> 0 < Wc ->
  pyramid_fits gap false cfg n Hc Wc feat_list fpn_feat_list ->
  FarSeg_forward en fpn gap loss_fn mem (set_training m false) x y
  = (set_training m false, Ok (Prediction [n; num_classes cfg; Hc * 4; Wc * 4])).
Proof.
  intros Hinit Hne _ _ Hout Hcls Hfit Hen Hfpn HHc HWc Hfeat. unfold FarSeg_forward.
  rewrite (FarSeg_logits_shape en fpn gap cfg m false x n Hc Wc feat_list fpn_feat_list)
    by (assumption || (destruct Hfit; [left; split|right]; (reflexivity || assumption))).
  reflexivity.
Qed.

Lemma FarSeg_eval_prediction_shape_witness :
  FarSeg_forward resnet50_shapes fpn256_shapes gap_shapes any_loss (Ok 0)
    (set_training farseg50_model false) [1; 3; 896; 896] None
  = (set_training farseg50_model false, Ok (Prediction [1; 16; 224 * 4; 224 * 4])).
Proof.
  apply (FarSeg_eval_prediction_shape resnet50_shapes fpn256_shapes gap_shapes any_loss (Ok 0)
           farseg50 farseg50_model [1; 3; 896; 896] None 1 224 224
           [[1; 256; 224; 224]; [1; 512; 112; 112]; [1; 1024; 56; 56]; [1; 2048; 28; 28]]
           [[1; 256; 224; 224]; [1; 256; 112; 112]; [1; 256; 56; 56]; [1; 256; 28; 28]]
           eq_refl ltac:(discriminate)).
  - repeat constructor.
  - lia.
  - cbn; lia.
  - cbn; lia.
  - left. reflexivity.
  - reflexivity.
  - reflexivity.
  - lia.
  - lia.
  - unfold pyramid_fits. cbn [scene_relation farseg50].
    split; [reflexivity|]. split; [reflexivity|].
    split; [eexists _, _; split; reflexivity|].
    repeat constructor; cbn; try lia; eexists _, _; repeat split; lia.
Defined.

(** X16: the step counter of FarSeg is a float32 that counts the training
    calls which reach [self.buffer_step += 1] (the network ran and the labels
    hold ['cls']), whether or not the loss then raises; calls in evaluation
    mode and calls that fail earlier leave it alone.  On a freshly
    constructed model it is exact up to [2^24] steps and stays at [2^24]
    from then on. *)
Theorem FarSeg_step_counter en fpn gap loss_fn mem cfg m calls :
  FarSeg_init cfg = Ok m ->
  buffer_step (FarSeg_calls en fpn gap loss_fn mem m calls)
  = F32.of_Z (Z.min (Z.of_nat (length (filter (is_step en fpn gap m) calls))) (2 ^ 24)).
Proof.
  intros Hinit. rewrite FarSeg_calls_steps.
  assert (Hz : buffer_step m = F32.zero).
  { unfold FarSeg_init in Hinit.
    destruct (AssymetricDecoder_init _ _ _ _ _ _); cbn [bind] in Hinit; [|discriminate].
    injection Hinit as <-. reflexivity. }
  rewrite Hz. apply count_up_min.
Qed.

Lemma FarSeg_step_counter_witness :
  buffer_step
    (FarSeg_calls resnet50_shapes fpn256_shapes gap_shapes any_loss (Ok 0) farseg50_model
       [(true, [2; 3; 896; 896], Some (Some [2; 896; 896]));
        (false, [1; 3; 896; 896], None);
        (true, [2; 3; 896; 896], None);
        (true, [2; 3; 896; 896], Some (Some [2; 896; 896]))])
  = F32.of_Z (Z.min 2 (2 ^ 24)).
Proof.
  exact (FarSeg_step_counter resnet50_shapes fpn256_shapes gap_shapes any_loss (Ok 0)
           farseg50 farseg50_model
           [(true, [2; 3; 896; 896], Some (Some [2; 896; 896]));
            (false, [1; 3; 896; 896], None);
            (true, [2; 3; 896; 896], None);
            (true, [2; 3; 896; 896], Some (Some [2; 896; 896]))]
           eq_refl).
Defined.

(** A constructed model is in training mode, with its counter at zero. *)
Lemma FarSeg_init_fresh cfg m :
  FarSeg_init cfg = Ok m ->
  set_training m true = m /\ buffer_step m = F32.zero /\ config m = cfg.
Proof.
  unfold FarSeg_init.
  destruct (AssymetricDecoder_init _ _ _ _ _ _); cbn [bind]; [|discriminate].
  intros [= <-]. repeat split.
Qed.

(** X17: the first training step of a new model.  A constructed FarSeg is
    in training mode; called with a batch of two or more and labels, it
    advances its counter before it computes the loss, so with the annealing
    focal loss configured (and [softmax_focalloss] absent) the loss is called
    with predictions of shape [(n, num_classes, 4 Hc, 4 Wc)] and with step
    1, not 0; what the loss or the memory statistic raises is raised, and
    the counter keeps the step. *)
Theorem FarSeg_first_training_step en fpn gap loss_fn mem cfg m x cls_true n Hc Wc
    feat_list fpn_feat_list ty :
  FarSeg_init cfg = Ok m ->
  in_feat_output_strides cfg <> [] ->
  strides_in_range (out_feat_output_stride cfg :: in_feat_output_strides cfg) ->
  1 < n -> 0 < decoder_out_channels cfg -> 0 < num_classes cfg ->
  en true x = Ok feat_list -> fpn true feat_list = Ok fpn_feat_list ->
  0 < Hc -> 0 < Wc ->
  pyramid_fits gap true cfg n Hc Wc feat_list fpn_feat_list ->
  softmax_focalloss cfg = false ->
  annealing_softmax_focalloss cfg = Some ty ->
  ty = "cosine"%string \/ ty = "poly"%string \/ ty = "linear"%string ->
  FarSeg_forward en fpn gap loss_fn mem m x (Some (Some cls_true))
  = (step_buffer m,
     match loss_fn (call_annealing_softmax_focalloss F32.one ty)
             [n; num_classes cfg; Hc * 4; Wc * 4] cls_true with
     | Ok _ => match mem with
               | Ok _ => Ok LossDict
               | Raise err => Raise err
               end
     | Raise err => Raise err
     end).
Proof.
  intros Hinit Hne _ Hn Hout Hcls Hen Hfpn HHc HWc Hfeat Hsf Han Hty.
  pose proof (FarSeg_logits_shape en fpn gap cfg m true x n Hc Wc feat_list
                fpn_feat_list Hinit Hne Hout Hcls (or_intror Hn) Hen Hfpn HHc HWc Hfeat)
    as Hlog.
  destruct (FarSeg_init_fresh cfg m Hinit) as (Hfresh & Hz & Hcfg).
  rewrite Hfresh in Hlog.
  assert (Htr : training m = true) by (rewrite <- Hfresh; reflexivity).
  unfold FarSeg_forward. rewrite Hlog, Htr. cbv zeta.
  unfold cls_loss, step_buffer. cbn [config buffer_step].
  rewrite Hcfg, Hsf, Han, Hz.
  change (F32.add F32.zero F32.one) with F32.one.
  replace ((ty =? "cosine") || (ty =? "poly") || (ty =? "linear"))%string with true
    by (destruct Hty as [->|[->| ->]]; reflexivity).
  destruct (loss_fn _ _ cls_true) as [[]|err]; [destruct mem|]; reflexivity.
Qed.

Lemma FarSeg_first_training_step_witness :
  FarSeg_forward resnet50_shapes fpn256_shapes gap_shapes any_loss (Ok 0) farseg50_model
    [2; 3; 896; 896] (Some (Some [2; 896; 896]))
  = (step_buffer farseg50_model, Ok LossDict).
Proof.
  apply (FarSeg_first_training_step resnet50_shapes fpn256_shapes gap_shapes any_loss (Ok 0)
           farseg50 farseg50_model [2; 3; 896; 896] [2; 896; 896] 2 224 224
           [[2; 256; 224; 224]; [2; 512; 112; 112]; [2; 1024; 56; 56]; [2; 2048; 28; 28]]
           [[2; 256; 224; 224]; [2; 256; 112; 112]; [2; 256; 56; 56]; [2; 256; 28; 28]]
           "cosine"%string eq_refl ltac:(discriminate)).
  - repeat constructor.
  - lia.
  - cbn; lia.
  - cbn; lia.
  - reflexivity.
  - reflexivity.
  - lia.
  - lia.
  - unfold pyramid_fits. cbn [scene_relation farseg50].
    split; [reflexivity|]. split; [reflexivity|].
    split; [eexists _, _; split; reflexivity|].
    repeat constructor; cbn; try lia; eexists _, _; repeat split; lia.
  - reflexivity.
  - reflexivity.
  - left. reflexivity.
Defined.
